(** * JOB-EZ: the résumé matcher and the application-flow state machine

    A shallow embedding of [src/llm_engine.py] (class [LLMEngine]) and of
    [src/bot.py] (class [JobBot]), with the properties that the specification
    states about them.

    Conventions of the embedding.
    - A Python [str] is a [string]; a character is one 8-bit code point
      (ASCII and Latin-1 texts are represented exactly).
    - A Python [float] is a binary64 [float] of the kernel, an [int] is a [Z].
    - A Python [dict] keeps insertion order: it is an association list with
      the dict operations below.  Dicts that the program shares or mutates
      live in a store, addressed by location.
    - Code that can raise runs in the monad [PyM]: a state transformer whose
      result is an exception or a value.  The exceptions are the instances
      of [Exception], which is what the handlers of the source catch.
    - The language model, [json.loads], the browser and the helpers of
      [src.utils] are collaborators: the properties hold for every behaviour
      of theirs.
    - [print] only writes diagnostics and is left out; the formatting of its
      arguments is kept where it can raise. *)

From Stdlib Require Import ZArith String Ascii List Floats Lia Bool.
From stdpp Require Import base gmap strings list.

#[local] Set Warnings "-inexact-float,-register-all".
#[local] Open Scope Z_scope.

(** ** Python exceptions *)

Inductive ExnClass :=
| ValueError | TypeError | KeyError | IndexError | AttributeError
| OverflowError | JSONDecodeError | PlaywrightError | OtherException.

(** An instance of (a subclass of) [Exception]; [exn_msg] is [str(e)]. *)
Record Exn := mkExn { exn_class : ExnClass; exn_msg : string }.

(** [except json.JSONDecodeError] *)
Definition is_JSONDecodeError (e : Exn) : bool :=
  match exn_class e with JSONDecodeError => true | _ => false end.

(** ** The monad of Python code: state and exceptions *)

Definition PyM (S A : Type) : Type := S -> (Exn + A) * S.

Definition ret {S A} (a : A) : PyM S A := fun s => (inr a, s).

Definition raise {S A} (e : Exn) : PyM S A := fun s => (inl e, s).

Definition bind {S A B} (m : PyM S A) (f : A -> PyM S B) : PyM S B :=
  fun s => match m s with
           | (inr a, s') => f a s'
           | (inl e, s') => (inl e, s')
           end.

(** [try: m except Exception as e: h e]; the handler runs in the state the
    fault left behind, and its own faults propagate. *)
Definition try_except {S A} (m : PyM S A) (h : Exn -> PyM S A) : PyM S A :=
  fun s => match m s with
           | (inr a, s') => (inr a, s')
           | (inl e, s') => h e s'
           end.

(** The result of a run is an exception. *)
Definition raised {A} (r : Exn + A) : Prop :=
  match r with inl _ => True | inr _ => False end.

(** Lifting of a pure partial operation. *)
Definition lift {S A} (r : Exn + A) : PyM S A := fun s => (r, s).

Declare Scope py_scope.
Delimit Scope py_scope with py.
Notation "'let*' x ':=' m 'in' k" := (bind m (fun x => k))
  (at level 10, x name, m at level 100, k at level 200) : py_scope.
Notation "m ';;' k" := (bind m (fun _ => k))
  (at level 100, k at level 200, right associativity) : py_scope.
#[local] Open Scope py_scope.

(** A statement of a function body yields [Some v] when it executed
    [return v] and [None] when control falls through to the next statement. *)
Definition seq_stmt {S R} (s1 s2 : PyM S (option R)) : PyM S (option R) :=
  let* r := s1 in
  match r with
  | Some v => ret (Some v)
  | None => s2
  end.
Notation "s1 ';;;' s2" := (seq_stmt s1 s2)
  (at level 100, s2 at level 200, right associativity) : py_scope.

(** [for x in l: body x], where the body may [return]. *)
Fixpoint for_each {S X R} (l : list X) (body : X -> PyM S (option R)) : PyM S (option R) :=
  match l with
  | [] => ret None
  | x :: l' => body x ;;; for_each l' body
  end.

(** [for x in l: body x] with [break] and a loop [else]: the body yields
    [true] to break; the result tells whether the loop broke. *)
Fixpoint for_break {S X} (l : list X) (body : X -> PyM S bool) : PyM S bool :=
  match l with
  | [] => ret false
  | x :: l' => let* b := body x in if b then ret true else for_break l' body
  end.

(** [for x in l: body x] with neither [break] nor [return]. *)
Fixpoint for_do {S X} (l : list X) (body : X -> PyM S unit) : PyM S unit :=
  match l with
  | [] => ret tt
  | x :: l' => body x ;; for_do l' body
  end.

(** [range(n)] *)
Definition range (n : Z) : list Z := map Z.of_nat (seq 0 (Z.to_nat n)).

(** [wp m Q s]: running [m] from [s] ends in a result and a state that
    satisfy [Q].  Every [PyM] computation is a total function, so this is a
    total-correctness assertion. *)
Definition wp {S A} (m : PyM S A) (Q : Exn + A -> S -> Prop) (s : S) : Prop :=
  Q (m s).1 (m s).2.

(** ** Python strings *)

Module Py.

Definition code (c : ascii) : N := N_of_ascii c.

(** [str.lower] on one code point below 256: A-Z, and the upper-case Latin-1
    letters U+00C0..U+00DE except the multiplication sign U+00D7. *)
Definition lower_char (c : ascii) : ascii :=
  let n := code c in
  if ((65 <=? n) && (n <=? 90))%N then ascii_of_N (n + 32)
  else if ((192 <=? n) && (n <=? 222) && negb (n =? 215))%N then ascii_of_N (n + 32)
  else c.

Fixpoint lower (s : string) : string :=
  match s with
  | EmptyString => EmptyString
  | String c s' => String (lower_char c) (lower s')
  end.

(** [str.isspace] on one code point below 256. *)
Definition is_space (c : ascii) : bool :=
  let n := code c in
  (((9 <=? n) && (n <=? 13)) || ((28 <=? n) && (n <=? 32)) || (n =? 133) || (n =? 160))%N.

Fixpoint lstrip (s : string) : string :=
  match s with
  | EmptyString => EmptyString
  | String c s' => if is_space c then lstrip s' else s
  end.

Fixpoint rstrip (s : string) : string :=
  match s with
  | EmptyString => EmptyString
  | String c s' =>
      match rstrip s' with
      | EmptyString => if is_space c then EmptyString else String c EmptyString
      | r => String c r
      end
  end.

(** [s.strip()] *)
Definition strip (s : string) : string := rstrip (lstrip s).

(** [sub in s] *)
Fixpoint contains (sub s : string) : bool :=
  String.prefix sub s ||
  match s with
  | EmptyString => false
  | String _ s' => contains sub s'
  end.

(** [s.split(sep)] for a non-empty [sep]: [skip] counts the characters of a
    matched separator that are still to be dropped. *)
Fixpoint split_from (sep : string) (skip : nat) (s : string) : list string :=
  match s with
  | EmptyString => [EmptyString]
  | String c s' =>
      match skip with
      | S k => split_from sep k s'
      | O =>
          if String.prefix sep s
          then EmptyString :: split_from sep (String.length sep - 1) s'
          else match split_from sep 0 s' with
               | h :: t => String c h :: t
               | [] => [String c EmptyString]
               end
      end
  end.

Definition split (sep s : string) : list string := split_from sep 0 s.

(** [s.split()]: the maximal runs of non-blank characters. *)
Fixpoint split_ws (s : string) : list string :=
  match s with
  | EmptyString => []
  | String c s' =>
      if is_space c then split_ws s'
      else match s' with
           | EmptyString => [String c EmptyString]
           | String c' _ =>
               if is_space c' then String c EmptyString :: split_ws s'
               else match split_ws s' with
                    | h :: t => String c h :: t
                    | [] => [String c EmptyString]
                    end
           end
  end.

(** [sep.join(l)] *)
Fixpoint join (sep : string) (l : list string) : string :=
  match l with
  | [] => EmptyString
  | [x] => x
  | x :: l' => x +:+ sep +:+ join sep l'
  end.

(** [s[:n]] *)
Definition slice_to (n : nat) (s : string) : string := String.substring 0 n s.

(** The line feed and the double quote, for the literals that contain them. *)
Definition nl : string := String (ascii_of_nat 10) EmptyString.
Definition dq : string := String (ascii_of_nat 34) EmptyString.

End Py.

(** ** Python values *)

Inductive PyVal :=
| VNone
| VBool (b : bool)
| VInt (z : Z)
| VFloat (f : float)
| VStr (s : string)
| VList (l : list PyVal)
| VDict (d : list (string * PyVal)).

(** A dict with string keys, in insertion order. *)
Definition PyDict : Type := list (string * PyVal).

Fixpoint dict_get (k : string) (d : PyDict) : option PyVal :=
  match d with
  | [] => None
  | (k', v) :: d' => if String.eqb k k' then Some v else dict_get k d'
  end.

(** [k in d] *)
Definition dict_has (k : string) (d : PyDict) : bool :=
  match dict_get k d with Some _ => true | None => false end.

(** [d[k] = v]: an existing key keeps its place, a new key goes last. *)
Fixpoint dict_set (k : string) (v : PyVal) (d : PyDict) : PyDict :=
  match d with
  | [] => [(k, v)]
  | (k', v') :: d' =>
      if String.eqb k k' then (k, v) :: d' else (k', v') :: dict_set k v d'
  end.

(** [list(d.keys())] *)
Definition dict_keys (d : PyDict) : list string := map fst d.

(** [l[i]] *)
Definition index {A} (l : list A) (i : nat) : Exn + A :=
  match nth_error l i with
  | Some x => inr x
  | None => inl (mkExn IndexError "list index out of range")
  end.

(** ** Python numbers *)

Module Num.

#[local] Open Scope float_scope.

(** [float(z)] for an int: round to nearest even, [OverflowError] beyond the
    largest double. *)
Definition float_of_Z (z : Z) : Exn + float :=
  match binary_normalize prec emax z 0 false with
  | S754_infinity _ => inl (mkExn OverflowError "int too large to convert to float")
  | sf => inr (SF2Prim sf)
  end.

(** [int(f)] for a float: truncation towards zero. *)
Definition Z_of_float (f : float) : Exn + Z :=
  match Prim2SF f with
  | S754_nan => inl (mkExn ValueError "cannot convert float NaN to integer")
  | S754_infinity _ => inl (mkExn OverflowError "cannot convert float infinity to integer")
  | S754_zero _ => inr 0%Z
  | S754_finite s m e =>
      let a := (if 0 <=? e then Z.pos m * 2 ^ e else Z.pos m / 2 ^ (- e))%Z in
      inr (if s then - a else a)%Z
  end.

(** [z < f] and [f < z] between an int and a float compare the exact values. *)
Definition Z_lt_float (z : Z) (f : float) : bool :=
  match Prim2SF f with
  | S754_nan => false
  | S754_infinity s => negb s
  | S754_zero _ => (z <? 0)%Z
  | S754_finite s m e =>
      let v := (if s then - Z.pos m else Z.pos m)%Z in
      (if 0 <=? e then z <? v * 2 ^ e else z * 2 ^ (- e) <? v)%Z
  end.

Definition float_lt_Z (f : float) (z : Z) : bool :=
  match Prim2SF f with
  | S754_nan => false
  | S754_infinity s => s
  | S754_zero _ => (0 <? z)%Z
  | S754_finite s m e =>
      let v := (if s then - Z.pos m else Z.pos m)%Z in
      (if 0 <=? e then v * 2 ^ e <? z else v <? z * 2 ^ (- e))%Z
  end.

(** [min(a, b)] and [max(a, b)] keep the first argument unless the second
    one is strictly smaller (resp. greater). *)
Definition min_float (a b : float) : float := if b <? a then b else a.
Definition max_float (a b : float) : float := if a <? b then b else a.

(** [v < m] for a float [m] *)
Definition lt_float (v : PyVal) (m : float) : Exn + bool :=
  match v with
  | VFloat f => inr (f <? m)
  | VInt z => inr (Z_lt_float z m)
  | VBool b => inr (Z_lt_float (Z.b2z b) m)
  | _ => inl (mkExn TypeError "'<' not supported between these instances")
  end.

(** [v < m] for an int [m] *)
Definition lt_int (v : PyVal) (m : Z) : Exn + bool :=
  match v with
  | VFloat f => inr (float_lt_Z f m)
  | VInt z => inr (z <? m)%Z
  | VBool b => inr (Z.b2z b <? m)%Z
  | _ => inl (mkExn TypeError "'<' not supported between these instances")
  end.

(** Evaluating the replacement field [{v:.0%}] of an f-string. *)
Definition format_percent (v : PyVal) : Exn + unit :=
  match v with
  | VFloat _ | VBool _ => inr tt
  | VInt z => match float_of_Z z with inl e => inl e | inr _ => inr tt end
  | VStr _ => inl (mkExn ValueError "Unknown format code '%' for object of type 'str'")
  | _ => inl (mkExn TypeError "unsupported format string")
  end.

End Num.

(** ** The store of shared dicts *)

Abbreviation loc := positive (only parsing).
Abbreviation Store := (gmap positive PyDict) (only parsing).

(** What a variable holds: a dict of the store, or an immediate value. *)
Inductive PyObj :=
| ODict (l : loc)
| OVal (v : PyVal).

Definition load (l : loc) : PyM Store PyDict :=
  fun σ => match σ !! l with
           | Some d => (inr d, σ)
           | None => (inl (mkExn TypeError "not a dict"), σ)
           end.

(** A fresh dict object. *)
Definition alloc (d : PyDict) : PyM Store loc :=
  fun σ => let l := fresh (dom σ) in (inr l, <[l := d]> σ).

(** [obj[k]] on a dict of the store *)
Definition getitem (l : loc) (k : string) : PyM Store PyVal :=
  let* d := load l in
  match dict_get k d with
  | Some v => ret v
  | None => raise (mkExn KeyError k)
  end.

(** [obj[k] = v] on a dict of the store: an update in place. *)
Definition setitem (l : loc) (k : string) (v : PyVal) : PyM Store unit :=
  fun σ => match σ !! l with
           | Some d => (inr tt, <[l := dict_set k v d]> σ)
           | None => (inl (mkExn TypeError "not a dict"), σ)
           end.

(** ** The Matcher: [LLMEngine] of [src/llm_engine.py] *)

Module Matcher.

Import Py Num.

Section Engine.

(** The collaborators of the engine.
    - [generate_content prompt] is [self.model.generate_content(prompt).text]:
      the text of the model's answer, or the fault of the call.
    - [json_loads] is [json.loads].
    - [float_of_str] and [int_of_str] are [float(s)] and [int(s)] on a [str]
      ([None] where Python raises [ValueError]). *)
Variable generate_content : string -> Exn + string.
Variable json_loads : string -> Exn + PyVal.
Variable float_of_str : string -> option float.
Variable int_of_str : string -> option Z.

(** [float(v)] *)
Definition py_float (v : PyVal) : Exn + float :=
  match v with
  | VFloat f => inr f
  | VInt z => float_of_Z z
  | VBool b => inr (if b then 1 else 0)%float
  | VStr s =>
      match float_of_str s with
      | Some f => inr f
      | None => inl (mkExn ValueError "could not convert string to float")
      end
  | _ => inl (mkExn TypeError "float() argument must be a string or a real number")
  end.

(** [int(v)] *)
Definition py_int (v : PyVal) : Exn + Z :=
  match v with
  | VInt z => inr z
  | VBool b => inr (Z.b2z b)
  | VFloat f => Z_of_float f
  | VStr s =>
      match int_of_str s with
      | Some z => inr z
      | None => inl (mkExn ValueError "invalid literal for int() with base 10")
      end
  | _ => inl (mkExn TypeError "int() argument must be a string or a real number")
  end.

(** One turn of the first loop of [_build_matching_prompt]:
    [' '.join(data['text'].split()[:800])]. *)
Definition summary_of (data : PyVal) : Exn + string :=
  match data with
  | VDict d =>
      match dict_get "text" d with
      | Some (VStr text) => inr (join " " (firstn 800 (split_ws text)))
      | Some _ => inl (mkExn AttributeError "object has no attribute 'split'")
      | None => inl (mkExn KeyError "text")
      end
  | _ => inl (mkExn TypeError "object is not subscriptable with 'text'")
  end.

(** [resume_summaries], filled in iteration order of [resumes]. *)
Fixpoint summaries (items : PyDict) (resume_summaries : PyDict) : Exn + PyDict :=
  match items with
  | [] => inr resume_summaries
  | (filename, data) :: items' =>
      match summary_of data with
      | inl e => inl e
      | inr s => summaries items' (dict_set filename (VStr s) resume_summaries)
      end
  end.

Definition show_str (v : PyVal) : string :=
  match v with VStr s => s | _ => EmptyString end.

Definition prompt_head : string :=
  "You are an expert resume matcher for job applications. Your task is to analyze a job description and select the BEST resume from the available options." +:+ nl +:+ nl.

Definition prompt_task : string :=
  nl +:+ nl +:+ "TASK:" +:+ nl +:+
  "Analyze the job requirements and select the resume that is the BEST match. Consider:" +:+ nl +:+
  "1. Technical skills alignment (frameworks, languages, tools)" +:+ nl +:+
  "2. Experience level match (junior/mid/senior)" +:+ nl +:+
  "3. Domain expertise (frontend/backend/fullstack/devops/etc.)" +:+ nl +:+
  "4. Relevant projects or achievements" +:+ nl +:+ nl +:+
  "RESPOND ONLY IN THIS EXACT JSON FORMAT (no markdown, no explanation outside JSON):" +:+ nl +:+
  "{" +:+ nl +:+
  "  " +:+ dq +:+ "selected_resume" +:+ dq +:+ ": " +:+ dq +:+ "exact_filename.pdf" +:+ dq +:+ "," +:+ nl +:+
  "  " +:+ dq +:+ "confidence" +:+ dq +:+ ": 0.85," +:+ nl +:+
  "  " +:+ dq +:+ "reasoning" +:+ dq +:+ ": " +:+ dq +:+ "Brief 1-2 sentence explanation of why this resume is best" +:+ dq +:+ "," +:+ nl +:+
  "  " +:+ dq +:+ "match_score" +:+ dq +:+ ": 85," +:+ nl +:+
  "  " +:+ dq +:+ "key_matches" +:+ dq +:+ ": [" +:+ dq +:+ "React" +:+ dq +:+ ", " +:+ dq +:+ "TypeScript" +:+ dq +:+ ", " +:+ dq +:+ "5+ years experience" +:+ dq +:+ "]" +:+ nl +:+
  "}" +:+ nl +:+ nl +:+
  "Rules:" +:+ nl +:+
  "- selected_resume MUST be one of the exact filenames provided" +:+ nl +:+
  "- confidence: 0.0 to 1.0 (decimal)" +:+ nl +:+
  "- match_score: 0 to 100 (integer)" +:+ nl +:+
  "- Be decisive - always pick ONE resume, even if none are perfect" +:+ nl +:+
  "- If multiple resumes are equally good, pick the most specialized one" +:+ nl.

Definition _build_matching_prompt
  (job_description : string) (resumes : loc) (job_title : option string) : PyM Store string :=
  let* items := load resumes in
  let* resume_summaries := lift (summaries items []) in
  let job_context :=
    match job_title with
    | None | Some EmptyString => EmptyString
    | Some t => "Job Title: " +:+ t +:+ nl +:+ nl
    end in
  let prompt :=
    prompt_head +:+ job_context +:+ "Job Description:" +:+ nl +:+ "---" +:+ nl +:+
    slice_to 3000 job_description +:+ "  " +:+ nl +:+ "---" +:+ nl +:+ nl +:+
    "Available Resumes:" +:+ nl in
  let prompt :=
    fold_left
      (fun p (item : string * PyVal) =>
         p +:+ nl +:+ nl +:+ "=== " +:+ fst item +:+ " ===" +:+ nl +:+ show_str (snd item) +:+ nl)
      resume_summaries prompt in
  ret (prompt +:+ prompt_task).

(** [_fallback_selection]: a new result dict naming the first key. *)
Definition _fallback_selection (resumes : loc) : PyM Store PyObj :=
  let* items := load resumes in
  let* first_resume := lift (index (dict_keys items) 0) in
  let* l := alloc [("selected_resume", VStr first_resume);
                   ("confidence", VFloat 0.5);
                   ("reasoning", VStr "Fallback selection due to LLM error");
                   ("match_score", VInt 50);
                   ("key_matches", VList [])] in
  ret (ODict l).

(** The two [if]/[elif] branches that drop a Markdown fence. *)
Definition strip_fence (response_text : string) : Exn + string :=
  if contains "```json" response_text then
    match index (split "```json" response_text) 1 with
    | inl e => inl e
    | inr inner => index (split "```" inner) 0
    end
  else if contains "```" response_text then
    match index (split "```" response_text) 1 with
    | inl e => inl e
    | inr inner => index (split "```" inner) 0
    end
  else inr response_text.

(** What [json.loads] returned, as an object: a JSON object is a new dict. *)
Definition new_object (v : PyVal) : PyM Store PyObj :=
  match v with
  | VDict d => let* l := alloc d in ret (ODict l)
  | _ => ret (OVal v)
  end.

Definition is_str (s : string) (v : PyVal) : bool :=
  match v with VStr s' => String.eqb s' s | _ => false end.

(** [field in result] *)
Definition has_field (result : PyObj) (field : string) : PyM Store bool :=
  match result with
  | ODict l => let* d := load l in ret (dict_has field d)
  | OVal (VDict d) => ret (dict_has field d)
  | OVal (VList xs) => ret (existsb (is_str field) xs)
  | OVal (VStr s) => ret (contains field s)
  | OVal _ => raise (mkExn TypeError "argument is not iterable")
  end.

(** [result[k]] *)
Definition subscript (result : PyObj) (k : string) : PyM Store PyVal :=
  match result with
  | ODict l => getitem l k
  | OVal (VDict d) =>
      match dict_get k d with
      | Some v => ret v
      | None => raise (mkExn KeyError k)
      end
  | OVal _ => raise (mkExn TypeError "indices must be integers")
  end.

(** [result[k] = v] *)
Definition assign (result : PyObj) (k : string) (v : PyVal) : PyM Store unit :=
  match result with
  | ODict l => setitem l k v
  | OVal _ => raise (mkExn TypeError "object does not support item assignment")
  end.

(** [v in resumes]: a key lookup, which hashes [v]. *)
Definition key_in (v : PyVal) (items : PyDict) : Exn + bool :=
  match v with
  | VStr s => inr (dict_has s items)
  | VList _ | VDict _ => inl (mkExn TypeError "unhashable type")
  | _ => inr false
  end.

(** [v.lower()] *)
Definition py_lower (v : PyVal) : Exn + string :=
  match v with
  | VStr s => inr (lower s)
  | _ => inl (mkExn AttributeError "object has no attribute 'lower'")
  end.

Definition required_fields : list string :=
  ["selected_resume"; "confidence"; "reasoning"; "match_score"].

(** The confidence stored back: a value above 1 is read as a percentage,
    then [max(0.0, min(1.0, confidence))]. *)
Definition normalize_confidence (confidence : float) : float :=
  let confidence := (if 1.0 <? confidence then confidence / 100.0 else confidence)%float in
  max_float 0.0 (min_float 1.0 confidence).

(** [max(0, min(100, z))] *)
Definition clamp_score (z : Z) : Z := Z.max 0 (Z.min 100 z).

(** The body of the [try] of [_parse_llm_response]. *)
Definition parse_body (response_text : string) (resumes : loc) : PyM Store PyObj :=
  let* response_text := lift (strip_fence response_text) in
  let* v := lift (json_loads (strip response_text)) in
  let* result := new_object v in
  (let* r := for_each required_fields (fun field =>
       let* present := has_field result field in
       if present then ret None
       else raise (mkExn ValueError ("Missing required field: " +:+ field))) in
   ret (r : option unit));;
  let* selected := subscript result "selected_resume" in
  let* items := load resumes in
  let* known := lift (key_in selected items) in
  (if known then ret tt
   else
     let* selected := subscript result "selected_resume" in
     let* selected_lower := lift (py_lower selected) in
     match find (fun filename => String.eqb (lower filename) selected_lower) (dict_keys items) with
     | Some filename => assign result "selected_resume" (VStr filename)
     | None => raise (mkExn ValueError "Invalid resume")
     end);;
  let* c := subscript result "confidence" in
  let* confidence := lift (py_float c) in
  assign result "confidence" (VFloat (normalize_confidence confidence));;
  let* m := subscript result "match_score" in
  let* score := lift (py_int m) in
  assign result "match_score" (VInt (clamp_score score));;
  ret result.

(** [_parse_llm_response]: both handlers fall back. *)
Definition _parse_llm_response (response_text : string) (resumes : loc) : PyM Store PyObj :=
  try_except (parse_body response_text resumes)
    (fun e =>
       if is_JSONDecodeError e then _fallback_selection resumes
       else _fallback_selection resumes).

Definition select_best_resume
  (job_description : string) (resumes : loc) (job_title : option string) : PyM Store PyObj :=
  let* items := load resumes in
  match items with
  | [] => raise (mkExn ValueError "No resumes available for matching!")
  | _ :: _ =>
      let* prompt := _build_matching_prompt job_description resumes job_title in
      try_except
        (let* text := lift (generate_content prompt) in
         let result_text := strip text in
         let* result := _parse_llm_response result_text resumes in
         let* _ := subscript result "selected_resume" in
         let* c := subscript result "confidence" in
         lift (format_percent c);;
         ret result)
        (fun e => _fallback_selection resumes)
  end.

Definition red_flags : list string := ["commission only"; "pay to apply"].

Definition should_apply
  (job_description : string) (match_result : loc)
  (min_confidence : float) (min_match_score : Z) : PyM Store bool :=
  let* d := load match_result in
  let confidence := default (VInt 0) (dict_get "confidence" d) in
  let score := default (VInt 0) (dict_get "match_score" d) in
  let* low := lift (lt_float confidence min_confidence) in
  if low then lift (format_percent confidence);; ret false
  else
    let* low := lift (lt_int score min_match_score) in
    if low then ret false
    else
      let job_lower := lower job_description in
      let* r := for_each red_flags (fun flag =>
          if contains flag job_lower then ret (Some false) else ret None) in
      match r with
      | Some b => ret b
      | None => ret true
      end.

End Engine.

End Matcher.

(** ** The Applicator: [JobBot] of [src/bot.py] *)

Module Applicator.

Import Py.

(** A Playwright locator: building one does not touch the page. *)
Inductive Locator :=
| Locate (selector : string)                  (* [page.locator(selector)] *)
| First (l : Locator)                         (* [l.first] *)
| Nth (l : Locator) (i : Z)                   (* [l.nth(i)] *)
| Within (l : Locator) (selector : string).   (* [l.locator(selector)] *)

(** The calls that reach the browser (and the helpers of [src.utils], which
    drive it). *)
Inductive Action :=
| PlaywrightStart
| LaunchPersistentContext
| ContextPages
| NewPage
| AddInitScript
| Goto (url : string) (timeout : Z)
| HumanSleep (lo hi : float)
| SimulateReading (selector : string)
| HumanClick (selector : string)
| Count (l : Locator)
| IsVisible (l : Locator)
| GetAttribute (l : Locator) (name : string)
| InnerText (l : Locator)
| TextContent (l : Locator)
| Fill (l : Locator) (value : string)
| Click (l : Locator)
| SetInputFiles (l : Locator) (path : string).

(** What each call returns when it does not raise; [ContextPages] tells
    whether [browser.pages] is non-empty. *)
Definition ret_type (a : Action) : Type :=
  match a with
  | ContextPages => bool
  | Count _ => Z
  | IsVisible _ => bool
  | GetAttribute _ _ => option string
  | InnerText _ => string
  | TextContent _ => option string
  | _ => unit
  end.

(** One call with its answer. *)
Inductive Event :=
| Ev (a : Action) (r : Exn + ret_type a).

Definition action_of (e : Event) : Action :=
  match e with Ev a _ => a end.

(** The fault an event ended with, if any. *)
Definition fault_of (e : Event) : option Exn :=
  match e with
  | Ev _ (inl x) => Some x
  | Ev _ (inr _) => None
  end.

(** [user_config.PROFILE] and [user_config.ANSWERS], in source order. *)
Definition PROFILE : list (string * string) :=
  [("first_name", "Mithurn");
   ("last_name", "Jeromme");
   ("full_name", "Mithurn Jeromme");
   ("email", "mithurnjeromme172@gmail.com");
   ("phone", "8056687515");
   ("linkedin", " https://www.linkedin.com/in/mithurn-jeromme-s-k");
   ("github", "https://github.com/Mithurn");
   ("portfolio", "https://mithurnjerommeweb.vercel.app");
   ("location", "Abode Valley-m108, Potheri, Chennai, Tamil Nadu, India");
   ("experience_years", "2");
   ("notice_period", "Immediate")].

Definition ANSWERS : list (string * string) :=
  [("relocate", "Yes");
   ("remote", "Yes");
   ("legally authorized", "Yes");
   ("sponsorship", "No")].

Definition apply_locators : list string :=
  ["button.jobs-apply-button";
   "button[aria-label*='Easy Apply']";
   "button:has-text('Easy Apply')";
   "a[aria-label*='Easy Apply']";
   "a:has-text('Easy Apply')";
   "a[data-view-name='job-apply-button']";
   "*[aria-label*='Easy Apply']";
   "*:has-text('Easy Apply')"].

Definition submit_selector : string := "button[aria-label='Submit application']".
Definition next_selector : string := "button[aria-label='Next']".
Definition review_selector : string := "button[aria-label='Review']".
Definition error_selector : string := ".artdeco-inline-feedback__message".

Definition max_steps : Z := 10.

(** The terminal outcomes of the specification and the strings that
    [apply_to_job] returns for them. *)
Inductive Outcome :=
| Success
| Skipped
| FailedSubmit (detail : string)
| FailedFormError
| FailedStuck
| FailedTooManySteps
| FailedException (detail : string).

Definition outcome_string (o : Outcome) : string :=
  match o with
  | Success => "Success"
  | Skipped => "Skipped"
  | FailedSubmit e => "Failed (Submit error: " +:+ e +:+ ")"
  | FailedFormError => "Failed (Form Error)"
  | FailedStuck => "Failed (Stuck)"
  | FailedTooManySteps => "Failed (Too many steps)"
  | FailedException e => "Failed: " +:+ e
  end.

(** Python truthiness of an optional string. *)
Definition truthy (o : option string) : bool :=
  match o with
  | None | Some EmptyString => false
  | Some _ => true
  end.

Section Bot.

(** The browser and the page behind it: [respond a w] is what the call [a]
    does in the state [w].  [DRY_RUN] is the flag imported from
    [src.config]. *)
Variable World : Type.
Variable respond : forall a : Action, World -> (Exn + ret_type a) * World.
Variable DRY_RUN : bool.

(** [trace] lists the calls made so far; [page] tells whether [self.page]
    is set. *)
Record BotState := mkBot { world : World; trace : list Event; page : bool }.

Definition perform (a : Action) : PyM BotState (ret_type a) :=
  fun s =>
    let (r, w) := respond a (world s) in
    (r, {| world := w; trace := trace s ++ [Ev a r]; page := page s |}).

Definition get_page : PyM BotState bool := fun s => (inr (page s), s).

Definition set_page : PyM BotState unit :=
  fun s => (inr tt, {| world := world s; trace := trace s; page := true |}).

Definition human_sleep (lo hi : float) : PyM BotState unit := perform (HumanSleep lo hi).

Definition human_click (selector : string) : PyM BotState unit := perform (HumanClick selector).

Definition start_browser : PyM BotState unit :=
  perform PlaywrightStart;;
  perform LaunchPersistentContext;;
  let* pages := perform ContextPages in
  (if pages then ret tt else perform NewPage);;
  set_page;;
  perform AddInitScript.

Definition _get_label (element : Locator) : PyM BotState string :=
  try_except
    (let* id_val := perform (GetAttribute element "id") in
     if truthy id_val
     then perform (InnerText (Locate ("label[for='" +:+ default EmptyString id_val +:+ "']")))
     else ret EmptyString)
    (fun _ => ret EmptyString).

Definition _fill_smart_fields : PyM BotState unit :=
  try_except
    (let inputs := Locate "input[type='text'], input[type='email'], input[type='tel']" in
     let* count := perform (Count inputs) in
     for_do (range count) (fun i =>
       let field := Nth inputs i in
       let* visible := perform (IsVisible field) in
       if visible then
         let* value := perform (GetAttribute field "value") in
         if negb (truthy value) then
           let* label := _get_label field in
           let label := lower label in
           let* _ := for_break PROFILE (fun item =>
             if contains (fst item) label
             then perform (Fill field (snd item));; human_sleep 0.5 1;; ret true
             else ret false) in
           ret tt
         else ret tt
       else ret tt);;
     let fieldsets := Locate "fieldset" in
     let* count := perform (Count fieldsets) in
     for_do (range count) (fun i =>
       let group := Nth fieldsets i in
       let* text := perform (TextContent group) in
       let* text :=
         match text with
         | Some t => ret (lower t)
         | None => raise (mkExn AttributeError "'NoneType' object has no attribute 'lower'")
         end in
       for_do ANSWERS (fun item =>
         if contains (fst item) text then
           let option := Within group ("label:has-text('" +:+ snd item +:+ "')") in
           let* visible := perform (IsVisible option) in
           if visible then perform (Click option);; human_sleep 0.5 1 else ret tt
         else ret tt)))
    (fun _ => ret tt).

Definition _handle_upload (resume_path : string) : PyM BotState unit :=
  try_except
    (let file_input := Locate "input[type='file']" in
     let* visible := perform (IsVisible file_input) in
     if visible then
       let* value := perform (GetAttribute file_input "value") in
       if negb (truthy value)
       then perform (SetInputFiles file_input resume_path);; human_sleep 2 4
       else ret tt
     else ret tt)
    (fun _ => ret tt).

(** The body of the form loop, written as the statements A to D of the
    source followed by its last two statements. *)
Definition form_step (resume_path : string) (step : Z) : PyM BotState (option string) :=
  (_fill_smart_fields;; ret None) ;;;
  (_handle_upload resume_path;; ret None) ;;;
  (let* visible := perform (IsVisible (Locate submit_selector)) in
   if visible then
     (if negb DRY_RUN then
        try_except
          (human_click submit_selector;; human_sleep 3 5;; ret None)
          (fun e => ret (Some ("Failed (Submit error: " +:+ exn_msg e +:+ ")")))
      else ret None) ;;;
     ret (Some "Success")
   else ret None) ;;;
  (let* visible := perform (IsVisible (Locate next_selector)) in
   if visible then human_click next_selector;; ret None
   else
     let* visible := perform (IsVisible (Locate review_selector)) in
     if visible then human_click review_selector;; ret None
     else
       let* visible := perform (IsVisible (Locate error_selector)) in
       if visible then ret (Some "Failed (Form Error)")
       else ret (Some "Failed (Stuck)")) ;;;
  (human_sleep 2 3;; ret None) ;;;
  ret (Some "Failed (Too many steps)").

(** The result is [Some] of the returned string; [None] stands for a call
    that ends without [return]. *)
Definition apply_to_job (job_url resume_path : string) : PyM BotState (option string) :=
  (let* started := get_page in if started then ret tt else start_browser);;
  try_except
    (perform (Goto job_url 60000);;
     human_sleep 3 5;;
     perform (SimulateReading "h1");;
     let* clicked := for_break apply_locators (fun selector =>
       try_except
         (let loc := Locate selector in
          let* n := perform (Count loc) in
          if 0 <? n then
            let* visible := perform (IsVisible (First loc)) in
            if visible then human_click selector;; ret true else ret false
          else ret false)
         (fun _ => human_sleep 0.7 1.5;; ret false)) in
     (if negb clicked then ret (Some "Skipped") else ret None) ;;;
     (human_sleep 2 3;; ret None) ;;;
     for_each (range max_steps) (form_step resume_path))
    (fun e => ret (Some ("Failed: " +:+ exn_msg e))).

End Bot.

Arguments world {World} _.
Arguments trace {World} _.
Arguments page {World} _.
Arguments mkBot {World} _ _ _.

End Applicator.

(** ** The auxiliary operation of the Matcher: [extract_job_info] *)

Module JobInfo.

Import Py Num Matcher.

(** The record returned when anything goes wrong. *)
Definition default_job_info : PyDict :=
  [("company", VStr "Unknown");
   ("location", VStr "Not specified");
   ("experience_level", VStr "Not specified");
   ("key_skills", VList [])].

Definition job_info_prompt (job_description : string) : string :=
  "Extract key information from this job description in JSON format:" +:+ nl +:+ nl +:+
  slice_to 2000 job_description +:+ nl +:+ nl +:+
  "Respond ONLY with JSON (no markdown):" +:+ nl +:+
  "{" +:+ nl +:+
  "  " +:+ dq +:+ "company" +:+ dq +:+ ": " +:+ dq +:+ "company name or 'Unknown'" +:+ dq +:+ "," +:+ nl +:+
  "  " +:+ dq +:+ "location" +:+ dq +:+ ": " +:+ dq +:+ "location or 'Remote/Not specified'" +:+ dq +:+ "," +:+ nl +:+
  "  " +:+ dq +:+ "experience_level" +:+ dq +:+ ": " +:+ dq +:+ "Entry/Mid/Senior/Not specified" +:+ dq +:+ "," +:+ nl +:+
  "  " +:+ dq +:+ "key_skills" +:+ dq +:+ ": [" +:+ dq +:+ "skill1" +:+ dq +:+ ", " +:+ dq +:+ "skill2" +:+ dq +:+ ", " +:+ dq +:+ "skill3" +:+ dq +:+ "]" +:+ nl +:+
  "}" +:+ nl.

Section Engine.

Variable generate_content : string -> Exn + string.
Variable json_loads : string -> Exn + PyVal.

(** Only the [```json] fence is dropped here. *)
Definition strip_json_fence (result_text : string) : Exn + string :=
  if contains "```json" result_text then
    match index (split "```json" result_text) 1 with
    | inl e => inl e
    | inr inner => index (split "```" inner) 0
    end
  else inr result_text.

Definition extract_job_info (job_description : string) : PyM Store PyObj :=
  let prompt := job_info_prompt job_description in
  try_except
    (let* text := lift (generate_content prompt) in
     let result_text := strip text in
     let* result_text := lift (strip_json_fence result_text) in
     let* v := lift (json_loads (strip result_text)) in
     new_object v)
    (fun e => let* l := alloc default_job_info in ret (ODict l)).

End Engine.

End JobInfo.

(** ** Predicates of the specification: the Matcher *)

Module MatcherSpec.

Import Py Num Matcher.

(** The dict that [_fallback_selection] builds for the first key [k]. *)
Definition fallback_result (k : string) : PyDict :=
  [("selected_resume", VStr k);
   ("confidence", VFloat 0.5);
   ("reasoning", VStr "Fallback selection due to LLM error");
   ("match_score", VInt 50);
   ("key_matches", VList [])].

(** The invariant of a [MatchResult] over the résumé mapping [items]. *)
Definition valid_result (items res : PyDict) : Prop :=
  exists k c z,
    dict_get "selected_resume" res = Some (VStr k) /\ In k (dict_keys items) /\
    dict_get "confidence" res = Some (VFloat c) /\
    (0 <=? c)%float = true /\ (c <=? 1)%float = true /\
    dict_get "match_score" res = Some (VInt z) /\ 0 <= z <= 100.

(** A call returned the new dict [res] and left every dict of [σ] as it was. *)
Definition returns_new (σ : Store) (P : PyDict -> Prop) (r : Exn + PyObj) (σ' : Store) : Prop :=
  exists l res, r = inr (ODict l) /\ σ !! l = None /\ σ' !! l = Some res /\ P res /\ σ ⊆ σ'.

(** The postcondition of the [try] body of [_parse_llm_response]: the dicts
    of [σ] are as they were, and a result that is returned is a new dict
    that satisfies the invariant. *)
Definition parsed (σ : Store) (items : PyDict) (r : Exn + PyObj) (σ' : Store) : Prop :=
  σ ⊆ σ' /\
  match r with
  | inl _ => True
  | inr o => exists l res,
      o = ODict l /\ σ !! l = None /\ σ' !! l = Some res /\ valid_result items res
  end.

(** Résumé records as the specification describes them: a dict with a
    [text] string. *)
Definition has_text (data : PyVal) : bool :=
  match data with
  | VDict d => match dict_get "text" d with Some (VStr _) => true | _ => false end
  | _ => false
  end.

Definition well_formed (items : PyDict) : bool := forallb (fun item => has_text item.2) items.

(** The decision of the gate on a result with a float confidence [c] and an
    int score [z]. *)
Definition gate (jd : string) (c : float) (z : Z) (min_confidence : float) (min_match_score : Z) : bool :=
  if (c <? min_confidence)%float then false
  else if (z <? min_match_score)%Z then false
  else if existsb (fun flag => contains flag (lower jd)) red_flags then false
  else true.

Section Engine.

Variable generate_content : string -> Exn + string.
Variable json_loads : string -> Exn + PyVal.
Variable float_of_str : string -> option float.
Variable int_of_str : string -> option Z.

(** The condition under which [select_best_resume] falls back: the model
    call faulted, or the [try] body of the parser raised on its answer. *)
Definition fell_back (prompt : string) (resumes : loc) (σ : Store) : Prop :=
  match generate_content prompt with
  | inl _ => True
  | inr text => raised (parse_body json_loads float_of_str int_of_str (strip text) resumes σ).1
  end.

End Engine.

End MatcherSpec.

(** ** Predicates of the specification: the Applicator *)

Module ApplicatorSpec.

Import Py Applicator.

(** The event "the submit button was found visible". *)
Definition submit_seen (e : Event) : bool :=
  match e with
  | Ev a r =>
      match a return Exn + ret_type a -> bool with
      | IsVisible (Locate selector) => fun r =>
          match r with
          | inr true => String.eqb selector submit_selector
          | _ => false
          end
      | _ => fun _ => false
      end r
  end.

(** The checks of the submit button among some events. *)
Definition is_submit_check (e : Event) : bool :=
  match action_of e with
  | IsVisible (Locate selector) => String.eqb selector submit_selector
  | _ => false
  end.

Definition submit_checks (evs : list Event) : list Event := List.filter is_submit_check evs.

(** Either the submit button was never found visible, or the run returned
    [Success]. *)
Definition seen_gives_success (evs : list Event) (r : Exn + option string) : Prop :=
  Forall (fun e => submit_seen e = false) evs \/ r = inr (Some "Success").

(** The last of the events [evs] is a call that raised [e]. *)
Definition fault_last (evs : list Event) (e : Exn) : Prop :=
  exists a evs0, evs = evs0 ++ [Ev a (inl e)].

(** A run ends with a value that satisfies [R], or with the fault of its
    last call. *)
Definition post {A} (R : A -> Prop) (evs : list Event) (r : Exn + A) : Prop :=
  match r with
  | inl e => fault_last evs e
  | inr v => R v
  end.

(** A string that names one of the outcomes decided inside the [try]. *)
Definition decided (str : string) : Prop :=
  exists o, str = outcome_string o /\ forall detail, o <> FailedException detail.

(** What a statement may yield, and what the whole body may yield. *)
Definition stmt_result (o : option string) : Prop :=
  match o with Some str => decided str | None => True end.

Definition body_result (o : option string) : Prop :=
  match o with Some str => decided str | None => False end.

Section Bot.

Context {World : Type}.

(** [ext m P]: a run of [m] only appends to the trace, and the appended
    events [evs] and the result satisfy [P]. *)
Definition ext {A} (m : PyM (BotState World) A) (P : list Event -> Exn + A -> Prop) : Prop :=
  forall s, exists evs, trace (m s).2 = trace s ++ evs /\ P evs (m s).1.

(** Safety: every event of a run satisfies [φ]. *)
Definition emits {A} (φ : Event -> Prop) (m : PyM (BotState World) A) : Prop :=
  ext m (fun evs _ => Forall φ evs).

End Bot.

End ApplicatorSpec.

(** ** Scenarios for the Matcher *)

Module MatcherScenario.

Import Py Num Matcher.

(** The mapping [{"a.pdf": ..., "b.pdf": ...}], held at location 1. *)
Definition resumes_ab : PyDict :=
  [("a.pdf", VDict [("text", VStr "Frontend developer with React and TypeScript");
                    ("filename", VStr "a.pdf")]);
   ("b.pdf", VDict [("text", VStr "Backend engineer with Python and PostgreSQL");
                    ("filename", VStr "b.pdf")])].

Definition store_ab : Store := {[ 1%positive := resumes_ab ]}.

(** A model whose call faults, and one that answers with a fenced object. *)
Definition model_fault (prompt : string) : Exn + string :=
  inl (mkExn OtherException "503 model unavailable").

Definition model_answer (prompt : string) : Exn + string :=
  inr "```json {selected_resume: b.pdf, confidence: 85, match_score: 85} ```".

(** [json.loads] on that answer, and on text that is not JSON. *)
Definition json_answer (text : string) : Exn + PyVal :=
  inr (VDict [("selected_resume", VStr "b.pdf");
              ("confidence", VInt 85);
              ("reasoning", VStr "Python and PostgreSQL are asked for");
              ("match_score", VInt 85);
              ("key_matches", VList [VStr "Python"; VStr "PostgreSQL"])]).

Definition json_fault (text : string) : Exn + PyVal :=
  inl (mkExn JSONDecodeError "Expecting value: line 1 column 1 (char 0)").

Definition no_float (s : string) : option float := None.
Definition no_int (s : string) : option Z := None.

(** Results handed to the gate. *)
Definition result_low : PyDict :=
  [("selected_resume", VStr "a.pdf"); ("confidence", VFloat 0.5);
   ("reasoning", VStr "weak match"); ("match_score", VInt 80)].

Definition result_no_keys : PyDict :=
  [("selected_resume", VStr "a.pdf"); ("reasoning", VStr "no numbers")].

End MatcherScenario.

(** ** Scenarios for the Applicator *)

Module ApplicatorScenario.

Import Py Applicator.

(** A page that does not change: [visible] tells which locators show an
    element, [faulty] which calls raise. *)
Definition page_answer (visible : Locator -> bool) (a : Action) : ret_type a :=
  match a return ret_type a with
  | ContextPages => true
  | Count l => if visible (First l) then 1 else 0
  | IsVisible l => visible l
  | GetAttribute _ _ => None
  | InnerText _ => EmptyString
  | TextContent _ => Some EmptyString
  | _ => tt
  end.

Definition static_page (visible : Locator -> bool) (faulty : Action -> option Exn)
  (a : Action) (w : unit) : (Exn + ret_type a) * unit :=
  match faulty a with
  | Some e => (inl e, w)
  | None => (inr (page_answer visible a), w)
  end.

Definition no_fault (a : Action) : option Exn := None.

(** The first apply button and the Next button show; Submit does not. *)
Definition next_page (l : Locator) : bool :=
  match l with
  | First (Locate selector) => String.eqb selector "button.jobs-apply-button"
  | Locate selector => String.eqb selector next_selector
  | _ => false
  end.

(** The first apply button and the Submit button show. *)
Definition submit_page (l : Locator) : bool :=
  match l with
  | First (Locate selector) => String.eqb selector "button.jobs-apply-button"
  | Locate selector => String.eqb selector submit_selector
  | _ => false
  end.

(** Counting the text inputs raises. *)
Definition scan_fault (a : Action) : option Exn :=
  match a with
  | Count (Locate selector) =>
      if String.eqb selector "input[type='text'], input[type='email'], input[type='tel']"
      then Some (mkExn PlaywrightError "Target page, context or browser has been closed")
      else None
  | _ => None
  end.

(** The browser cannot be launched. *)
Definition launch_fault (a : Action) : option Exn :=
  match a with
  | LaunchPersistentContext => Some (mkExn PlaywrightError "Chromium distribution 'chrome' is not found")
  | _ => None
  end.

Definition started : BotState unit := mkBot tt [] true.
Definition not_started : BotState unit := mkBot tt [] false.

Definition job_url : string := "https://www.linkedin.com/jobs/view/1".
Definition resume : string := "data/resumes/a.pdf".

(** A form of two pages, the state being the number of the page shown: the
    first page has a Next button, the second one the Submit button. *)
Definition two_pages (w : nat) (l : Locator) : bool :=
  match l with
  | First (Locate selector) => String.eqb selector "button.jobs-apply-button"
  | Locate selector =>
      if String.eqb selector next_selector then Nat.eqb w 0
      else if String.eqb selector submit_selector then Nat.leb 1 w
      else false
  | _ => false
  end.

Definition two_page_form (a : Action) (w : nat) : (Exn + ret_type a) * nat :=
  (inr (page_answer (two_pages w) a),
   match a with
   | HumanClick selector => if String.eqb selector next_selector then S w else w
   | _ => w
   end).

End ApplicatorScenario.

(** ** Predicates on text *)

Module TextSpec.

(** No character of [s] is [c]. *)
Fixpoint free_of (c : ascii) (s : string) : bool :=
  match s with
  | EmptyString => true
  | String x s' => negb (Ascii.eqb x c) && free_of c s'
  end.

End TextSpec.

(** ** Predicates on the trace of the Applicator *)

Module OutcomeSpec.

Import Py Applicator ApplicatorSpec.

(** Events that ended well. *)
Definition seen (selector : string) (visible : bool) : Event :=
  Ev (IsVisible (Locate selector)) (inr visible).
Definition clicked (selector : string) : Event := Ev (HumanClick selector) (inr tt).
Definition slept (lo hi : float) : Event := Ev (HumanSleep lo hi) (inr tt).

(** The events [evs] end with the events [tail]. *)
Definition ends_with (tail evs : list Event) : Prop := exists evs0, evs = evs0 ++ tail.

(** The ways in which the body of the form loop returns: the events from
    the check of the submit button on, and the outcome. *)
Inductive form_outcome (DRY_RUN : bool) : list Event -> Outcome -> Prop :=
| submit_skipped :
    DRY_RUN = true ->
    form_outcome DRY_RUN [seen submit_selector true] Success
| submit_done :
    DRY_RUN = false ->
    form_outcome DRY_RUN
      [seen submit_selector true; clicked submit_selector; slept 3 5] Success
| submit_click_failed e :
    DRY_RUN = false ->
    form_outcome DRY_RUN
      [seen submit_selector true; Ev (HumanClick submit_selector) (inl e)]
      (FailedSubmit (exn_msg e))
| submit_wait_failed e :
    DRY_RUN = false ->
    form_outcome DRY_RUN
      [seen submit_selector true; clicked submit_selector; Ev (HumanSleep 3 5) (inl e)]
      (FailedSubmit (exn_msg e))
| form_error :
    form_outcome DRY_RUN
      [seen submit_selector false; seen next_selector false; seen review_selector false;
       seen error_selector true] FailedFormError
| form_stuck :
    form_outcome DRY_RUN
      [seen submit_selector false; seen next_selector false; seen review_selector false;
       seen error_selector false] FailedStuck
| next_clicked :
    form_outcome DRY_RUN
      [seen submit_selector false; seen next_selector true; clicked next_selector;
       slept 2 3] FailedTooManySteps
| review_clicked :
    form_outcome DRY_RUN
      [seen submit_selector false; seen next_selector false; seen review_selector true;
       clicked review_selector; slept 2 3] FailedTooManySteps.

(** How a run of the body of the form loop ends: with the fault of its
    last call, or with the string of an outcome of the form. *)
Definition step_ends (DRY_RUN : bool) (evs : list Event) (r : Exn + option string) : Prop :=
  match r with
  | inl e => fault_last evs e
  | inr None => False
  | inr (Some str) =>
      exists tail o,
        ends_with tail evs /\ form_outcome DRY_RUN tail o /\ str = outcome_string o
  end.

(** An event that changed nothing on the page: no fill, no upload, no
    click that went through. *)
Definition no_effect (e : Event) : bool :=
  match action_of e, fault_of e with
  | HumanClick _, None => false
  | Fill _ _, _ | Click _, _ | SetInputFiles _ _, _ => false
  | _, _ => true
  end.

(** What the events of a run that returned the outcome [o] look like. *)
Definition run_outcome (DRY_RUN : bool) (evs : list Event) (o : Outcome) : Prop :=
  match o with
  | Skipped => Forall (fun e => no_effect e = true) evs
  | FailedException detail => exists e, fault_last evs e /\ exn_msg e = detail
  | _ => exists tail, ends_with tail evs /\ form_outcome DRY_RUN tail o
  end.

(** How the guarded body of [apply_to_job] ends. *)
Definition body_ends (DRY_RUN : bool) (evs : list Event) (r : Exn + option string) : Prop :=
  match r with
  | inl e => fault_last evs e
  | inr None => False
  | inr (Some str) =>
      exists o, str = outcome_string o /\ run_outcome DRY_RUN evs o /\
                forall detail, o <> FailedException detail
  end.

(** The calls on the buttons of the form: the checks of Submit, Next and
    Review and of the error message, and the clicks on the three buttons. *)
Definition is_form_call (a : Action) : bool :=
  match a with
  | IsVisible (Locate selector) =>
      existsb (String.eqb selector)
        [submit_selector; next_selector; review_selector; error_selector]
  | HumanClick selector =>
      existsb (String.eqb selector) [submit_selector; next_selector; review_selector]
  | _ => false
  end.

(** The calls that sit inside a guard that swallows their fault: the calls
    of [_fill_smart_fields] (with [_get_label]) and of [_handle_upload],
    and the probe and the click of an apply candidate. *)
Definition absorbed (a : Action) : bool :=
  match a with
  | Count _ | GetAttribute _ _ | InnerText _ | TextContent _
  | Fill _ _ | Click _ | SetInputFiles _ _ => true
  | IsVisible (Locate selector) => String.eqb selector "input[type='file']"
  | IsVisible _ => true
  | HumanClick selector => existsb (String.eqb selector) apply_locators
  | HumanSleep lo hi => ((lo =? 0.5) && (hi =? 1) || (lo =? 2) && (hi =? 4))%float
  | _ => false
  end.

Definition is_submit_click (a : Action) : bool :=
  match a with
  | HumanClick selector => String.eqb selector submit_selector
  | _ => false
  end.

(** The call of the event raised. *)
Definition faulted (e : Event) : bool :=
  match fault_of e with Some _ => true | None => false end.

(** An event from before the buttons of the form are examined, after which
    the run went on: if its call raised, a guard swallowed the fault. *)
Definition early (e : Event) : bool :=
  negb (is_form_call (action_of e)) && (negb (faulted e) || absorbed (action_of e)).

(** The last call, if any, did not raise. *)
Definition calm (evs : list Event) : bool :=
  match last evs with
  | Some e => negb (faulted e)
  | None => true
  end.

(** The run ended in the guard of the submit click: that click raised [e],
    or the wait after it did. *)
Definition submit_faulted (evs : list Event) (e : Exn) : Prop :=
  ends_with [Ev (HumanClick submit_selector) (inl e)] evs \/
  ends_with [clicked submit_selector; Ev (HumanSleep 3 5) (inl e)] evs.

(** The events [tail] end with a call outside every inner guard that
    raised [e], after calls that went through. *)
Definition escapes (tail : list Event) (e : Exn) : Prop :=
  exists checks a,
    tail = checks ++ [Ev a (inl e)] /\
    Forall (fun ev => faulted ev = false /\ is_submit_click (action_of ev) = false) checks /\
    absorbed a = false /\ is_submit_click a = false.

(** How a form step ends, with the events before the buttons set apart. *)
Definition step_shape (DRY_RUN : bool) (evs : list Event) (r : Exn + option string) : Prop :=
  match r with
  | inl e =>
      exists evs0 tail,
        evs = evs0 ++ tail /\ Forall (fun ev => early ev = true) evs0 /\ escapes tail e
  | inr None => False
  | inr (Some str) =>
      exists evs0 tail o,
        evs = evs0 ++ tail /\ Forall (fun ev => early ev = true) evs0 /\
        form_outcome DRY_RUN tail o /\ str = outcome_string o
  end.

(** The events of a run that returned the outcome [o]: early events, then
    the events that decided. *)
Definition run_shape (DRY_RUN : bool) (evs : list Event) (o : Outcome) : Prop :=
  match o with
  | Skipped => Forall (fun ev => early ev = true) evs /\ calm evs = true
  | FailedException detail =>
      exists e evs0 tail,
        evs = evs0 ++ tail /\ Forall (fun ev => early ev = true) evs0 /\
        escapes tail e /\ exn_msg e = detail
  | _ =>
      exists evs0 tail,
        evs = evs0 ++ tail /\ Forall (fun ev => early ev = true) evs0 /\
        form_outcome DRY_RUN tail o
  end.

(** How the guarded body of [apply_to_job] ends, in the same terms. *)
Definition body_shape (DRY_RUN : bool) (evs : list Event) (r : Exn + option string) : Prop :=
  match r with
  | inl e =>
      exists evs0 tail,
        evs = evs0 ++ tail /\ Forall (fun ev => early ev = true) evs0 /\ escapes tail e
  | inr None => False
  | inr (Some str) =>
      exists o, str = outcome_string o /\ run_shape DRY_RUN evs o /\
                forall detail, o <> FailedException detail
  end.

(** The calls that launch the browser. *)
Definition launches (a : Action) : bool :=
  match a with
  | PlaywrightStart | LaunchPersistentContext | ContextPages | NewPage | AddInitScript => true
  | _ => false
  end.

Definition text_inputs : Locator :=
  Locate "input[type='text'], input[type='email'], input[type='tel']".
Definition file_input : Locator := Locate "input[type='file']".

(** What a run of [apply_to_job url rp] may do to the page. *)
Definition permitted (url rp : string) (e : Event) : Prop :=
  match action_of e with
  | Goto u timeout => u = url /\ timeout = 60000
  | HumanClick selector =>
      In selector (apply_locators ++ [submit_selector; next_selector; review_selector])
  | SetInputFiles l path => l = file_input /\ path = rp
  | Fill l value => exists i key, l = Nth text_inputs i /\ In (key, value) PROFILE
  | Click l =>
      exists i question answer,
        In (question, answer) ANSWERS /\
        l = Within (Nth (Locate "fieldset") i) ("label:has-text('" +:+ answer +:+ "')")
  | _ => True
  end.

(** An event that is neither a fill nor a click on an option. *)
Definition is_scan (e : Event) : bool :=
  match action_of e with
  | Fill _ _ | Click _ => false
  | _ => true
  end.

(** The guards of the field scan, in the order of the calls.  Every fill
    comes after the two reads of that field, the check that found it
    visible and then the read of an empty [value], with neither a fill nor
    a click between them and the fill; every click on
    an option comes directly after the check that found that option
    visible. *)
Definition guarded (evs : list Event) : Prop :=
  (forall pre l value r post, evs = pre ++ Ev (Fill l value) r :: post ->
     exists before old between,
       pre = before ++ Ev (IsVisible l) (inr true)
                    :: Ev (GetAttribute l "value") (inr old) :: between /\
       truthy old = false /\ Forall (fun e => is_scan e = true) between) /\
  (forall pre l r post, evs = pre ++ Ev (Click l) r :: post ->
     exists before, pre = before ++ [Ev (IsVisible l) (inr true)]).

End OutcomeSpec.

(** ** Further scenarios *)

Module MoreScenario.

Import Py Num Matcher Applicator MatcherScenario ApplicatorScenario.

(** Answers of [json.loads]: the résumé named in capitals with a score out
    of range, an object without [match_score], an unknown résumé, and an
    array. *)
Definition json_capitals (text : string) : Exn + PyVal :=
  inr (VDict [("selected_resume", VStr "B.PDF");
              ("confidence", VFloat 0.9);
              ("reasoning", VStr "Python and PostgreSQL are asked for");
              ("match_score", VInt 120)]).

Definition json_high_score (text : string) : Exn + PyVal :=
  inr (VDict [("selected_resume", VStr "b.pdf");
              ("confidence", VFloat 0.9);
              ("reasoning", VStr "Python and PostgreSQL are asked for");
              ("match_score", VInt 120)]).

Definition json_no_score (text : string) : Exn + PyVal :=
  inr (VDict [("selected_resume", VStr "b.pdf");
              ("confidence", VFloat 0.9);
              ("reasoning", VStr "Python and PostgreSQL are asked for")]).

Definition json_unknown (text : string) : Exn + PyVal :=
  inr (VDict [("selected_resume", VStr "c.pdf");
              ("confidence", VFloat 0.9);
              ("reasoning", VStr "the best one");
              ("match_score", VInt 90)]).

(** The objects that [json_answer] and [json_high_score] decode to. *)
Definition answer_object : PyDict :=
  match json_answer EmptyString with inr (VDict d) => d | _ => [] end.

Definition high_score_object : PyDict :=
  match json_high_score EmptyString with inr (VDict d) => d | _ => [] end.

Definition json_array (text : string) : Exn + PyVal := inr (VList [VStr "b.pdf"]).

(** A mapping whose only record has no [text]. *)
Definition store_no_text : Store :=
  {[ 1%positive := [("a.pdf", VDict [("filename", VStr "a.pdf")])] ]}.

(** A job description of 3000 characters. *)
Definition long_description : string :=
  Nat.iter 150 (fun s => "Python and SQL, " +:+ "remote. " +:+ s)%string EmptyString.

(** Only the first apply button shows. *)
Definition apply_only_page (l : Locator) : bool :=
  match l with
  | First (Locate selector) => String.eqb selector "button.jobs-apply-button"
  | _ => false
  end.

(** Nothing shows. *)
Definition blank_page (l : Locator) : bool := false.

(** The click on the submit button times out. *)
Definition submit_fault (a : Action) : option Exn :=
  match a with
  | HumanClick selector =>
      if String.eqb selector submit_selector
      then Some (mkExn PlaywrightError "Timeout 30000ms exceeded")
      else None
  | _ => None
  end.

End MoreScenario.

(** * Properties *)

(** ** Weakest preconditions for [PyM] *)

Section WP.

Context {S : Type}.

Lemma wp_ret {A} (a : A) Q (s : S) : Q (inr a) s -> wp (ret a) Q s.
Proof. done. Qed.

Lemma wp_raise {A} e (Q : Exn + A -> S -> Prop) (s : S) : Q (inl e) s -> wp (raise e) Q s.
Proof. done. Qed.

Lemma wp_lift {A} (r : Exn + A) Q (s : S) : Q r s -> wp (lift r) Q s.
Proof. done. Qed.

Lemma wp_bind {A B} (m : PyM S A) (f : A -> PyM S B) Q s :
  wp m (fun r s' => match r with
                    | inr a => wp (f a) Q s'
                    | inl e => Q (inl e) s'
                    end) s ->
  wp (bind m f) Q s.
Proof. unfold wp, bind. by destruct (m s) as [[e|a] s']. Qed.

Lemma wp_try {A} (m : PyM S A) h Q s :
  wp m (fun r s' => match r with
                    | inr a => Q (inr a) s'
                    | inl e => wp (h e) Q s'
                    end) s ->
  wp (try_except m h) Q s.
Proof. unfold wp, try_except. by destruct (m s) as [[e|a] s']. Qed.

Lemma wp_mono {A} (m : PyM S A) (Q Q' : Exn + A -> S -> Prop) s :
  wp m Q s -> (forall r s', Q r s' -> Q' r s') -> wp m Q' s.
Proof. unfold wp. auto. Qed.

Lemma wp_seq_stmt {R} (s1 s2 : PyM S (option R)) Q s :
  wp s1 (fun r s' => match r with
                     | inr None => wp s2 Q s'
                     | other => Q other s'
                     end) s ->
  wp (seq_stmt s1 s2) Q s.
Proof.
  intros H. apply wp_bind. eapply wp_mono; [exact H|].
  intros [e|[v|]] s'; auto.
Qed.

(** Reading [wp] back as an equation. *)
Lemma wp_run {A} (m : PyM S A) Q s : wp m Q s -> forall r s', m s = (r, s') -> Q r s'.
Proof. unfold wp. intros H r s' E. by rewrite E in H. Qed.

Lemma wp_eq {A} (m : PyM S A) r s s' :
  wp m (fun r0 s0 => r0 = r /\ s0 = s') s -> m s = (r, s').
Proof. unfold wp. destruct (m s). cbn. by intros [-> ->]. Qed.

(** A loop whose body leaves an invariant of the state alone keeps it,
    whatever it returns. *)
Lemma wp_for_each_inv {X R} (I : S -> Prop) (l : list X) (body : X -> PyM S (option R)) s :
  (forall x s0, I s0 -> wp (body x) (fun _ s' => I s') s0) ->
  I s -> wp (for_each l body) (fun _ s' => I s') s.
Proof.
  intros Hb. revert s. induction l as [|x l IH]; intros s Hs; [done|].
  cbn [for_each]. apply wp_seq_stmt.
  eapply wp_mono; [by apply Hb|].
  intros [e|[v|]] s' Hs'; auto.
Qed.

Lemma wp_for_do_inv {X} (I : S -> Prop) (l : list X) (body : X -> PyM S unit) s :
  (forall x s0, I s0 -> wp (body x) (fun _ s' => I s') s0) ->
  I s -> wp (for_do l body) (fun _ s' => I s') s.
Proof.
  intros Hb. revert s. induction l as [|x l IH]; intros s Hs; [done|].
  cbn [for_do]. apply wp_bind.
  eapply wp_mono; [by apply Hb|].
  intros [e|[]] s' Hs'; auto.
Qed.

Lemma wp_for_break_inv {X} (I : S -> Prop) (l : list X) (body : X -> PyM S bool) s :
  (forall x s0, I s0 -> wp (body x) (fun _ s' => I s') s0) ->
  I s -> wp (for_break l body) (fun _ s' => I s') s.
Proof.
  intros Hb. revert s. induction l as [|x l IH]; intros s Hs; [done|].
  cbn [for_break]. apply wp_bind.
  eapply wp_mono; [by apply Hb|].
  intros [e|[]] s' Hs'; auto.
Qed.

End WP.

(** ** Facts about numbers *)

Section NumFacts.

Import Num.
#[local] Open Scope float_scope.

Lemma ltb_leb (a b : float) : (a <? b) = true -> (a <=? b) = true.
Proof.
  rewrite ltb_spec, leb_spec. unfold SFltb, SFleb.
  by destruct (SFcompare (Prim2SF a) (Prim2SF b)) as [[]|].
Qed.

(** [max(0.0, min(1.0, c))] lies in the unit interval for every float [c],
    the infinities and NaN included. *)
Lemma clamp_unit_interval (c : float) :
  let r := max_float 0 (min_float 1 c) in
  (0 <=? r) = true /\ (r <=? 1) = true.
Proof.
  unfold max_float, min_float.
  destruct (c <? 1) eqn:H1.
  - destruct (0 <? c) eqn:H0; cbn zeta.
    + split; by apply ltb_leb.
    + by split.
  - by split.
Qed.

Lemma clamp_score_range (z : Z) : (0 <= Matcher.clamp_score z <= 100)%Z.
Proof. unfold Matcher.clamp_score. lia. Qed.

End NumFacts.

(** ** Facts about dicts and the store *)
Section DictFacts.

Lemma dict_get_set_eq k v d : dict_get k (dict_set k v d) = Some v.
Proof.
  induction d as [|[k' v'] d IH]; cbn.
  - by rewrite String.eqb_refl.
  - destruct (String.eqb k k') eqn:E; cbn; rewrite ?String.eqb_refl, ?E; done.
Qed.

Lemma dict_get_set_ne k k' v d : k <> k' -> dict_get k' (dict_set k v d) = dict_get k' d.
Proof.
  intros Hne. induction d as [|[k0 v0] d IH]; cbn.
  - destruct (String.eqb k' k) eqn:E; [|done].
    apply String.eqb_eq in E. congruence.
  - destruct (String.eqb k k0) eqn:E; cbn.
    + apply String.eqb_eq in E. subst k0.
      destruct (String.eqb k' k) eqn:E'; [|done].
      apply String.eqb_eq in E'. congruence.
    + by rewrite IH.
Qed.

Lemma dict_has_keys k d : dict_has k d = true -> In k (dict_keys d).
Proof.
  unfold dict_has. induction d as [|[k' v'] d IH]; cbn; [done|].
  destruct (String.eqb k k') eqn:E.
  - apply String.eqb_eq in E. auto.
  - auto.
Qed.

End DictFacts.

Section StoreFacts.

Lemma wp_load l d (Q : Exn + PyDict -> Store -> Prop) (σ : Store) :
  σ !! l = Some d -> Q (inr d) σ -> wp (load l) Q σ.
Proof. intros H HQ. unfold wp, load. by rewrite H. Qed.

Lemma wp_alloc d (Q : Exn + loc -> Store -> Prop) (σ : Store) :
  (forall l, σ !! l = None -> Q (inr l) (<[l := d]> σ)) -> wp (alloc d) Q σ.
Proof.
  intros HQ. unfold wp, alloc. cbn. apply HQ.
  apply not_elem_of_dom, is_fresh.
Qed.

Lemma wp_setitem l k v d (Q : Exn + unit -> Store -> Prop) (σ : Store) :
  σ !! l = Some d -> Q (inr tt) (<[l := dict_set k v d]> σ) -> wp (setitem l k v) Q σ.
Proof. intros H HQ. unfold wp, setitem. by rewrite H. Qed.

Lemma wp_getitem l k d (Q : Exn + PyVal -> Store -> Prop) (σ : Store) :
  σ !! l = Some d ->
  match dict_get k d with
  | Some v => Q (inr v) σ
  | None => Q (inl (mkExn KeyError k)) σ
  end ->
  wp (getitem l k) Q σ.
Proof.
  intros H HQ. unfold getitem. apply wp_bind. eapply wp_load; [done|].
  by destruct (dict_get k d).
Qed.

End StoreFacts.

(** ** The Matcher *)

Module MatcherFacts.

Import Py Num Matcher MatcherSpec.

Section Engine.

Variable generate_content : string -> Exn + string.
Variable json_loads : string -> Exn + PyVal.
Variable float_of_str : string -> option float.
Variable int_of_str : string -> option Z.

#[local] Abbreviation fell_back :=
  (MatcherSpec.fell_back generate_content json_loads float_of_str int_of_str).

Lemma valid_fallback k items : In k (dict_keys items) -> valid_result items (fallback_result k).
Proof.
  intros Hk. exists k, 0.5%float, 50. repeat split; try done; lia.
Qed.

Lemma wp_fallback (σ0 σ : Store) resumes k v items :
  σ0 ⊆ σ -> σ0 !! resumes = Some ((k, v) :: items) ->
  wp (_fallback_selection resumes)
     (returns_new σ0 (fun res => res = fallback_result k)) σ.
Proof.
  intros Hsub Hres. unfold _fallback_selection.
  apply wp_bind. eapply wp_load; [by eapply lookup_weaken|].
  apply wp_bind. cbn. apply wp_bind. apply wp_alloc. intros l Hl.
  assert (σ0 !! l = None) by (by eapply lookup_weaken_None).
  apply wp_ret. exists l, (fallback_result k). repeat split; [done| |].
  - by rewrite lookup_insert_eq.
  - by apply insert_subseteq_r.
Qed.


Lemma has_field_state result field (τ : Store) : (has_field result field τ).2 = τ.
Proof.
  destruct result as [l|v]; cbn.
  - unfold bind, load. by destruct (τ !! l).
  - by destruct v.
Qed.

Lemma wp_required_fields result (τ : Store) :
  wp (for_each required_fields (fun field =>
        let* present := has_field result field in
        if present then ret None
        else raise (mkExn ValueError ("Missing required field: " +:+ field))))
     (fun (_ : Exn + option unit) τ' => τ' = τ) τ.
Proof.
  apply (wp_for_each_inv (fun τ' => τ' = τ)); [|done].
  intros field τ0 ->. apply wp_bind. unfold wp at 1.
  rewrite has_field_state. by destruct (has_field result field τ).1 as [e|[]].
Qed.

(** The last two steps of the body: confidence and match score. *)
Lemma wp_parse_scores (σ : Store) items l d k :
  σ !! l = None ->
  dict_get "selected_resume" d = Some (VStr k) -> In k (dict_keys items) ->
  wp (let* c := subscript (ODict l) "confidence" in
      let* confidence := lift (py_float float_of_str c) in
      assign (ODict l) "confidence" (VFloat (normalize_confidence confidence));;
      let* m := subscript (ODict l) "match_score" in
      let* score := lift (py_int int_of_str m) in
      assign (ODict l) "match_score" (VInt (clamp_score score));;
      ret (ODict l))
     (parsed σ items) (<[l := d]> σ).
Proof.
  intros Hl Hsel Hk.
  assert (Hsub : forall d', σ ⊆ <[l := d']> σ) by (intros; by apply insert_subseteq).
  apply wp_bind. eapply wp_getitem; [apply lookup_insert_eq|].
  destruct (dict_get "confidence" d) as [c|]; [|by split].
  apply wp_bind, wp_lift. destruct (py_float float_of_str c) as [e|f]; [by split|].
  apply wp_bind. eapply wp_setitem; [apply lookup_insert_eq|]. rewrite insert_insert_eq.
  apply wp_bind. eapply wp_getitem; [apply lookup_insert_eq|].
  rewrite dict_get_set_ne by done.
  destruct (dict_get "match_score" d) as [m|]; [|by split].
  apply wp_bind, wp_lift. destruct (py_int int_of_str m) as [e|z]; [by split|].
  apply wp_bind. eapply wp_setitem; [apply lookup_insert_eq|]. rewrite insert_insert_eq.
  apply wp_ret. split; [done|].
  eexists l, _. split; [done|]. split; [done|]. split; [apply lookup_insert_eq|].
  exists k, (normalize_confidence f), (clamp_score z).
  rewrite dict_get_set_eq, !dict_get_set_ne, dict_get_set_eq by done.
  pose proof (clamp_unit_interval (if (1 <? f)%float then (f / 100)%float else f)) as [H0 H1].
  pose proof (clamp_score_range z).
  unfold normalize_confidence. repeat split; solve [done | lia].
Qed.

Lemma wp_parse_body (σ : Store) text resumes items :
  σ !! resumes = Some items ->
  wp (parse_body json_loads float_of_str int_of_str text resumes) (parsed σ items) σ.
Proof.
  intros Hres. unfold parse_body.
  apply wp_bind, wp_lift. destruct (strip_fence text) as [e|text']; [by split|].
  apply wp_bind, wp_lift. destruct (json_loads _) as [e|v]; [by split|].
  apply wp_bind.
  assert (Hval : forall w, (forall d, w <> VDict d) ->
            forall k, wp (subscript (OVal w) k) (fun r τ => exists e, r = inl e /\ τ = σ) σ).
  { intros w Hw k. destruct w; try (by eexists); by destruct (Hw d). }
  destruct v as [| | | | | |d];
    try (apply wp_ret, wp_bind, wp_bind;
         eapply wp_mono; [apply wp_required_fields|];
         intros [e|r] τ ->; [by split|];
         apply wp_ret, wp_bind;
         eapply wp_mono; [by apply Hval|];
         intros ? ? (e & -> & ->); by split).
  apply wp_bind, wp_alloc. intros l Hl. apply wp_ret.
  assert (Hsub : forall d', σ ⊆ <[l := d']> σ) by (intros; by apply insert_subseteq).
  assert (Hne : l <> resumes) by congruence.
  apply wp_bind, wp_bind.
  eapply wp_mono; [apply wp_required_fields|].
  intros [e|r] τ ->; [by split|]. apply wp_ret.
  apply wp_bind. eapply wp_getitem; [apply lookup_insert_eq|].
  destruct (dict_get "selected_resume" d) as [selected|] eqn:Hsel; [|by split].
  apply wp_bind. eapply wp_load; [by rewrite lookup_insert_ne|].
  apply wp_bind, wp_lift.
  destruct (key_in selected items) as [e|known] eqn:Hknown; [by split|].
  apply wp_bind. destruct known.
  - apply wp_ret. destruct selected; try done. cbn in Hknown.
    eapply wp_parse_scores; [done..|]. apply dict_has_keys. congruence.
  - apply wp_bind. eapply wp_getitem; [apply lookup_insert_eq|]. rewrite Hsel.
    apply wp_bind, wp_lift. destruct (py_lower selected) as [e|selected_lower]; [by split|].
    destruct (find _ _) as [filename|] eqn:Hfind; [|by apply wp_raise].
    eapply wp_setitem; [apply lookup_insert_eq|]. rewrite insert_insert_eq.
    eapply wp_parse_scores; [done|apply dict_get_set_eq|].
    apply find_some in Hfind. tauto.
Qed.

(** [_parse_llm_response] always returns a valid new dict, and it is the
    fallback dict as soon as the [try] body raised. *)
Lemma wp_parse_llm_response (σ : Store) text resumes k v items :
  σ !! resumes = Some ((k, v) :: items) ->
  wp (_parse_llm_response json_loads float_of_str int_of_str text resumes)
     (returns_new σ (fun res =>
        valid_result ((k, v) :: items) res /\
        (raised (parse_body json_loads float_of_str int_of_str text resumes σ).1 ->
         res = fallback_result k))) σ.
Proof.
  intros Hres. unfold _parse_llm_response. apply wp_try.
  pose proof (wp_parse_body σ text resumes _ Hres) as Hbody.
  unfold wp at 1. unfold wp in Hbody.
  destruct (parse_body _ _ _ text resumes σ) as [[e|o] σ1]; cbn in *.
  - destruct Hbody as [Hsub _].
    assert (Hfb : wp (_fallback_selection resumes)
              (returns_new σ (fun res => res = fallback_result k)) σ1)
      by (by eapply wp_fallback).
    assert (Hgoal : wp (_fallback_selection resumes)
              (returns_new σ (fun res =>
                 valid_result ((k, v) :: items) res /\ (True -> res = fallback_result k))) σ1).
    { eapply wp_mono; [exact Hfb|]. intros r σ' (l & res & -> & ? & ? & -> & ?).
      exists l, (fallback_result k). repeat split; try done.
      apply valid_fallback. by left. }
    by destruct (is_JSONDecodeError e).
  - destruct Hbody as [Hsub (l & res & -> & Hl & Hres' & Hvalid)].
    exists l, res. by repeat split.
Qed.

Lemma summaries_ok items acc :
  well_formed items = true -> exists s, summaries items acc = inr s.
Proof.
  revert acc. induction items as [|[filename data] items IH]; intros acc Hwf; cbn.
  - by eexists.
  - cbn in Hwf. apply andb_true_iff in Hwf as [Hd Hwf].
    destruct data as [| | | | | |d]; try done. cbn in *.
    destruct (dict_get "text" d) as [[]|]; try done. by apply IH.
Qed.

Lemma build_prompt_state jd resumes title (σ : Store) :
  (_build_matching_prompt jd resumes title σ).2 = σ.
Proof.
  unfold _build_matching_prompt, bind, load, lift, ret.
  destruct (σ !! resumes) as [items|]; [|done]. cbn.
  by destruct (summaries items []).
Qed.

Lemma build_prompt_ok jd resumes title (σ : Store) items :
  σ !! resumes = Some items -> well_formed items = true ->
  exists prompt, _build_matching_prompt jd resumes title σ = (inr prompt, σ).
Proof.
  intros Hres Hwf. unfold _build_matching_prompt, bind, load, lift, ret. rewrite Hres. cbn.
  destruct (summaries_ok items [] Hwf) as [s ->]. by eexists.
Qed.

Lemma wp_select_best_resume (σ : Store) jd resumes title k v items prompt :
  σ !! resumes = Some ((k, v) :: items) ->
  _build_matching_prompt jd resumes title σ = (inr prompt, σ) ->
  wp (select_best_resume generate_content json_loads float_of_str int_of_str jd resumes title)
     (returns_new σ (fun res =>
        valid_result ((k, v) :: items) res /\
        (fell_back prompt resumes σ -> res = fallback_result k))) σ.
Proof.
  intros Hres Hprompt. unfold select_best_resume.
  apply wp_bind. eapply wp_load; [done|].
  apply wp_bind. unfold wp at 1. rewrite Hprompt. cbn [fst snd].
  apply wp_try, wp_bind, wp_lift. unfold fell_back.
  destruct (generate_content prompt) as [e|text].
  - eapply wp_mono; [by eapply (wp_fallback σ σ)|].
    intros r σ' (l & res & -> & ? & ? & -> & ?).
    exists l, (fallback_result k). repeat split; try done.
    apply valid_fallback. by left.
  - apply wp_bind.
    eapply wp_mono; [by eapply wp_parse_llm_response|].
    intros r σ' (l & res & -> & Hl & Hres' & [Hvalid Hfb] & Hsub).
    destruct Hvalid as (k' & c & z & Hk & Hin & Hc & Hc0 & Hc1 & Hz & Hz').
    apply wp_bind. eapply wp_getitem; [done|]. rewrite Hk.
    apply wp_bind. eapply wp_getitem; [done|]. rewrite Hc.
    apply wp_bind, wp_lift. apply (wp_ret (ODict l)).
    exists l, res. repeat split; try done.
    by exists k', c, z.
Qed.

(** Every dict of the store is left as it was, whatever the inputs. *)
Lemma select_frame jd resumes title (σ : Store) :
  σ ⊆ (select_best_resume generate_content json_loads float_of_str int_of_str
         jd resumes title σ).2.
Proof.
  destruct (σ !! resumes) as [[|[k v] items]|] eqn:Hres.
  - unfold select_best_resume, bind, load. by rewrite Hres.
  - pose proof (build_prompt_state jd resumes title σ) as Hst.
    destruct (_build_matching_prompt jd resumes title σ) as [[e|prompt] σ1] eqn:Hb;
      cbn in Hst; subst σ1.
    + unfold select_best_resume, bind, load. rewrite Hres. cbn. by rewrite Hb.
    + pose proof (wp_select_best_resume σ jd resumes title k v items prompt Hres Hb) as H.
      unfold wp in H. by destruct H as (l & res & _ & _ & _ & _ & Hsub).
  - unfold select_best_resume, bind, load. by rewrite Hres.
Qed.

Lemma parse_frame text resumes (σ : Store) :
  is_Some (σ !! resumes) ->
  σ ⊆ (_parse_llm_response json_loads float_of_str int_of_str text resumes σ).2.
Proof.
  intros [[|[k v] items] Hres].
  - unfold _parse_llm_response. apply (wp_try _ _ (fun _ σ' => σ ⊆ σ')).
    eapply wp_mono; [by eapply wp_parse_body|].
    intros [e|o] σ1 [Hsub _]; [|done].
    assert (wp (_fallback_selection resumes) (fun _ σ' => σ ⊆ σ') σ1); [|by destruct (is_JSONDecodeError e)].
    unfold _fallback_selection. apply wp_bind.
    eapply wp_load; [by eapply lookup_weaken|]. by apply wp_bind, wp_lift.
  - pose proof (wp_parse_llm_response σ text resumes k v items Hres) as H.
    unfold wp in H. by destruct H as (l & res & _ & _ & _ & _ & Hsub).
Qed.

Lemma required_fields_present l d (fields : list string) (τ : Store) :
  τ !! l = Some d -> forallb (fun field => dict_has field d) fields = true ->
  for_each fields (fun field =>
      let* present := has_field (ODict l) field in
      if present then ret None
      else raise (mkExn ValueError ("Missing required field: " +:+ field))) τ
  = (inr (None : option unit), τ).
Proof.
  intros Hl. induction fields as [|field fields IH]; intros Hall; [done|].
  cbn in Hall. apply andb_true_iff in Hall as [Hf Hall].
  cbn [for_each]. unfold seq_stmt, bind at 1 2, has_field, bind, load.
  rewrite Hl. cbn. rewrite Hf. cbn. by apply IH.
Qed.

(** The path of a well-formed answer that names a known résumé: the parsed
    dict itself is returned, with the two numbers normalised in place. *)
Lemma parse_body_known (σ : Store) text resumes items t d k cv c mv z :
  σ !! resumes = Some items ->
  strip_fence text = inr t -> json_loads (strip t) = inr (VDict d) ->
  dict_get "selected_resume" d = Some (VStr k) -> dict_has k items = true ->
  dict_get "confidence" d = Some cv -> py_float float_of_str cv = inr c ->
  dict_has "reasoning" d = true ->
  dict_get "match_score" d = Some mv -> py_int int_of_str mv = inr z ->
  parse_body json_loads float_of_str int_of_str text resumes σ =
    (inr (ODict (fresh (dom σ))),
     <[fresh (dom σ) := dict_set "match_score" (VInt (clamp_score z))
                          (dict_set "confidence" (VFloat (normalize_confidence c)) d)]> σ).
Proof.
  intros Hres Ht Hjson Hsel Hk Hcv Hc Hr Hmv Hz.
  set (l := fresh (dom σ)).
  assert (Hl : σ !! l = None) by apply not_elem_of_dom, is_fresh.
  assert (Hne : l <> resumes) by congruence.
  apply wp_eq. unfold parse_body.
  apply wp_bind, wp_lift. rewrite Ht.
  apply wp_bind, wp_lift. rewrite Hjson.
  apply wp_bind, wp_bind. unfold wp at 1, alloc. cbn [fst snd].
  apply wp_ret. fold l.
  apply wp_bind, wp_bind. unfold wp at 1.
  rewrite (required_fields_present l d) by
    (first [apply lookup_insert_eq | unfold required_fields, dict_has; cbn [forallb];
            unfold dict_has in Hr; rewrite Hsel, Hcv, Hmv; by destruct (dict_get "reasoning" d)]).
  cbn [fst snd]. apply wp_ret.
  apply wp_bind. eapply wp_getitem; [apply lookup_insert_eq|]. rewrite Hsel.
  apply wp_bind. eapply wp_load; [by rewrite lookup_insert_ne|].
  apply wp_bind, wp_lift. cbn [key_in]. rewrite Hk.
  apply wp_bind, wp_ret.
  apply wp_bind. eapply wp_getitem; [apply lookup_insert_eq|]. rewrite Hcv.
  apply wp_bind, wp_lift. rewrite Hc.
  apply wp_bind. eapply wp_setitem; [apply lookup_insert_eq|]. rewrite insert_insert_eq.
  apply wp_bind. eapply wp_getitem; [apply lookup_insert_eq|].
  rewrite dict_get_set_ne by done. rewrite Hmv.
  apply wp_bind, wp_lift. rewrite Hz.
  apply wp_bind. eapply wp_setitem; [apply lookup_insert_eq|]. rewrite insert_insert_eq.
  by apply wp_ret.
Qed.

(** The failures of parsing and validation make the [try] body raise. *)
Lemma parse_body_bad_json (σ : Store) text resumes t e :
  strip_fence text = inr t -> json_loads (strip t) = inl e ->
  (parse_body json_loads float_of_str int_of_str text resumes σ).1 = inl e.
Proof.
  intros Ht Hjson. unfold parse_body, bind, lift. by rewrite Ht, Hjson.
Qed.

Lemma required_fields_missing l d (fields : list string) (τ : Store) :
  τ !! l = Some d -> forallb (fun field => dict_has field d) fields = false ->
  exists e,
    for_each fields (fun field =>
        let* present := has_field (ODict l) field in
        if present then ret None
        else raise (mkExn ValueError ("Missing required field: " +:+ field))) τ
    = (inl e : Exn + option unit, τ).
Proof.
  intros Hl. induction fields as [|field fields IH]; intros Hmiss; [done|].
  cbn in Hmiss. cbn [for_each]. unfold seq_stmt, bind at 1 2, has_field, bind, load.
  rewrite Hl. cbn. destruct (dict_has field d); cbn in *.
  - by apply IH.
  - by eexists.
Qed.

Lemma parse_body_missing_field (σ : Store) text resumes t d :
  strip_fence text = inr t -> json_loads (strip t) = inr (VDict d) ->
  forallb (fun field => dict_has field d) required_fields = false ->
  raised (parse_body json_loads float_of_str int_of_str text resumes σ).1.
Proof.
  intros Ht Hjson Hmiss.
  enough (wp (parse_body json_loads float_of_str int_of_str text resumes)
            (fun r _ => raised r) σ) by done.
  unfold parse_body.
  apply wp_bind, wp_lift. rewrite Ht.
  apply wp_bind, wp_lift. rewrite Hjson.
  apply wp_bind, wp_bind, wp_alloc. intros l Hl. apply wp_ret.
  apply wp_bind, wp_bind. unfold wp at 1.
  match goal with
  | |- context [for_each required_fields _ ?τ] =>
      destruct (required_fields_missing l d required_fields τ) as [e ->];
        [apply lookup_insert_eq|done|done]
  end.
Qed.

Lemma parse_body_invalid_resume (σ : Store) text resumes items t d name :
  σ !! resumes = Some items ->
  strip_fence text = inr t -> json_loads (strip t) = inr (VDict d) ->
  forallb (fun field => dict_has field d) required_fields = true ->
  dict_get "selected_resume" d = Some (VStr name) ->
  existsb (fun filename => String.eqb (lower filename) (lower name)) (dict_keys items) = false ->
  dict_has name items = false ->
  raised (parse_body json_loads float_of_str int_of_str text resumes σ).1.
Proof.
  intros Hres Ht Hjson Hall Hsel Hnone Hnot.
  enough (wp (parse_body json_loads float_of_str int_of_str text resumes)
            (fun r _ => raised r) σ) by done.
  unfold parse_body.
  apply wp_bind, wp_lift. rewrite Ht.
  apply wp_bind, wp_lift. rewrite Hjson.
  apply wp_bind, wp_bind, wp_alloc. intros l Hl. apply wp_ret.
  assert (Hne : l <> resumes) by congruence.
  apply wp_bind, wp_bind. unfold wp at 1.
  rewrite (required_fields_present l d) by (done || apply lookup_insert_eq).
  cbn [fst snd]. apply wp_ret.
  apply wp_bind. eapply wp_getitem; [apply lookup_insert_eq|]. rewrite Hsel.
  apply wp_bind. eapply wp_load; [by rewrite lookup_insert_ne|].
  apply wp_bind, wp_lift. cbn [key_in]. rewrite Hnot.
  apply wp_bind, wp_bind. eapply wp_getitem; [apply lookup_insert_eq|]. rewrite Hsel.
  apply wp_bind, wp_lift. cbn [py_lower].
  destruct (find _ _) as [filename|] eqn:Hfind; [|by apply wp_raise].
  apply find_some in Hfind as [Hin Heq].
  assert (existsb (fun filename => String.eqb (lower filename) (lower name)) (dict_keys items) = true)
    by (apply existsb_exists; eauto).
  congruence.
Qed.

(** C3. For a non-empty mapping of résumé records and whatever the model
    answers (a well-formed answer, a malformed one, or a fault of the
    call), [select_best_resume] returns a result dict whose
    [selected_resume] is a key of the mapping, whose [confidence] is a float
    in [0, 1] and whose [match_score] is an int in [0, 100]. *)
Theorem select_best_resume_valid (σ : Store) jd resumes title items :
  σ !! resumes = Some items -> items <> [] -> well_formed items = true ->
  exists l res σ',
    select_best_resume generate_content json_loads float_of_str int_of_str
      jd resumes title σ = (inr (ODict l), σ') /\
    σ' !! l = Some res /\
    exists k c z,
      dict_get "selected_resume" res = Some (VStr k) /\ In k (dict_keys items) /\
      dict_get "confidence" res = Some (VFloat c) /\
      (0 <=? c)%float = true /\ (c <=? 1)%float = true /\
      dict_get "match_score" res = Some (VInt z) /\ 0 <= z <= 100.
Proof.
  intros Hres Hne Hwf. destruct items as [|[k v] items]; [done|].
  destruct (build_prompt_ok jd resumes title σ _ Hres Hwf) as [prompt Hprompt].
  pose proof (wp_select_best_resume σ jd resumes title k v items prompt Hres Hprompt) as H.
  unfold wp, returns_new in H.
  destruct (select_best_resume _ _ _ _ jd resumes title σ) as [r σ']. cbn [fst snd] in H.
  destruct H as (l & res & -> & _ & Hl & [Hvalid _] & _).
  by exists l, res, σ'.
Qed.


(** C6. In [_parse_llm_response], on a well-formed answer that names a known
    résumé, a reported confidence above 1.0 is divided by 100 and the
    outcome is clamped to [0, 1]; a reported confidence of 85 is stored as
    0.85. *)
Theorem parse_confidence_percent (σ : Store) text resumes items t d k cv c mv z :
  σ !! resumes = Some items ->
  strip_fence text = inr t -> json_loads (strip t) = inr (VDict d) ->
  dict_get "selected_resume" d = Some (VStr k) -> dict_has k items = true ->
  dict_get "confidence" d = Some cv -> py_float float_of_str cv = inr c ->
  dict_has "reasoning" d = true ->
  dict_get "match_score" d = Some mv -> py_int int_of_str mv = inr z ->
  exists l res σ' c',
    _parse_llm_response json_loads float_of_str int_of_str text resumes σ
      = (inr (ODict l), σ') /\
    σ' !! l = Some res /\
    dict_get "confidence" res = Some (VFloat c') /\
    ((1 <? c)%float = true -> c' = max_float 0 (min_float 1 (c / 100))) /\
    ((1 <? c)%float = false -> c' = max_float 0 (min_float 1 c)) /\
    (0 <=? c')%float = true /\ (c' <=? 1)%float = true /\
    (cv = VInt 85 -> c' = 0.85%float).
Proof.
  intros Hres Ht Hjson Hsel Hk Hcv Hc Hr Hmv Hz.
  pose proof (parse_body_known σ text resumes items t d k cv c mv z
                Hres Ht Hjson Hsel Hk Hcv Hc Hr Hmv Hz) as Hbody.
  eexists _, _, _, (normalize_confidence c). split.
  { unfold _parse_llm_response, try_except. by rewrite Hbody. }
  split; [apply lookup_insert_eq|].
  split; [by rewrite dict_get_set_ne, dict_get_set_eq|].
  unfold normalize_confidence.
  pose proof (clamp_unit_interval (if (1 <? c)%float then (c / 100)%float else c)) as [H0 H1].
  repeat split; try done.
  - by intros ->.
  - by intros ->.
  - intros ->. cbn in Hc. injection Hc as <-. by vm_compute.
Qed.

(** C7. For a mapping of résumé records, [select_best_resume] raises to its
    caller exactly when the mapping is empty. *)
Theorem select_best_resume_raises_iff_empty (σ : Store) jd resumes title items :
  σ !! resumes = Some items -> well_formed items = true ->
  raised (select_best_resume generate_content json_loads float_of_str int_of_str
            jd resumes title σ).1 <-> items = [].
Proof.
  intros Hres Hwf. split.
  - destruct items as [|[k v] items]; [done|]. intros Hraised. exfalso.
    destruct (build_prompt_ok jd resumes title σ _ Hres Hwf) as [prompt Hprompt].
    pose proof (wp_select_best_resume σ jd resumes title k v items prompt Hres Hprompt) as H.
    unfold wp, returns_new in H.
    destruct (select_best_resume _ _ _ _ jd resumes title σ) as [r σ']. cbn [fst snd] in H.
    by destruct H as (l & res & -> & _).
  - intros ->. unfold select_best_resume, bind, load. by rewrite Hres.
Qed.

(** C9. A call of [select_best_resume], with the prompt building, the
    parsing and the fallback inside it, leaves every dict that existed
    before the call as it was; the résumé mapping in particular is the same
    object with the same entries. *)
Theorem select_best_resume_frame (σ : Store) jd resumes title :
  let σ' := (select_best_resume generate_content json_loads float_of_str int_of_str
               jd resumes title σ).2 in
  σ ⊆ σ' /\ σ' !! resumes = σ !! resumes.
Proof.
  cbn zeta. pose proof (select_frame jd resumes title σ) as Hsub.
  split; [done|].
  destruct (σ !! resumes) as [items|] eqn:Hres.
  - by eapply lookup_weaken.
  - unfold select_best_resume, bind, load. by rewrite Hres.
Qed.

End Engine.

(** *** The gate [should_apply] *)

Lemma prefix_lower a b : String.prefix a b = true -> String.prefix (lower a) (lower b) = true.
Proof.
  revert b. induction a as [|x a IH]; intros [|y b]; cbn; try done.
  destruct (ascii_dec x y) as [->|]; [|done].
  destruct (ascii_dec (lower_char y) (lower_char y)); [apply IH|done].
Qed.

(** A phrase that occurs in a text occurs, lower-cased, in the lower-cased
    text. *)
Lemma contains_lower a b : contains a b = true -> contains (lower a) (lower b) = true.
Proof.
  induction b as [|y b IH]; cbn [contains lower]; intros H.
  - apply orb_true_iff in H as [H|]; [|done].
    apply prefix_lower in H. cbn [lower] in H. by rewrite H.
  - apply orb_true_iff in H as [H|H].
    + apply prefix_lower in H. cbn [lower] in H. by rewrite H.
    + rewrite (IH H). apply orb_true_r.
Qed.

Lemma Z_lt_float_zero (m : float) : (0 <? m)%float = true -> Z_lt_float 0 m = true.
Proof.
  rewrite ltb_spec. unfold Z_lt_float, SFltb.
  change (Prim2SF 0) with (S754_zero false).
  destruct (Prim2SF m) as [s|s| |s mant e]; cbn; try done.
  - by destruct s.
  - destruct s; [done|]. intros _. destruct (0 <=? e)%Z eqn:He.
    + apply Z.ltb_lt, Z.mul_pos_pos; [lia|]. apply Z.pow_pos_nonneg; lia.
    + rewrite ?Z.mul_0_l. by apply Z.ltb_lt.
Qed.

Lemma should_apply_run (σ : Store) jd mr d c z minc mins :
  σ !! mr = Some d ->
  dict_get "confidence" d = Some (VFloat c) -> dict_get "match_score" d = Some (VInt z) ->
  should_apply jd mr minc mins σ = (inr (gate jd c z minc mins), σ).
Proof.
  intros Hmr Hc Hz. unfold should_apply, gate, bind, load, lift, ret.
  rewrite Hmr, Hc, Hz. cbn [from_option id lt_float lt_int format_percent].
  destruct (c <? minc)%float; [reflexivity|].
  destruct (z <? mins)%Z; [reflexivity|].
  unfold red_flags. cbn [for_each existsb]. unfold seq_stmt, bind, ret.
  by repeat (destruct (contains _ (lower jd)); cbn [orb]; try reflexivity).
Qed.

(** C5. [should_apply] decides from its inputs alone: it answers [False]
    when the confidence is below [min_confidence], else [False] when the
    score is below [min_match_score], else [False] when the lower-cased job
    description contains "commission only" or "pay to apply", else [True];
    the store is left alone.  With confidence 0.5 against a minimum of 0.6
    the answer is [False], and so it is for every job description that
    contains "commission only" in any letter case. *)
Theorem should_apply_gate (σ : Store) jd mr d c z minc mins :
  σ !! mr = Some d ->
  dict_get "confidence" d = Some (VFloat c) -> dict_get "match_score" d = Some (VInt z) ->
  should_apply jd mr minc mins σ =
    (inr (if (c <? minc)%float then false
          else if (z <? mins)%Z then false
          else if existsb (fun flag => contains flag (lower jd)) ["commission only"; "pay to apply"]
               then false
          else true), σ) /\
  (c = 0.5%float -> z = 80 -> minc = 0.6%float ->
   should_apply jd mr minc mins σ = (inr false, σ)) /\
  (forall phrase, lower phrase = "commission only" -> contains phrase jd = true ->
   should_apply jd mr minc mins σ = (inr false, σ)).
Proof.
  intros Hmr Hc Hz. rewrite (should_apply_run σ jd mr d c z minc mins Hmr Hc Hz).
  unfold gate, red_flags. split; [done|]. split.
  - by intros -> -> ->.
  - intros phrase Hp Hin. apply contains_lower in Hin. rewrite Hp in Hin.
    cbn [existsb]. rewrite Hin. cbn [orb].
    by destruct (c <? minc)%float, (z <? mins)%Z.
Qed.

(** C10. A result dict without the [confidence] key is read as confidence
    0: for every positive [min_confidence] the gate answers [False] and
    does not raise.  A result dict without the [match_score] key (its
    confidence being a float, or missing as well) is read as score 0: for
    every positive [min_match_score] the gate answers [False] and does not
    raise. *)
Theorem should_apply_missing_keys (σ : Store) jd mr d minc mins :
  σ !! mr = Some d ->
  (dict_get "confidence" d = None -> (0 <? minc)%float = true ->
   should_apply jd mr minc mins σ = (inr false, σ)) /\
  (dict_get "match_score" d = None -> 0 < mins ->
   match dict_get "confidence" d with
   | Some (VFloat _) | None => True
   | Some _ => False
   end ->
   should_apply jd mr minc mins σ = (inr false, σ)).
Proof.
  intros Hmr. split.
  - intros Hc Hmin. unfold should_apply, bind, load, lift, ret.
    rewrite Hmr, Hc. cbn [from_option id lt_float]. by rewrite (Z_lt_float_zero minc Hmin).
  - intros Hz Hmin Hc. unfold should_apply, bind, load, lift, ret.
    rewrite Hmr, Hz. cbn [from_option id].
    assert ((0 <? mins)%Z = true) as Hlt by lia.
    destruct (dict_get "confidence" d) as [[| | |c| | |]|]; try done; cbn [from_option id lt_float lt_int].
    + destruct (c <? minc)%float; [done|]. by rewrite Hlt.
    + destruct (Z_lt_float 0 minc); [done|]. by rewrite Hlt.
Qed.

End MatcherFacts.

(** ** The scenarios of the Matcher *)

Module MatcherExamples.

Import Py Num Matcher MatcherSpec MatcherFacts MatcherScenario.

(** The mapping of two résumés with a model that answers. *)
Lemma select_best_resume_valid_witness :
  exists l res σ',
    select_best_resume model_answer json_answer no_float no_int
      "Backend engineer, Python" 1%positive None store_ab = (inr (ODict l), σ') /\
    σ' !! l = Some res /\
    exists k c z,
      dict_get "selected_resume" res = Some (VStr k) /\ In k (dict_keys resumes_ab) /\
      dict_get "confidence" res = Some (VFloat c) /\
      (0 <=? c)%float = true /\ (c <=? 1)%float = true /\
      dict_get "match_score" res = Some (VInt z) /\ 0 <= z <= 100.
Proof.
  apply (select_best_resume_valid model_answer json_answer no_float no_int
           store_ab "Backend engineer, Python" 1%positive None resumes_ab);
    [reflexivity | discriminate | reflexivity].
Defined.


(** A fenced answer that reports a confidence of 85. *)
Lemma parse_confidence_percent_witness :
  exists l res σ' c',
    _parse_llm_response json_answer no_float no_int
      "```json {selected_resume: b.pdf, confidence: 85, match_score: 85} ```"
      1%positive store_ab = (inr (ODict l), σ') /\
    σ' !! l = Some res /\
    dict_get "confidence" res = Some (VFloat c') /\
    c' = 0.85%float.
Proof.
  destruct (parse_confidence_percent json_answer no_float no_int store_ab
              "```json {selected_resume: b.pdf, confidence: 85, match_score: 85} ```"
              1%positive resumes_ab
              " {selected_resume: b.pdf, confidence: 85, match_score: 85} "
              _ "b.pdf" (VInt 85) 85%float (VInt 85) 85
              eq_refl eq_refl eq_refl eq_refl eq_refl eq_refl eq_refl eq_refl eq_refl eq_refl)
    as (l & res & σ' & c' & Hrun & Hres & Hc & _ & _ & _ & _ & H85).
  exists l, res, σ', c'. repeat split; try assumption. by apply H85.
Defined.

(** With two résumés nothing is raised, though the model and the parser fault. *)
Lemma select_best_resume_raises_iff_empty_witness :
  raised (select_best_resume model_fault json_fault no_float no_int
            "Backend engineer, Python" 1%positive None store_ab).1 <-> resumes_ab = [].
Proof.
  apply (select_best_resume_raises_iff_empty model_fault json_fault no_float no_int
           store_ab "Backend engineer, Python" 1%positive None resumes_ab);
    reflexivity.
Defined.

(** Confidence 0.5 against 0.6, on a posting that says COMMISSION ONLY. *)
Lemma should_apply_gate_witness :
  should_apply "Sales role. COMMISSION ONLY, no base pay." 1%positive 0.6 60
    {[ 1%positive := result_low ]} = (inr false, {[ 1%positive := result_low ]}).
Proof.
  destruct (should_apply_gate {[ 1%positive := result_low ]}
              "Sales role. COMMISSION ONLY, no base pay." 1%positive result_low
              0.5 80 0.6 60) as (_ & H & _); [reflexivity..|].
  by apply H.
Defined.

(** A result dict with neither number. *)
Lemma should_apply_missing_keys_witness :
  should_apply "Backend engineer" 1%positive 0.6 60
    {[ 1%positive := result_no_keys ]} = (inr false, {[ 1%positive := result_no_keys ]}).
Proof.
  destruct (should_apply_missing_keys {[ 1%positive := result_no_keys ]}
              "Backend engineer" 1%positive result_no_keys 0.6 60) as [H _]; [reflexivity|].
  by apply H.
Defined.

(** Outside the input constraint: a record without [text] makes the prompt
    builder raise, and that happens before the [try]. *)
Lemma select_best_resume_missing_text_escapes :
  (select_best_resume model_answer json_answer no_float no_int
     "Backend engineer, Python" 1%positive None
     {[ 1%positive := [("a.pdf", VDict [("filename", VStr "a.pdf")])] ]}).1
  = inl (mkExn KeyError "text").
Proof. reflexivity. Qed.

End MatcherExamples.

(** ** The Applicator *)

Module ApplicatorFacts.

Import Py Applicator ApplicatorSpec.

Lemma append_char_inj a b c : a +:+ String c "" = b +:+ String c "" -> a = b.
Proof.
  revert b. induction a as [|x a IH]; intros [|y b] H; cbn in H.
  - done.
  - injection H as -> H. by destruct b.
  - injection H as -> H. by destruct a.
  - injection H as -> H. f_equal. by apply IH.
Qed.

(** The seven outcomes are told apart by the returned string. *)
Lemma outcome_string_inj o o' : outcome_string o = outcome_string o' -> o = o'.
Proof.
  destruct o, o'; cbn; intros H; try done; try (by injection H).
  all: try (injection H as H; f_equal; by apply append_char_inj in H).
  by simplify_eq/=.
Qed.

Section Bot.

Context {World : Type}.
Variable respond : forall a : Action, World -> (Exn + ret_type a) * World.

Lemma ext_mono {A} (m : PyM (BotState World) A) (P P' : list Event -> Exn + A -> Prop) :
  ext m P -> (forall evs r, P evs r -> P' evs r) -> ext m P'.
Proof. intros H HP s. destruct (H s) as (evs & ? & ?). eauto. Qed.

Lemma ext_ret {A} (a : A) (P : list Event -> Exn + A -> Prop) :
  P [] (inr a) -> ext (ret a : PyM (BotState World) A) P.
Proof. intros H s. exists []. by rewrite app_nil_r. Qed.

Lemma ext_raise {A} e (P : list Event -> Exn + A -> Prop) :
  P [] (inl e) -> ext (raise e : PyM (BotState World) A) P.
Proof. intros H s. exists []. by rewrite app_nil_r. Qed.

Lemma ext_perform a (P : list Event -> Exn + ret_type a -> Prop) :
  (forall r, P [Ev a r] r) -> ext (perform World respond a) P.
Proof.
  intros H s. unfold perform. destruct (respond a (world s)) as [r w]. by exists [Ev a r].
Qed.

Lemma ext_bind {A B} (m : PyM (BotState World) A) (f : A -> PyM (BotState World) B) Pm P :
  ext m Pm ->
  (forall evs e, Pm evs (inl e) -> P evs (inl e)) ->
  (forall evs a, Pm evs (inr a) -> ext (f a) (fun evs' r => P (evs ++ evs') r)) ->
  ext (bind m f) P.
Proof.
  intros Hm He Hf s. unfold bind.
  destruct (Hm s) as (evs & Ht & HP). destruct (m s) as [[e|a] s1]; cbn in *.
  - exists evs. auto.
  - destruct (Hf evs a HP s1) as (evs' & Ht' & HP').
    exists (evs ++ evs'). by rewrite Ht', Ht, app_assoc.
Qed.

Lemma ext_try {A} (m : PyM (BotState World) A) h Pm (P : list Event -> Exn + A -> Prop) :
  ext m Pm ->
  (forall evs a, Pm evs (inr a) -> P evs (inr a)) ->
  (forall evs e, Pm evs (inl e) -> ext (h e) (fun evs' r => P (evs ++ evs') r)) ->
  ext (try_except m h) P.
Proof.
  intros Hm Ha Hh s. unfold try_except.
  destruct (Hm s) as (evs & Ht & HP). destruct (m s) as [[e|a] s1]; cbn in *.
  - destruct (Hh evs e HP s1) as (evs' & Ht' & HP').
    exists (evs ++ evs'). by rewrite Ht', Ht, app_assoc.
  - exists evs. auto.
Qed.

(** *** Safety: every event of a run satisfies [φ] *)

Lemma emits_ret {A} φ (a : A) : emits φ (ret a : PyM (BotState World) A).
Proof. by apply ext_ret. Qed.

Lemma emits_raise {A} φ e : emits φ (raise e : PyM (BotState World) A).
Proof. by apply ext_raise. Qed.

Lemma emits_perform (φ : Event -> Prop) a : (forall r, φ (Ev a r)) -> emits φ (perform World respond a).
Proof. intros H. apply ext_perform. intros r. by repeat constructor. Qed.

Lemma emits_bind {A B} φ (m : PyM (BotState World) A) (f : A -> PyM (BotState World) B) :
  emits φ m -> (forall a, emits φ (f a)) -> emits φ (bind m f).
Proof.
  intros Hm Hf. eapply ext_bind; [exact Hm|done|].
  intros evs a Hevs. eapply ext_mono; [apply Hf|].
  intros evs' r Hevs'. by apply Forall_app.
Qed.

Lemma emits_try {A} φ (m : PyM (BotState World) A) h :
  emits φ m -> (forall e, emits φ (h e)) -> emits φ (try_except m h).
Proof.
  intros Hm Hh. eapply ext_try; [exact Hm|done|].
  intros evs e Hevs. eapply ext_mono; [apply Hh|].
  intros evs' r Hevs'. by apply Forall_app.
Qed.

Lemma emits_seq_stmt {R} φ (s1 s2 : PyM (BotState World) (option R)) :
  emits φ s1 -> emits φ s2 -> emits φ (seq_stmt s1 s2).
Proof.
  intros H1 H2. apply emits_bind; [done|]. intros [v|]; [apply emits_ret|done].
Qed.

Lemma emits_for_do {X} φ (l : list X) (body : X -> PyM (BotState World) unit) :
  Forall (fun x => emits φ (body x)) l -> emits φ (for_do l body).
Proof.
  induction 1; cbn [for_do]; [apply emits_ret|]. by apply emits_bind.
Qed.

Lemma emits_for_break {X} φ (l : list X) (body : X -> PyM (BotState World) bool) :
  Forall (fun x => emits φ (body x)) l -> emits φ (for_break l body).
Proof.
  induction 1; cbn [for_break]; [apply emits_ret|].
  apply emits_bind; [done|]. intros []; [apply emits_ret|done].
Qed.

Lemma emits_for_each {X R} φ (l : list X) (body : X -> PyM (BotState World) (option R)) :
  Forall (fun x => emits φ (body x)) l -> emits φ (for_each l body).
Proof.
  induction 1; cbn [for_each]; [apply emits_ret|]. by apply emits_seq_stmt.
Qed.

Lemma emits_mono {A} (φ φ' : Event -> Prop) (m : PyM (BotState World) A) :
  emits φ m -> (forall e, φ e -> φ' e) -> emits φ' m.
Proof.
  intros H Hφ. eapply ext_mono; [exact H|]. intros evs r Hevs.
  eapply Forall_impl; [exact Hevs|done].
Qed.

Lemma emits_get_page φ : emits φ (get_page World).
Proof. intros s. exists []. by rewrite app_nil_r. Qed.

Lemma emits_set_page φ : emits φ (set_page World).
Proof. intros s. exists []. cbn. by rewrite app_nil_r. Qed.

End Bot.

(** Decomposes a safety goal along the structure of the program. *)
Ltac emits_step :=
  match goal with
  | |- emits _ (ret _) => apply emits_ret
  | |- emits _ (raise _) => apply emits_raise
  | |- emits _ (get_page _) => apply emits_get_page
  | |- emits _ (set_page _) => apply emits_set_page
  | |- emits _ (bind _ _) => apply emits_bind; [|intros ?]
  | |- emits _ (try_except _ _) => apply emits_try; [|intros ?]
  | |- emits _ (seq_stmt _ _) => apply emits_seq_stmt
  | |- emits _ (for_do _ _) => apply emits_for_do; apply Forall_forall; intros ? _
  | |- emits _ (for_break apply_locators _) =>
      apply emits_for_break; unfold apply_locators;
      repeat first [apply Forall_cons_2 | apply Forall_nil_2]
  | |- emits _ (for_break _ _) => apply emits_for_break; apply Forall_forall; intros ? _
  | |- emits _ (for_each _ _) => apply emits_for_each; apply Forall_forall; intros ? _
  | |- emits ?φ (perform _ ?r ?a) => apply (emits_perform r φ a); intros ?
  | |- emits _ (if ?b then _ else _) => destruct b
  | |- emits _ (match ?o with Some _ => _ | None => _ end) => destruct o
  end.

Ltac emits_all side :=
  unfold apply_to_job, form_step, start_browser, _fill_smart_fields, _handle_upload,
    _get_label, human_sleep, human_click;
  cbn [negb];
  repeat emits_step; side.

Lemma not_submit_check e :
  action_of e <> IsVisible (Locate submit_selector) -> submit_seen e = false.
Proof.
  destruct e as [a r]; cbn. destruct a as [| | | | | | | | | |[selector| | |]| | | | | |]; try done.
  intros H. destruct r as [|[]]; try done.
  destruct (String.eqb_spec selector submit_selector) as [->|]; done.
Qed.

Section Run.

Context {World : Type}.
Variable respond : forall a : Action, World -> (Exn + ret_type a) * World.

(** Under the dry-run policy no run clicks the submit button. *)
Lemma dry_run_never_clicks url rp :
  emits (fun e => action_of e <> HumanClick submit_selector)
        (apply_to_job World respond true url rp).
Proof. emits_all ltac:(by cbn). Qed.

(** *** Once the submit button is seen under the dry-run policy *)

Lemma sure_bind {A} (m : PyM (BotState World) A) f :
  emits (fun e => action_of e <> IsVisible (Locate submit_selector)) m ->
  (forall a, ext (f a) seen_gives_success) ->
  ext (bind m f) seen_gives_success.
Proof.
  intros Hm Hf. eapply ext_bind; [exact Hm| |].
  - intros evs e Hevs. left. eapply Forall_impl; [exact Hevs|]. apply not_submit_check.
  - intros evs a Hevs. eapply ext_mono; [apply Hf|].
    intros evs' r [H|H]; [left|by right].
    apply Forall_app. split; [|done].
    eapply Forall_impl; [exact Hevs|]. apply not_submit_check.
Qed.

Lemma sure_seq_stmt (s1 s2 : PyM (BotState World) (option string)) :
  ext s1 seen_gives_success -> ext s2 seen_gives_success ->
  ext (seq_stmt s1 s2) seen_gives_success.
Proof.
  intros H1 H2. eapply ext_bind; [exact H1| |].
  - intros evs e [H|H]; [by left|done].
  - intros evs [v|] [H|H].
    + apply ext_ret. left. by rewrite app_nil_r.
    + apply ext_ret. by right.
    + eapply ext_mono; [exact H2|]. intros evs' r [H'|H']; [left|by right].
      apply Forall_app. by split.
    + done.
Qed.

Lemma sure_emits (s : PyM (BotState World) (option string)) :
  emits (fun e => action_of e <> IsVisible (Locate submit_selector)) s ->
  ext s seen_gives_success.
Proof.
  intros H. eapply ext_mono; [exact H|]. intros evs r Hevs. left.
  eapply Forall_impl; [exact Hevs|]. apply not_submit_check.
Qed.

Lemma sure_form_step rp step :
  ext (form_step World respond true rp step) seen_gives_success.
Proof.
  unfold form_step. cbn [negb].
  apply sure_seq_stmt; [apply sure_emits; emits_all ltac:(by cbn)|].
  apply sure_seq_stmt; [apply sure_emits; emits_all ltac:(by cbn)|].
  apply sure_seq_stmt.
  { eapply ext_bind; [apply (ext_perform respond _ (fun evs r => evs = [Ev _ r])); done| |].
    - intros evs e ->. left. by repeat constructor.
    - intros evs [] ->.
      + apply ext_ret. by right.
      + apply ext_ret. left. by repeat constructor. }
  apply sure_emits. emits_all ltac:(by cbn).
Qed.

Lemma sure_apply_to_job url rp :
  ext (apply_to_job World respond true url rp) seen_gives_success.
Proof.
  unfold apply_to_job.
  apply sure_bind; [emits_all ltac:(by cbn)|]. intros _.
  eapply ext_try with (Pm := seen_gives_success); [|done|].
  - apply sure_bind; [emits_all ltac:(by cbn)|]. intros _.
    apply sure_bind; [emits_all ltac:(by cbn)|]. intros _.
    apply sure_bind; [emits_all ltac:(by cbn)|]. intros _.
    apply sure_bind; [emits_all ltac:(by cbn)|]. intros clicked.
    apply sure_seq_stmt; [apply sure_emits; emits_all ltac:(by cbn)|].
    apply sure_seq_stmt; [apply sure_emits; emits_all ltac:(by cbn)|].
    generalize (range max_steps). intros steps.
    induction steps as [|step steps IH]; cbn [for_each].
    + apply ext_ret. by left.
    + apply sure_seq_stmt; [apply sure_form_step|exact IH].
  - intros evs e [H|H]; [|done]. apply ext_ret. left. by rewrite app_nil_r.
Qed.

(** *** Faults and outcomes *)

Lemma post_suffix {A} (R : A -> Prop) evs evs' r : post R evs' r -> post R (evs ++ evs') r.
Proof.
  destruct r as [e|v]; [|done]. intros (a & evs0 & ->).
  exists a, (evs ++ evs0). by rewrite app_assoc.
Qed.

Lemma post_ret {A} (R : A -> Prop) a :
  R a -> ext (ret a : PyM (BotState World) A) (post R).
Proof. intros H. by apply ext_ret. Qed.

Lemma post_perform a (R : ret_type a -> Prop) :
  (forall v, R v) -> ext (perform World respond a) (post R).
Proof. intros H. apply ext_perform. intros [e|v]; [by exists a, []|apply H]. Qed.

Lemma post_bind {A B} (m : PyM (BotState World) A) (f : A -> PyM (BotState World) B) R1 R :
  ext m (post R1) -> (forall a, R1 a -> ext (f a) (post R)) -> ext (bind m f) (post R).
Proof.
  intros Hm Hf. eapply ext_bind; [exact Hm|done|].
  intros evs a Ha. eapply ext_mono; [by apply Hf|]. intros. by apply post_suffix.
Qed.

Lemma post_try {A} (m : PyM (BotState World) A) h R :
  ext m (post R) -> (forall e, ext (h e) (post R)) -> ext (try_except m h) (post R).
Proof.
  intros Hm Hh. eapply ext_try; [exact Hm|done|].
  intros evs e _. eapply ext_mono; [apply Hh|]. intros. by apply post_suffix.
Qed.

(** A guarded block: whatever the body does, the handler decides. *)
Lemma post_try_any {A} (m : PyM (BotState World) A) h (R : A -> Prop) :
  emits (fun _ => True) m -> (forall a, R a) -> (forall e, ext (h e) (post R)) ->
  ext (try_except m h) (post R).
Proof.
  intros Hm HR Hh. eapply ext_try; [exact Hm| |].
  - intros evs a _. apply HR.
  - intros evs e _. eapply ext_mono; [apply Hh|]. intros. by apply post_suffix.
Qed.

Lemma post_mono {A} (m : PyM (BotState World) A) (R R' : A -> Prop) :
  ext m (post R) -> (forall v, R v -> R' v) -> ext m (post R').
Proof.
  intros H HR. eapply ext_mono; [exact H|]. intros evs [e|v]; cbn; auto.
Qed.

Lemma post_for_break {X} (l : list X) (body : X -> PyM (BotState World) bool) :
  (forall x, ext (body x) (post (fun _ => True))) ->
  ext (for_break l body) (post (fun _ => True)).
Proof.
  intros Hb. induction l as [|x l IH]; cbn [for_break]; [by apply post_ret|].
  eapply post_bind; [apply Hb|]. intros [] _; [by apply post_ret|done].
Qed.

Lemma post_seq_stmt (s1 s2 : PyM (BotState World) (option string)) :
  ext s1 (post stmt_result) -> ext s2 (post body_result) ->
  ext (seq_stmt s1 s2) (post body_result).
Proof.
  intros H1 H2. eapply post_bind; [exact H1|].
  intros [str|] H; [by apply post_ret|done].
Qed.

(** A statement that always returns ends the block. *)
Lemma post_seq_stmt_returns (s1 s2 : PyM (BotState World) (option string)) :
  ext s1 (post body_result) -> ext (seq_stmt s1 s2) (post body_result).
Proof.
  intros H1. eapply post_bind; [exact H1|].
  intros [str|] H; [by apply post_ret|done].
Qed.

Lemma post_then_none {A} (m : PyM (BotState World) A) R :
  ext m (post R) -> ext (m ;; ret (None : option string)) (post stmt_result).
Proof. intros H. eapply post_bind; [exact H|]. intros _ _. by apply post_ret. Qed.

Ltac post_call :=
  match goal with
  | |- ext (bind (perform _ _ ?a) _) _ =>
      eapply (post_bind _ _ (fun _ => True)); [by apply (post_perform a (fun _ => True))|]
  end.

Ltac decided_by o := exists o; split; [reflexivity|intros ?; discriminate].

Lemma post_fill : ext (_fill_smart_fields World respond) (post (fun _ => True)).
Proof.
  apply post_try_any; [emits_all ltac:(done)|done|]. intros _. by apply post_ret.
Qed.

Lemma post_upload rp : ext (_handle_upload World respond rp) (post (fun _ => True)).
Proof.
  apply post_try_any; [emits_all ltac:(done)|done|]. intros _. by apply post_ret.
Qed.

Lemma post_form_step DRY_RUN rp step :
  ext (form_step World respond DRY_RUN rp step) (post body_result).
Proof.
  unfold form_step, human_click, human_sleep.
  apply post_seq_stmt; [apply (post_then_none _ _ post_fill)|].
  apply post_seq_stmt; [apply (post_then_none _ _ (post_upload rp))|].
  apply post_seq_stmt.
  { post_call.
    intros [] _; [|by apply post_ret].
    eapply post_bind with (R1 := stmt_result).
    - destruct DRY_RUN; cbn [negb]; [by apply post_ret|].
      apply post_try.
      + post_call. intros _ _.
        post_call. intros _ _.
        by apply post_ret.
      + intros e. apply post_ret. decided_by (FailedSubmit (exn_msg e)).
    - intros [str|] H; apply post_ret; [done|]. decided_by Success. }
  apply post_seq_stmt.
  { post_call.
    intros [] _.
    - post_call. intros _ _.
      by apply post_ret.
    - post_call.
      intros [] _.
      + post_call. intros _ _.
        by apply post_ret.
      + post_call.
        intros [] _; apply post_ret; [decided_by FailedFormError|decided_by FailedStuck]. }
  apply post_seq_stmt.
  { post_call. intros _ _.
    by apply post_ret. }
  apply post_ret. decided_by FailedTooManySteps.
Qed.

Lemma post_apply_body DRY_RUN url rp :
  ext (perform World respond (Goto url 60000);;
       human_sleep World respond 3 5;;
       perform World respond (SimulateReading "h1");;
       let* clicked := for_break apply_locators (fun selector =>
         try_except
           (let loc := Locate selector in
            let* n := perform World respond (Count loc) in
            if 0 <? n then
              let* visible := perform World respond (IsVisible (First loc)) in
              if visible then human_click World respond selector;; ret true else ret false
            else ret false)
           (fun _ => human_sleep World respond 0.7 1.5;; ret false)) in
       (if negb clicked then ret (Some "Skipped") else ret None) ;;;
       (human_sleep World respond 2 3;; ret None) ;;;
       for_each (range max_steps) (form_step World respond DRY_RUN rp))
      (post body_result).
Proof.
  unfold human_sleep, human_click.
  post_call. intros _ _. post_call. intros _ _. post_call. intros _ _.
  eapply post_bind.
  { apply post_for_break. intros selector.
    apply post_try_any; [emits_all ltac:(done)|done|]. intros _.
    post_call. intros _ _. by apply post_ret. }
  intros clicked _.
  apply post_seq_stmt.
  { destruct clicked; cbn [negb]; apply post_ret; [done|]. decided_by Skipped. }
  apply post_seq_stmt.
  { post_call. intros _ _. by apply post_ret. }
  change (range max_steps) with (0 :: map Z.of_nat (seq 1 9)). cbn [for_each].
  apply post_seq_stmt_returns, post_form_step.
Qed.

(** The field scan and the upload swallow every fault of theirs. *)
Lemma fill_never_raises (s : BotState World) :
  (_fill_smart_fields World respond s).1 = inr tt.
Proof.
  unfold _fill_smart_fields, try_except.
  by match goal with |- context [?m s] => destruct (m s) as [[e|[]] s'] end.
Qed.

Lemma upload_never_raises rp (s : BotState World) :
  (_handle_upload World respond rp s).1 = inr tt.
Proof.
  unfold _handle_upload, try_except.
  by match goal with |- context [?m s] => destruct (m s) as [[e|[]] s'] end.
Qed.

(** Every path through the body of the form loop ends in [return] (or in a
    fault): the loop is its first iteration. *)
Lemma form_loop_first_step DRY_RUN rp (s : BotState World) :
  for_each (range max_steps) (form_step World respond DRY_RUN rp) s =
  form_step World respond DRY_RUN rp 0 s.
Proof.
  change (range max_steps) with (0 :: map Z.of_nat (seq 1 9)).
  cbn [for_each]. unfold seq_stmt, bind.
  destruct (post_form_step DRY_RUN rp 0 s) as (evs & _ & Hr).
  by destruct (form_step World respond DRY_RUN rp 0 s) as [[e|[str|]] s'].
Qed.

(** With the page at hand, a call is the guarded body and its handler. *)
Lemma apply_to_job_started DRY_RUN url rp (s : BotState World) :
  page s = true ->
  apply_to_job World respond DRY_RUN url rp s =
  try_except
    (perform World respond (Goto url 60000);;
     human_sleep World respond 3 5;;
     perform World respond (SimulateReading "h1");;
     let* clicked := for_break apply_locators (fun selector =>
       try_except
         (let loc := Locate selector in
          let* n := perform World respond (Count loc) in
          if 0 <? n then
            let* visible := perform World respond (IsVisible (First loc)) in
            if visible then human_click World respond selector;; ret true else ret false
          else ret false)
         (fun _ => human_sleep World respond 0.7 1.5;; ret false)) in
     (if negb clicked then ret (Some "Skipped") else ret None) ;;;
     (human_sleep World respond 2 3;; ret None) ;;;
     for_each (range max_steps) (form_step World respond DRY_RUN rp))
    (fun e => ret (Some ("Failed: " +:+ exn_msg e))) s.
Proof. intros Hpage. unfold apply_to_job, bind at 1 2, get_page. by rewrite Hpage. Qed.

(** C8. Under the dry-run policy a run of [apply_to_job] never clicks the
    submit button, and as soon as a form step finds the submit button
    visible the call returns [Success]. *)
Theorem dry_run_submit_success url rp (s : BotState World) :
  let run := apply_to_job World respond true url rp s in
  exists evs,
    trace run.2 = trace s ++ evs /\
    Forall (fun e => action_of e <> HumanClick submit_selector) evs /\
    (existsb submit_seen evs = true -> run.1 = inr (Some "Success")).
Proof.
  cbn zeta.
  destruct (dry_run_never_clicks url rp s) as (evs & Htrace & Hclicks).
  destruct (sure_apply_to_job url rp s) as (evs' & Htrace' & Hseen).
  rewrite Htrace in Htrace'. apply app_inv_head in Htrace'. subst evs'.
  exists evs. split; [done|]. split; [done|].
  intros Hex. destruct Hseen as [Hnone|]; [|done].
  apply existsb_exists in Hex as (e & Hin & He).
  rewrite Forall_forall in Hnone. apply list_elem_of_In in Hin.
  rewrite (Hnone e Hin) in He. done.
Qed.

End Run.

End ApplicatorFacts.

(** ** The scenarios of the Applicator *)

Module ApplicatorExamples.

Import Py Applicator ApplicatorSpec ApplicatorFacts ApplicatorScenario.

(** C1, where the code departs from it.  On the form of two pages the call
    presses Next once and returns [Failed (Too many steps)] at the end of
    that first form step: the loop does not continue, and the second page,
    whose Submit button is showing, is never examined. *)
Theorem apply_to_job_stops_after_first_step :
  let run := apply_to_job nat two_page_form false job_url resume (mkBot 0%nat [] true) in
  run.1 = inr (Some (outcome_string FailedTooManySteps)) /\
  submit_checks (trace run.2) = [Ev (IsVisible (Locate submit_selector)) (inr false)] /\
  two_pages (world run.2) (Locate submit_selector) = true.
Proof. by vm_compute. Qed.

(** C2 as stated fails: counting the text inputs raises during the field
    scan, the fault is swallowed by the scan, and the call goes on to
    return [Success], not [FailedException]. *)
Lemma apply_to_job_swallows_scan_fault :
  let run := apply_to_job unit (static_page submit_page scan_fault) true job_url resume started in
  let fault := mkExn PlaywrightError "Target page, context or browser has been closed" in
  In (Ev (Count (Locate "input[type='text'], input[type='email'], input[type='tel']"))
         (inl fault)) (trace run.2) /\
  run.1 = inr (Some (outcome_string Success)) /\
  run.1 <> inr (Some (outcome_string (FailedException (exn_msg fault)))).
Proof.
  cbn zeta. split; [|split].
  - vm_compute. do 7 right. by left.
  - by vm_compute.
  - by vm_compute.
Qed.

(** Before the browser page exists a fault of [start_browser] is not
    caught: it reaches the caller. *)
Lemma apply_to_job_launch_fault_escapes :
  (apply_to_job unit (static_page submit_page launch_fault) true job_url resume not_started).1
  = inl (mkExn PlaywrightError "Chromium distribution 'chrome' is not found").
Proof. by vm_compute. Qed.

(** The page with the Submit button, under the dry-run policy. *)
Lemma dry_run_submit_success_witness :
  let run := apply_to_job unit (static_page submit_page no_fault) true job_url resume started in
  run.1 = inr (Some "Success") /\
  Forall (fun e => action_of e <> HumanClick submit_selector) (trace run.2).
Proof.
  cbn zeta.
  destruct (dry_run_submit_success (static_page submit_page no_fault) job_url resume started)
    as (evs & Htrace & Hclicks & Hseen).
  cbn zeta in *. rewrite Htrace. cbn [trace started app].
  split; [|done]. apply Hseen.
  vm_compute in Htrace. by subst evs.
Defined.

End ApplicatorExamples.


(** * Further properties *)

(** ** Splitting strings *)

Module SplitFacts.

Import Py TextSpec.

Lemma split_from_nonempty sep skip s : split_from sep skip s <> [].
Proof.
  revert skip. induction s as [|c s IH]; intros skip; cbn [split_from]; [done|].
  destruct skip; [|apply IH].
  destruct (String.prefix sep (String c s)); [done|].
  by destruct (split_from sep 0 s).
Qed.

(** A separator that occurs splits the text into at least two pieces. *)
Lemma split_contains c sep s :
  contains (String c sep) s = true -> (2 <= length (split (String c sep) s))%nat.
Proof.
  unfold split. induction s as [|x s IH]; intros H.
  - done.
  - cbn [contains] in H. cbn [split_from].
    destruct (String.prefix (String c sep) (String x s)) eqn:Hp.
    + pose proof (split_from_nonempty (String c sep) (String.length (String c sep) - 1) s).
      cbn [length].
      destruct (split_from (String c sep) (String.length (String c sep) - 1) s);
        [congruence|cbn; lia].
    + cbn [orb] in H. specialize (IH H).
      destruct (split_from (String c sep) 0 s) as [|h [|h' t]]; cbn in *; lia.
Qed.

Lemma prefix_cons a s1 b s2 :
  String.prefix (String a s1) (String b s2) = if Ascii.eqb a b then String.prefix s1 s2 else false.
Proof.
  cbn [String.prefix]. destruct (ascii_dec a b) as [->|Hne].
  - by rewrite Ascii.eqb_refl.
  - destruct (Ascii.eqb_spec a b); [done|done].
Qed.

Lemma prefix_free c sep x s :
  Ascii.eqb x c = false -> String.prefix (String c sep) (String x s) = false.
Proof.
  intros H. cbn. destruct (ascii_dec c x) as [->|]; [|done].
  by rewrite Ascii.eqb_refl in H.
Qed.

(** A text without the first character of the separator does not contain
    the separator. *)
Lemma contains_free c sep s : free_of c s = true -> contains (String c sep) s = false.
Proof.
  induction s as [|x s IH]; cbn [free_of contains]; intros H; [done|].
  apply andb_true_iff in H as [Hx Hs]. apply negb_true_iff in Hx.
  by rewrite prefix_free, IH.
Qed.

(** Splitting passes over a stretch that cannot start the separator. *)
Lemma split_free c sep body rest :
  free_of c body = true ->
  hd EmptyString (split (String c sep) (body +:+ rest))
  = body +:+ hd EmptyString (split (String c sep) rest).
Proof.
  unfold split. induction body as [|x body IH]; cbn [free_of]; intros H; [done|].
  apply andb_true_iff in H as [Hx Hs]. apply negb_true_iff in Hx.
  change (String x body +:+ rest) with (String x (body +:+ rest)).
  cbn [split_from]. rewrite prefix_free by done.
  specialize (IH Hs).
  pose proof (split_from_nonempty (String c sep) 0 (body +:+ rest)).
  destruct (split_from (String c sep) 0 (body +:+ rest)); [done|].
  cbn in *. by rewrite IH.
Qed.

Lemma split_prefix sep s :
  String.prefix sep s = true -> s <> EmptyString ->
  hd EmptyString (split sep s) = EmptyString.
Proof.
  unfold split. destruct s as [|x s]; [done|]. intros H _. cbn [split_from]. by rewrite H.
Qed.

Lemma append_empty s : s +:+ EmptyString = s.
Proof.
  induction s as [|c s IH]; [done|].
  change (String c (s +:+ EmptyString) = String c s). by rewrite IH.
Qed.

Lemma index_0 (l : list string) : l <> [] -> index l 0 = inr (hd EmptyString l).
Proof. by destruct l. Qed.

End SplitFacts.

(** ** More on the Matcher *)

Module MatcherMore.

Import Py Num Matcher MatcherSpec MatcherFacts JobInfo TextSpec SplitFacts.

Lemma index_1 (l : list string) : (2 <= length l)%nat -> exists x, index l 1 = inr x.
Proof. destruct l as [|a [|b l]]; cbn; try lia. by eexists. Qed.

(** X1. Dropping the Markdown fence never fails: whenever a fence marker
    occurs in the answer, [split] yields the piece with index 1 that the
    code reads. *)
Theorem strip_fence_total text : exists t, strip_fence text = inr t.
Proof.
  unfold strip_fence.
  destruct (contains "```json" text) eqn:Hj.
  - destruct (index_1 _ (split_contains _ _ _ Hj)) as [inner ->].
    rewrite index_0 by apply split_from_nonempty. by eexists.
  - destruct (contains "```" text) eqn:Hb; [|by eexists].
    destruct (index_1 _ (split_contains _ _ _ Hb)) as [inner ->].
    rewrite index_0 by apply split_from_nonempty. by eexists.
Qed.

Lemma json_fence_rest tail :
  free_of "`" tail = true ->
  String.prefix "```" (hd EmptyString (split "```json" ("```" +:+ tail))) = true
  \/ hd EmptyString (split "```json" ("```" +:+ tail)) = EmptyString.
Proof.
  intros Hfree. unfold split.
  change ("```" +:+ tail) with (String "`" (String "`" (String "`" tail))).
  cbn [split_from].
  destruct (String.prefix "```json" (String "`" (String "`" (String "`" tail)))) eqn:Hp; [by right|left].
  assert (Hx : forall rest, String.prefix (String "`" rest) tail = false).
  { intros rest. destruct tail as [|x tail]; [done|]. cbn [free_of] in Hfree.
    apply andb_true_iff in Hfree as [Hx _]. apply negb_true_iff in Hx.
    by apply prefix_free. }
  assert (H2 : String.prefix "```json" (String "`" (String "`" tail)) = false).
  { rewrite !prefix_cons. change (Ascii.eqb "`" "`") with true. cbv iota. apply Hx. }
  assert (H1 : String.prefix "```json" (String "`" tail) = false).
  { rewrite !prefix_cons. change (Ascii.eqb "`" "`") with true. cbv iota. apply Hx. }
  rewrite H2, H1.
  pose proof (split_from_nonempty "```json" 0 tail).
  destruct (split_from "```json" 0 tail) as [|h t]; [congruence|].
  cbn [hd]. rewrite !prefix_cons. destruct h; reflexivity.
Qed.

(** X2. A fenced answer is unwrapped: from [```json BODY ``` TAIL], with no
    backquote in BODY and TAIL, the parser keeps exactly BODY. *)
Theorem strip_fence_json_fence body tail :
  free_of "`" body = true -> free_of "`" tail = true ->
  strip_fence ("```json" +:+ body +:+ "```" +:+ tail) = inr body.
Proof.
  intros Hbody Htail. unfold strip_fence.
  set (rest := body +:+ "```" +:+ tail).
  change ("```json" +:+ rest)
    with (String "`" (String "`" (String "`" (String "j" (String "s" (String "o" (String "n"
           rest))))))).
  assert (Hp : String.prefix "```json"
            (String "`" (String "`" (String "`" (String "j" (String "s" (String "o"
               (String "n" rest))))))) = true)
    by (rewrite !prefix_cons; destruct rest; reflexivity).
  cbn [contains]. rewrite Hp. cbn [orb].
  unfold split at 1. cbn [split_from]. rewrite Hp. cbn [String.length Nat.sub split_from].
  pose proof (split_free "`" "``json" body ("```" +:+ tail) Hbody) as Hinner.
  unfold split in Hinner. fold rest in Hinner.
  pose proof (split_from_nonempty "```json" 0 rest) as Hne.
  destruct (split_from "```json" 0 rest) as [|inner pieces]; [congruence|].
  cbn [index nth_error hd] in *. subst inner.
  rewrite index_0 by apply split_from_nonempty.
  rewrite (split_free "`" "``" body _ Hbody). f_equal.
  change (split_from "```json" 0 ("```" +:+ tail)) with (split "```json" ("```" +:+ tail)).
  destruct (json_fence_rest tail Htail) as [Hpre| ->].
  - rewrite split_prefix; [apply append_empty|done|].
    intros E. by rewrite E in Hpre.
  - apply append_empty.
Qed.

(** X3. An answer without any backquote is passed on unchanged. *)
Theorem strip_fence_plain text : free_of "`" text = true -> strip_fence text = inr text.
Proof.
  intros H. unfold strip_fence.
  by rewrite (contains_free "`" "``json" text H), (contains_free "`" "``" text H).
Qed.

Section Engine.

Variable generate_content : string -> Exn + string.
Variable json_loads : string -> Exn + PyVal.
Variable float_of_str : string -> option float.
Variable int_of_str : string -> option Z.

(** When the [try] body of the parser raises, the parser returns the
    fallback dict for the first key. *)
Lemma parse_falls_back (σ : Store) text resumes k v items :
  σ !! resumes = Some ((k, v) :: items) ->
  raised (parse_body json_loads float_of_str int_of_str text resumes σ).1 ->
  exists l σ',
    _parse_llm_response json_loads float_of_str int_of_str text resumes σ
      = (inr (ODict l), σ') /\
    σ' !! l = Some (fallback_result k).
Proof.
  intros Hres Hraised.
  pose proof (wp_parse_llm_response generate_content json_loads float_of_str int_of_str σ text resumes k v items Hres) as H.
  unfold wp, returns_new in H.
  destruct (_parse_llm_response _ _ _ text resumes σ) as [r σ']. cbn [fst snd] in H.
  destruct H as (l & res & -> & _ & Hl & [_ Hfb] & _).
  rewrite (Hfb Hraised) in Hl. by exists l, σ'.
Qed.

Lemma parse_body_not_object (σ : Store) text resumes t v :
  strip_fence text = inr t -> json_loads (strip t) = inr v ->
  (forall d, v <> VDict d) ->
  raised (parse_body json_loads float_of_str int_of_str text resumes σ).1.
Proof.
  intros Ht Hjson Hv.
  enough (wp (parse_body json_loads float_of_str int_of_str text resumes)
            (fun r _ => raised r) σ) by done.
  unfold parse_body.
  apply wp_bind, wp_lift. rewrite Ht.
  apply wp_bind, wp_lift. rewrite Hjson.
  apply wp_bind.
  destruct v as [| | | | | |d]; try (by destruct (Hv d));
    (apply wp_ret, wp_bind, wp_bind;
     eapply wp_mono; [apply wp_required_fields|];
     intros [e|r] τ ->; [done|];
     apply wp_ret, wp_bind; done).
Qed.

Lemma find_first {A} (f : A -> bool) pre x post :
  Forall (fun y => f y = false) pre -> f x = true -> find f (pre ++ x :: post) = Some x.
Proof.
  induction 1 as [|y pre Hy _ IH]; intros Hx; cbn.
  - by rewrite Hx.
  - rewrite Hy. by apply IH.
Qed.

(** The path of a well-formed answer whose résumé name is a key only up
    to letter case. *)
Lemma parse_body_casefold (σ : Store) text resumes items t d name filename cv c mv z :
  σ !! resumes = Some items ->
  strip_fence text = inr t -> json_loads (strip t) = inr (VDict d) ->
  dict_get "selected_resume" d = Some (VStr name) -> dict_has name items = false ->
  find (fun f => String.eqb (lower f) (lower name)) (dict_keys items) = Some filename ->
  dict_get "confidence" d = Some cv -> py_float float_of_str cv = inr c ->
  dict_has "reasoning" d = true ->
  dict_get "match_score" d = Some mv -> py_int int_of_str mv = inr z ->
  parse_body json_loads float_of_str int_of_str text resumes σ =
    (inr (ODict (fresh (dom σ))),
     <[fresh (dom σ) := dict_set "match_score" (VInt (clamp_score z))
                          (dict_set "confidence" (VFloat (normalize_confidence c))
                             (dict_set "selected_resume" (VStr filename) d))]> σ).
Proof.
  intros Hres Ht Hjson Hsel Hk Hfind Hcv Hc Hr Hmv Hz.
  set (l := fresh (dom σ)).
  assert (Hl : σ !! l = None) by apply not_elem_of_dom, is_fresh.
  assert (Hne : l <> resumes) by congruence.
  apply wp_eq. unfold parse_body.
  apply wp_bind, wp_lift. rewrite Ht.
  apply wp_bind, wp_lift. rewrite Hjson.
  apply wp_bind, wp_bind. unfold wp at 1, alloc. cbn [fst snd].
  apply wp_ret. fold l.
  apply wp_bind, wp_bind. unfold wp at 1.
  rewrite (required_fields_present l d) by
    (first [apply lookup_insert_eq | unfold required_fields, dict_has; cbn [forallb];
            unfold dict_has in Hr; rewrite Hsel, Hcv, Hmv; by destruct (dict_get "reasoning" d)]).
  cbn [fst snd]. apply wp_ret.
  apply wp_bind. eapply wp_getitem; [apply lookup_insert_eq|]. rewrite Hsel.
  apply wp_bind. eapply wp_load; [by rewrite lookup_insert_ne|].
  apply wp_bind, wp_lift. cbn [key_in]. rewrite Hk.
  apply wp_bind, wp_bind. eapply wp_getitem; [apply lookup_insert_eq|]. rewrite Hsel.
  apply wp_bind, wp_lift. cbn [py_lower]. rewrite Hfind.
  eapply wp_setitem; [apply lookup_insert_eq|]. rewrite insert_insert_eq.
  apply wp_bind. eapply wp_getitem; [apply lookup_insert_eq|].
  rewrite dict_get_set_ne by done. rewrite Hcv.
  apply wp_bind, wp_lift. rewrite Hc.
  apply wp_bind. eapply wp_setitem; [apply lookup_insert_eq|]. rewrite insert_insert_eq.
  apply wp_bind. eapply wp_getitem; [apply lookup_insert_eq|].
  rewrite !dict_get_set_ne by done. rewrite Hmv.
  apply wp_bind, wp_lift. rewrite Hz.
  apply wp_bind. eapply wp_setitem; [apply lookup_insert_eq|]. rewrite insert_insert_eq.
  by apply wp_ret.
Qed.

(** X4. When the answer names a résumé that is a key only up to letter
    case, the result names the first key of the mapping, in iteration
    order, that equals the answer's name ignoring case. *)
Theorem parse_case_insensitive (σ : Store) text resumes items t d name pre filename post cv c mv z :
  σ !! resumes = Some items ->
  strip_fence text = inr t -> json_loads (strip t) = inr (VDict d) ->
  dict_get "selected_resume" d = Some (VStr name) -> dict_has name items = false ->
  dict_keys items = pre ++ filename :: post ->
  Forall (fun key => lower key <> lower name) pre -> lower filename = lower name ->
  dict_get "confidence" d = Some cv -> py_float float_of_str cv = inr c ->
  dict_has "reasoning" d = true ->
  dict_get "match_score" d = Some mv -> py_int int_of_str mv = inr z ->
  exists l res σ',
    _parse_llm_response json_loads float_of_str int_of_str text resumes σ
      = (inr (ODict l), σ') /\
    σ' !! l = Some res /\
    dict_get "selected_resume" res = Some (VStr filename).
Proof.
  intros Hres Ht Hjson Hsel Hk Hkeys Hpre Hfile Hcv Hc Hr Hmv Hz.
  assert (Hfind : find (fun f => String.eqb (lower f) (lower name)) (dict_keys items)
                  = Some filename).
  { rewrite Hkeys. apply find_first.
    - eapply Forall_impl; [exact Hpre|]. intros key Hkey. by apply String.eqb_neq.
    - by apply String.eqb_eq. }
  pose proof (parse_body_casefold σ text resumes items t d name filename cv c mv z
                Hres Ht Hjson Hsel Hk Hfind Hcv Hc Hr Hmv Hz) as Hbody.
  eexists _, _, _. split.
  { unfold _parse_llm_response, try_except. by rewrite Hbody. }
  split; [apply lookup_insert_eq|].
  rewrite 2!dict_get_set_ne by done. apply dict_get_set_eq.
Qed.

(** X5. On a well-formed answer that names a known résumé the parser
    returns the parsed object itself: apart from [confidence] and
    [match_score] every field (the chosen name, the reasoning, the key
    matches, anything else the model added) is as the model gave it. *)
Theorem parse_keeps_other_fields (σ : Store) text resumes items t d k cv c mv z :
  σ !! resumes = Some items ->
  strip_fence text = inr t -> json_loads (strip t) = inr (VDict d) ->
  dict_get "selected_resume" d = Some (VStr k) -> dict_has k items = true ->
  dict_get "confidence" d = Some cv -> py_float float_of_str cv = inr c ->
  dict_has "reasoning" d = true ->
  dict_get "match_score" d = Some mv -> py_int int_of_str mv = inr z ->
  exists l res σ',
    _parse_llm_response json_loads float_of_str int_of_str text resumes σ
      = (inr (ODict l), σ') /\
    σ' !! l = Some res /\
    forall key, key <> "confidence" -> key <> "match_score" ->
      dict_get key res = dict_get key d.
Proof.
  intros Hres Ht Hjson Hsel Hk Hcv Hc Hr Hmv Hz.
  pose proof (parse_body_known json_loads float_of_str int_of_str σ text resumes items t d k cv c mv z
                Hres Ht Hjson Hsel Hk Hcv Hc Hr Hmv Hz) as Hbody.
  eexists _, _, _. split.
  { unfold _parse_llm_response, try_except. by rewrite Hbody. }
  split; [apply lookup_insert_eq|].
  intros key Hc' Hm'. by rewrite 2!dict_get_set_ne.
Qed.

(** X6. On a well-formed answer the stored match score is the reported
    one cut to the range 0..100: a score in range is kept, a larger one
    becomes 100 and a negative one 0. *)
Theorem parse_score_clamped (σ : Store) text resumes items t d k cv c mv z :
  σ !! resumes = Some items ->
  strip_fence text = inr t -> json_loads (strip t) = inr (VDict d) ->
  dict_get "selected_resume" d = Some (VStr k) -> dict_has k items = true ->
  dict_get "confidence" d = Some cv -> py_float float_of_str cv = inr c ->
  dict_has "reasoning" d = true ->
  dict_get "match_score" d = Some mv -> py_int int_of_str mv = inr z ->
  exists l res σ' score,
    _parse_llm_response json_loads float_of_str int_of_str text resumes σ
      = (inr (ODict l), σ') /\
    σ' !! l = Some res /\
    dict_get "match_score" res = Some (VInt score) /\
    (0 <= z <= 100 -> score = z) /\ (100 < z -> score = 100) /\ (z < 0 -> score = 0).
Proof.
  intros Hres Ht Hjson Hsel Hk Hcv Hc Hr Hmv Hz.
  pose proof (parse_body_known json_loads float_of_str int_of_str σ text resumes items t d k cv c mv z
                Hres Ht Hjson Hsel Hk Hcv Hc Hr Hmv Hz) as Hbody.
  eexists _, _, _, (clamp_score z). split.
  { unfold _parse_llm_response, try_except. by rewrite Hbody. }
  split; [apply lookup_insert_eq|].
  split; [apply dict_get_set_eq|].
  unfold clamp_score. lia.
Qed.

(** X7. An answer that is not JSON gives the fallback result. *)
Theorem parse_bad_json_falls_back (σ : Store) text resumes k v items t e :
  σ !! resumes = Some ((k, v) :: items) ->
  strip_fence text = inr t -> json_loads (strip t) = inl e ->
  exists l σ',
    _parse_llm_response json_loads float_of_str int_of_str text resumes σ
      = (inr (ODict l), σ') /\
    σ' !! l = Some (fallback_result k).
Proof.
  intros Hres Ht Hjson. apply (parse_falls_back σ text resumes k v items Hres).
  by rewrite (parse_body_bad_json json_loads float_of_str int_of_str σ text resumes t e Ht Hjson).
Qed.

(** X8. A JSON object that lacks one of the four required fields gives the
    fallback result. *)
Theorem parse_missing_field_falls_back (σ : Store) text resumes k v items t d field :
  σ !! resumes = Some ((k, v) :: items) ->
  strip_fence text = inr t -> json_loads (strip t) = inr (VDict d) ->
  In field ["selected_resume"; "confidence"; "reasoning"; "match_score"] ->
  dict_get field d = None ->
  exists l σ',
    _parse_llm_response json_loads float_of_str int_of_str text resumes σ
      = (inr (ODict l), σ') /\
    σ' !! l = Some (fallback_result k).
Proof.
  intros Hres Ht Hjson Hin Hmiss. apply (parse_falls_back σ text resumes k v items Hres).
  apply (parse_body_missing_field json_loads float_of_str int_of_str σ text resumes t d Ht Hjson).
  apply not_true_is_false. intros Hall.
  rewrite forallb_forall in Hall. specialize (Hall field Hin).
  unfold dict_has in Hall. by rewrite Hmiss in Hall.
Qed.

(** X9. An answer that names a résumé which is no key of the mapping, not
    even up to letter case, gives the fallback result. *)
Theorem parse_unknown_resume_falls_back (σ : Store) text resumes k v items t d name :
  σ !! resumes = Some ((k, v) :: items) ->
  strip_fence text = inr t -> json_loads (strip t) = inr (VDict d) ->
  forallb (fun field => dict_has field d) required_fields = true ->
  dict_get "selected_resume" d = Some (VStr name) ->
  Forall (fun key => lower key <> lower name) (dict_keys ((k, v) :: items)) ->
  exists l σ',
    _parse_llm_response json_loads float_of_str int_of_str text resumes σ
      = (inr (ODict l), σ') /\
    σ' !! l = Some (fallback_result k).
Proof.
  intros Hres Ht Hjson Hall Hsel Hnone. apply (parse_falls_back σ text resumes k v items Hres).
  apply (parse_body_invalid_resume json_loads float_of_str int_of_str σ text resumes
           ((k, v) :: items) t d name Hres Ht Hjson Hall Hsel).
  - apply not_true_is_false. intros Hex. apply existsb_exists in Hex as (key & Hin & Heq).
    rewrite Forall_forall in Hnone. apply String.eqb_eq in Heq.
    by apply (Hnone key); [apply list_elem_of_In|].
  - apply not_true_is_false. intros Hhas. apply dict_has_keys in Hhas.
    rewrite Forall_forall in Hnone. by apply (Hnone name); [apply list_elem_of_In|].
Qed.

(** X10. A JSON answer that is not an object (an array, a string, a
    number, [true], [null]) gives the fallback result. *)
Theorem parse_not_object_falls_back (σ : Store) text resumes k v items t value :
  σ !! resumes = Some ((k, v) :: items) ->
  strip_fence text = inr t -> json_loads (strip t) = inr value ->
  (forall d, value <> VDict d) ->
  exists l σ',
    _parse_llm_response json_loads float_of_str int_of_str text resumes σ
      = (inr (ODict l), σ') /\
    σ' !! l = Some (fallback_result k).
Proof.
  intros Hres Ht Hjson Hv. apply (parse_falls_back σ text resumes k v items Hres).
  by apply (parse_body_not_object σ text resumes t value).
Qed.

Lemma summaries_fail items acc :
  well_formed items = false -> exists e, summaries items acc = inl e.
Proof.
  revert acc. induction items as [|[filename data] items IH]; intros acc Hwf; [done|].
  cbn in Hwf. cbn [summaries].
  destruct (has_text data) eqn:Hd; cbn [andb] in Hwf.
  - destruct data as [| | | | | |d]; try done. cbn in Hd |- *.
    destruct (dict_get "text" d) as [[]|]; try done. by apply IH.
  - destruct data as [| | | | | |d]; cbn; try by eexists.
    cbn in Hd. destruct (dict_get "text" d) as [[]|]; try done; by eexists.
Qed.

(** X11. When some record of the mapping has no [text] string,
    [select_best_resume] raises whatever the model would answer: the
    prompt is built before the [try], so the fault of reading
    [data['text']] reaches the caller; the store is as it was. *)
Theorem select_ill_formed_raises (σ : Store) jd resumes title items :
  σ !! resumes = Some items -> well_formed items = false ->
  exists e,
    select_best_resume generate_content json_loads float_of_str int_of_str
      jd resumes title σ = (inl e, σ).
Proof.
  intros Hres Hwf.
  destruct (summaries_fail items [] Hwf) as [e He].
  exists e. unfold select_best_resume, bind at 1, load. rewrite Hres.
  destruct items as [|item items']; [done|].
  unfold _build_matching_prompt, bind, load, lift. by rewrite Hres, He.
Qed.

Lemma substring_app n s extra :
  (n <= String.length s)%nat ->
  String.substring 0 n (s +:+ extra) = String.substring 0 n s.
Proof.
  revert s. induction n as [|n IH]; intros [|c s] Hn; cbn in Hn |- *; try lia.
  - by destruct extra.
  - done.
  - change (String c s +:+ extra) with (String c (s +:+ extra)).
    cbn. f_equal. apply IH. lia.
Qed.

(** X12. Only the first 3000 characters of the job description reach the
    model: text appended to a description of at least 3000 characters
    changes neither the outcome of [select_best_resume] nor the store. *)
Theorem select_reads_3000_chars (σ : Store) jd extra resumes title :
  (3000 <= String.length jd)%nat ->
  select_best_resume generate_content json_loads float_of_str int_of_str
    (jd +:+ extra) resumes title σ =
  select_best_resume generate_content json_loads float_of_str int_of_str
    jd resumes title σ.
Proof.
  intros Hlen. unfold select_best_resume, _build_matching_prompt, slice_to.
  by rewrite (substring_app 3000 jd extra Hlen).
Qed.

(** X13. [extract_job_info] never raises: it returns an object for every
    model and every behaviour of [json.loads], and changes no dict that
    exists before the call. *)
Theorem extract_job_info_total (σ : Store) jd :
  exists o σ',
    extract_job_info generate_content json_loads jd σ = (inr o, σ') /\ σ ⊆ σ'.
Proof.
  assert (Hfresh : σ ⊆ <[fresh (dom σ) := default_job_info]> σ).
  { apply insert_subseteq, not_elem_of_dom, is_fresh. }
  unfold extract_job_info, try_except, bind, lift, alloc, ret.
  destruct (generate_content _) as [e|text]; [by eexists _, _|].
  destruct (strip_json_fence _) as [e|t]; [by eexists _, _|].
  destruct (json_loads _) as [e|v]; [by eexists _, _|].
  destruct v; cbn; eexists _, _; split; try reflexivity; try done.
  apply insert_subseteq, not_elem_of_dom, is_fresh.
Qed.

(** X14. When the model call faults, or [json.loads] rejects the answer,
    [extract_job_info] returns a new dict with the four default entries:
    company Unknown, location and experience level Not specified, no key
    skills. *)
Theorem extract_job_info_default (σ : Store) jd :
  match generate_content (job_info_prompt jd) with
  | inl _ => True
  | inr text => forall t, strip_json_fence (strip text) = inr t -> raised (json_loads (strip t))
  end ->
  exists l σ',
    extract_job_info generate_content json_loads jd σ = (inr (ODict l), σ') /\
    σ !! l = None /\ σ' !! l = Some default_job_info.
Proof.
  intros Hfault.
  assert (Hfresh : σ !! fresh (dom σ) = None) by apply not_elem_of_dom, is_fresh.
  unfold extract_job_info, try_except, bind, lift, alloc, ret.
  destruct (generate_content _) as [e|text].
  { eexists _, _. split; [reflexivity|]. split; [done|]. apply lookup_insert_eq. }
  destruct (strip_json_fence _) as [e|t].
  { eexists _, _. split; [reflexivity|]. split; [done|]. apply lookup_insert_eq. }
  specialize (Hfault t eq_refl).
  destruct (json_loads _) as [e|v]; [|done].
  eexists _, _. split; [reflexivity|]. split; [done|]. apply lookup_insert_eq.
Qed.

(** X15. Only the first 2000 characters of the job description reach the
    model in [extract_job_info]. *)
Theorem extract_reads_2000_chars (σ : Store) jd extra :
  (2000 <= String.length jd)%nat ->
  extract_job_info generate_content json_loads (jd +:+ extra) σ =
  extract_job_info generate_content json_loads jd σ.
Proof.
  intros Hlen. unfold extract_job_info, job_info_prompt, slice_to.
  by rewrite (substring_app 2000 jd extra Hlen).
Qed.

(** X16. The two steps of the Matcher compose: on a non-empty mapping of
    records with a [text] string, [select_best_resume] returns a result
    on which [should_apply] answers with a boolean, whatever the
    thresholds, and [should_apply] leaves the store alone. *)
Theorem select_then_should_apply (σ : Store) jd resumes title items minc mins :
  σ !! resumes = Some items -> items <> [] -> well_formed items = true ->
  exists l σ' b,
    select_best_resume generate_content json_loads float_of_str int_of_str
      jd resumes title σ = (inr (ODict l), σ') /\
    should_apply jd l minc mins σ' = (inr b, σ').
Proof.
  intros Hres Hne Hwf.
  destruct (build_prompt_ok jd resumes title σ items Hres Hwf) as [prompt Hprompt].
  destruct items as [|[k v] items]; [done|].
  pose proof (wp_select_best_resume generate_content json_loads float_of_str int_of_str
                σ jd resumes title k v items prompt Hres Hprompt) as H.
  unfold wp, returns_new in H.
  destruct (select_best_resume _ _ _ _ jd resumes title σ) as [r σ']. cbn [fst snd] in H.
  destruct H as (l & res & -> & _ & Hl & [(k' & c & z & _ & _ & Hc & _ & _ & Hz & _) _] & _).
  exists l, σ', (gate jd c z minc mins). split; [done|].
  by apply (should_apply_run σ' jd l res c z).
Qed.

(** X17. A fallback result does not pass a gate that asks for more than it
    carries: when [select_best_resume] fell back, [should_apply] answers
    [False] on its result for every minimum confidence above 0.5 and for
    every minimum score above 50, hence with the default thresholds 0.6
    and 60. *)
Theorem fallback_is_rejected (σ : Store) jd resumes title k v items prompt minc mins :
  σ !! resumes = Some ((k, v) :: items) ->
  _build_matching_prompt jd resumes title σ = (inr prompt, σ) ->
  fell_back generate_content json_loads float_of_str int_of_str prompt resumes σ ->
  (0.5 <? minc)%float = true \/ 50 < mins ->
  exists l σ',
    select_best_resume generate_content json_loads float_of_str int_of_str
      jd resumes title σ = (inr (ODict l), σ') /\
    should_apply jd l minc mins σ' = (inr false, σ').
Proof.
  intros Hres Hprompt Hfb Hmin.
  pose proof (wp_select_best_resume generate_content json_loads float_of_str int_of_str
                σ jd resumes title k v items prompt Hres Hprompt) as H.
  unfold wp, returns_new in H.
  destruct (select_best_resume _ _ _ _ jd resumes title σ) as [r σ']. cbn [fst snd] in H.
  destruct H as (l & res & -> & _ & Hl & [_ Hres'] & _).
  rewrite (Hres' Hfb) in Hl.
  exists l, σ'. split; [done|].
  rewrite (should_apply_run σ' jd l (fallback_result k) 0.5 50 minc mins Hl eq_refl eq_refl).
  unfold gate. destruct Hmin as [-> | Hmins]; [done|].
  apply Z.ltb_lt in Hmins. rewrite Hmins. by destruct (0.5 <? minc)%float.
Qed.

End Engine.

End MatcherMore.

(** ** Scenarios of the Matcher, continued *)

Module MatcherMoreExamples.

Import Py Num Matcher MatcherSpec MatcherFacts JobInfo TextSpec MatcherScenario MoreScenario
  MatcherMore.

(** A fenced answer followed by a remark. *)
Lemma strip_fence_json_fence_witness :
  strip_fence "```json{a: 1}``` done" = inr "{a: 1}".
Proof. apply (strip_fence_json_fence "{a: 1}" " done"); reflexivity. Defined.

Lemma strip_fence_plain_witness : strip_fence "{a: 1}" = inr "{a: 1}".
Proof. apply (strip_fence_plain "{a: 1}"); reflexivity. Defined.

(** The answer names [B.PDF]; the mapping has [b.pdf] after [a.pdf]. *)
Lemma parse_case_insensitive_witness :
  exists l res σ',
    _parse_llm_response json_capitals no_float no_int "{...}" 1%positive store_ab
      = (inr (ODict l), σ') /\
    σ' !! l = Some res /\
    dict_get "selected_resume" res = Some (VStr "b.pdf").
Proof.
  eapply (parse_case_insensitive json_capitals no_float no_int store_ab "{...}" 1%positive
           resumes_ab "{...}" _ "B.PDF" ["a.pdf"] "b.pdf" [] (VFloat 0.9) 0.9 (VInt 120) 120);
    try reflexivity.
  constructor; [by vm_compute|constructor].
Defined.

Lemma parse_keeps_other_fields_witness :
  exists l res σ',
    _parse_llm_response json_answer no_float no_int "{...}" 1%positive store_ab
      = (inr (ODict l), σ') /\
    σ' !! l = Some res /\
    dict_get "key_matches" res = Some (VList [VStr "Python"; VStr "PostgreSQL"]).
Proof.
  destruct (parse_keeps_other_fields json_answer no_float no_int store_ab "{...}" 1%positive
              resumes_ab "{...}" answer_object "b.pdf" (VInt 85) 85%float (VInt 85) 85)
    as (l & res & σ' & Hrun & Hres & Hkeep); [reflexivity..|].
  exists l, res, σ'. split; [done|]. split; [done|].
  by rewrite (Hkeep "key_matches").
Defined.

(** A reported score of 120 is stored as 100. *)
Lemma parse_score_clamped_witness :
  exists l res σ',
    _parse_llm_response json_high_score no_float no_int "{...}" 1%positive store_ab
      = (inr (ODict l), σ') /\
    σ' !! l = Some res /\
    dict_get "match_score" res = Some (VInt 100).
Proof.
  destruct (parse_score_clamped json_high_score no_float no_int store_ab "{...}" 1%positive
              resumes_ab "{...}" high_score_object "b.pdf" (VFloat 0.9) 0.9%float (VInt 120) 120)
    as (l & res & σ' & score & Hrun & Hres & Hscore & _ & Hhigh & _); [reflexivity..|].
  exists l, res, σ'. split; [done|]. split; [done|].
  by rewrite Hscore, Hhigh.
Defined.

Lemma parse_bad_json_falls_back_witness :
  exists l σ',
    _parse_llm_response json_fault no_float no_int "Sure! I pick b.pdf" 1%positive store_ab
      = (inr (ODict l), σ') /\
    σ' !! l = Some (fallback_result "a.pdf").
Proof.
  eapply (parse_bad_json_falls_back model_fault json_fault no_float no_int store_ab
            "Sure! I pick b.pdf" 1%positive "a.pdf"); reflexivity.
Defined.

Lemma parse_missing_field_falls_back_witness :
  exists l σ',
    _parse_llm_response json_no_score no_float no_int "{...}" 1%positive store_ab
      = (inr (ODict l), σ') /\
    σ' !! l = Some (fallback_result "a.pdf").
Proof.
  eapply (parse_missing_field_falls_back model_fault json_no_score no_float no_int store_ab
            "{...}" 1%positive "a.pdf" _ _ _ _ "match_score");
    [reflexivity | reflexivity | reflexivity | simpl; tauto | reflexivity].
Defined.

Lemma parse_unknown_resume_falls_back_witness :
  exists l σ',
    _parse_llm_response json_unknown no_float no_int "{...}" 1%positive store_ab
      = (inr (ODict l), σ') /\
    σ' !! l = Some (fallback_result "a.pdf").
Proof.
  eapply (parse_unknown_resume_falls_back model_fault json_unknown no_float no_int store_ab
            "{...}" 1%positive "a.pdf" _ _ _ _ "c.pdf");
    [reflexivity | reflexivity | reflexivity | reflexivity | reflexivity |].
  repeat constructor; by vm_compute.
Defined.

Lemma parse_not_object_falls_back_witness :
  exists l σ',
    _parse_llm_response json_array no_float no_int "[...]" 1%positive store_ab
      = (inr (ODict l), σ') /\
    σ' !! l = Some (fallback_result "a.pdf").
Proof.
  eapply (parse_not_object_falls_back model_fault json_array no_float no_int store_ab
            "[...]" 1%positive "a.pdf");
    [reflexivity | reflexivity | reflexivity | discriminate].
Defined.

(** The record of [a.pdf] has no [text]; the model would have answered. *)
Lemma select_ill_formed_raises_witness :
  exists e,
    select_best_resume model_answer json_answer no_float no_int
      "Backend engineer, Python" 1%positive None store_no_text = (inl e, store_no_text).
Proof.
  apply (select_ill_formed_raises model_answer json_answer no_float no_int store_no_text
           "Backend engineer, Python" 1%positive None
           [("a.pdf", VDict [("filename", VStr "a.pdf")])]); reflexivity.
Defined.

Lemma select_reads_3000_chars_witness :
  select_best_resume model_answer json_answer no_float no_int
    (long_description +:+ " Commission only.") 1%positive None store_ab =
  select_best_resume model_answer json_answer no_float no_int
    long_description 1%positive None store_ab.
Proof.
  apply (select_reads_3000_chars model_answer json_answer no_float no_int store_ab
           long_description " Commission only." 1%positive None).
  apply Nat.leb_le. by vm_compute.
Defined.

Lemma extract_reads_2000_chars_witness :
  extract_job_info model_answer json_answer (long_description +:+ " Apply now.") store_ab =
  extract_job_info model_answer json_answer long_description store_ab.
Proof.
  apply (extract_reads_2000_chars model_answer json_answer store_ab
           long_description " Apply now.").
  apply Nat.leb_le. by vm_compute.
Defined.

Lemma extract_job_info_default_witness :
  exists l σ',
    extract_job_info model_fault json_answer "Backend engineer, Python" store_ab
      = (inr (ODict l), σ') /\
    store_ab !! l = None /\ σ' !! l = Some default_job_info.
Proof.
  apply (extract_job_info_default model_fault json_answer store_ab "Backend engineer, Python").
  exact I.
Defined.

Lemma select_then_should_apply_witness :
  exists l σ' b,
    select_best_resume model_answer json_answer no_float no_int
      "Backend engineer, Python" 1%positive None store_ab = (inr (ODict l), σ') /\
    should_apply "Backend engineer, Python" l 0.6 60 σ' = (inr b, σ').
Proof.
  apply (select_then_should_apply model_answer json_answer no_float no_int store_ab
           "Backend engineer, Python" 1%positive None resumes_ab 0.6 60);
    [reflexivity | discriminate | reflexivity].
Defined.

(** Under a model fault the default thresholds reject the result. *)
Lemma fallback_is_rejected_witness :
  exists l σ',
    select_best_resume model_fault json_answer no_float no_int
      "Backend engineer, Python" 1%positive None store_ab = (inr (ODict l), σ') /\
    should_apply "Backend engineer, Python" l 0.6 60 σ' = (inr false, σ').
Proof.
  eapply (fallback_is_rejected model_fault json_answer no_float no_int store_ab
            "Backend engineer, Python" 1%positive None "a.pdf");
    [reflexivity | reflexivity | exact I | left; reflexivity].
Defined.

End MatcherMoreExamples.

(** ** More on the Applicator *)

Module ApplicatorMore.

Import Py Applicator ApplicatorSpec ApplicatorFacts OutcomeSpec.

Ltac permitted_step :=
  match goal with
  | |- emits _ (for_break PROFILE _) =>
      apply emits_for_break; apply Forall_forall; intros [? ?] ?
  | |- emits _ (for_do ANSWERS _) =>
      apply emits_for_do; apply Forall_forall; intros [? ?] ?
  | |- emits _ (for_do (range _) _) =>
      apply emits_for_do; apply Forall_forall; intros ? _
  | _ => emits_step
  end.

Section Run.

Context {World : Type}.
Variable respond : forall a : Action, World -> (Exn + ret_type a) * World.

(** X18. Whatever the page answers, a run of [apply_to_job] navigates only
    to the job URL (with the timeout of 60000 ms), clicks through
    [human_click] only one of the eight apply locators or the Submit, Next
    and Review buttons, uploads only the given résumé path into the file
    input, fills text inputs only with values of [PROFILE], and clicks
    inside a fieldset only the label of an answer of [ANSWERS]. *)
Theorem apply_to_job_permitted DRY_RUN url rp (s : BotState World) :
  exists evs,
    trace (apply_to_job World respond DRY_RUN url rp s).2 = trace s ++ evs /\
    Forall (permitted url rp) evs.
Proof.
  revert s.
  change (emits (permitted url rp) (apply_to_job World respond DRY_RUN url rp)).
  unfold apply_to_job, form_step, start_browser, _fill_smart_fields, _handle_upload,
    _get_label, human_sleep, human_click.
  repeat permitted_step; unfold permitted; cbn [action_of]; try done.
  all: try (cbn; tauto).
  - eexists _, _. split; [reflexivity|]. by apply list_elem_of_In.
  - eexists _, _, _. split; [by apply list_elem_of_In|reflexivity].
Qed.
(** *** The guards of the field scan *)

Lemma app_cons_split {A} (l1 l2 pre post : list A) x :
  l1 ++ l2 = pre ++ x :: post ->
  (exists post1, l1 = pre ++ x :: post1 /\ post = post1 ++ l2) \/
  (exists pre2, pre = l1 ++ pre2 /\ l2 = pre2 ++ x :: post).
Proof.
  revert pre. induction l1 as [|y l1 IH]; intros pre H.
  - right. by exists pre.
  - destruct pre as [|p pre]; cbn in H.
    + injection H as -> <-. left. by exists l1.
    + injection H as -> H. destruct (IH pre H) as [(post1 & -> & ->)|(pre2 & -> & ->)].
      * left. by exists post1.
      * right. by exists pre2.
Qed.

(** The first event that is no read is where it is. *)
Lemma first_write_split (l1 l2 pre post : list Event) x y :
  Forall (fun e => is_scan e = true) l1 -> Forall (fun e => is_scan e = true) l2 ->
  is_scan y = false ->
  l1 ++ x :: l2 = pre ++ y :: post -> pre = l1 /\ y = x /\ post = l2.
Proof.
  intros H1 H2 Hy H.
  destruct (app_cons_split l1 (x :: l2) pre post y H) as [(post1 & -> & _)|(pre2 & -> & H')].
  - apply Forall_app in H1 as [_ H1]. apply Forall_cons_1 in H1 as [H1 _]. congruence.
  - destruct pre2 as [|p pre2]; cbn in H'.
    + injection H' as -> ->. by rewrite app_nil_r.
    + injection H' as -> ->. apply Forall_app in H2 as [_ H2].
      apply Forall_cons_1 in H2 as [H2 _]. congruence.
Qed.

Lemma guarded_nil : guarded [].
Proof. split; intros; by destruct pre. Qed.

Lemma guarded_app evs1 evs2 : guarded evs1 -> guarded evs2 -> guarded (evs1 ++ evs2).
Proof.
  intros [Hf1 Hc1] [Hf2 Hc2]. split.
  - intros pre l value r post H.
    destruct (app_cons_split _ _ _ _ _ H) as [(post1 & H1 & _)|(pre2 & -> & H2)].
    + by apply (Hf1 pre l value r post1).
    + destruct (Hf2 pre2 l value r post H2) as (before & old & between & -> & Hold & Hb).
      exists (evs1 ++ before), old, between. by rewrite <- app_assoc.
  - intros pre l r post H.
    destruct (app_cons_split _ _ _ _ _ H) as [(post1 & H1 & _)|(pre2 & -> & H2)].
    + by apply (Hc1 pre l r post1).
    + destruct (Hc2 pre2 l r post H2) as (before & ->).
      exists (evs1 ++ before). by rewrite <- app_assoc.
Qed.

Lemma guarded_scan evs : Forall (fun e => is_scan e = true) evs -> guarded evs.
Proof.
  intros H. split.
  - intros pre l value r post ->. apply Forall_app in H as [_ H].
    by apply Forall_cons_1 in H as [H _].
  - intros pre l r post ->. apply Forall_app in H as [_ H].
    by apply Forall_cons_1 in H as [H _].
Qed.

Lemma guarded_emits {A} (m : PyM (BotState World) A) :
  emits (fun e => is_scan e = true) m -> ext m (fun evs _ => guarded evs).
Proof. intros H. eapply ext_mono; [exact H|]. intros evs r. apply guarded_scan. Qed.

Lemma guarded_bind {A B} (m : PyM (BotState World) A) (f : A -> PyM (BotState World) B) :
  ext m (fun evs _ => guarded evs) -> (forall a, ext (f a) (fun evs _ => guarded evs)) ->
  ext (bind m f) (fun evs _ => guarded evs).
Proof.
  intros Hm Hf. eapply ext_bind; [exact Hm|done|].
  intros evs a Hevs. eapply ext_mono; [apply Hf|].
  intros evs' r Hevs'. by apply guarded_app.
Qed.

Lemma guarded_for_do {X} (l : list X) (body : X -> PyM (BotState World) unit) :
  (forall x, ext (body x) (fun evs _ => guarded evs)) ->
  ext (for_do l body) (fun evs _ => guarded evs).
Proof.
  intros Hb. induction l as [|x l IH]; cbn [for_do].
  - apply ext_ret, guarded_nil.
  - by apply guarded_bind.
Qed.

Lemma guarded_call a :
  ext (perform World respond a) (fun evs r => evs = [Ev a r]).
Proof. by apply ext_perform. Qed.

(** The loop over [PROFILE] fills at most once, and first of all. *)
Lemma profile_loop_fills_once field label (items : list (string * string)) :
  ext (for_break items (fun item =>
         if contains (fst item) label
         then perform World respond (Fill field (snd item));;
              human_sleep World respond 0.5 1;; ret true
         else ret false))
      (fun evs _ =>
         evs = [] \/
         exists value r rest,
           evs = Ev (Fill field value) r :: rest /\ Forall (fun e => is_scan e = true) rest).
Proof.
  induction items as [|item items IH]; cbn [for_break].
  - apply ext_ret. by left.
  - destruct (contains (fst item) label).
    + intros s. unfold bind, human_sleep, perform, ret. cbn [world trace].
      destruct (respond (Fill field (snd item)) (world s)) as [[e|[]] w1];
        cbn [fst snd world trace].
      2: destruct (respond (HumanSleep 0.5 1) w1) as [[e|[]] w2]; cbn [fst snd world trace].
      all: eexists; (split; [by rewrite <- ?app_assoc|]); right;
        eexists _, _, _; (split; [reflexivity|]); by repeat constructor.
    + intros s. unfold bind at 1, ret at 1. cbn [fst snd]. apply IH.
Qed.

(** The events of one text input that was found visible and empty. *)
Lemma guarded_one_fill field old (label_evs fill_evs : list Event) :
  truthy old = false ->
  Forall (fun e => is_scan e = true) label_evs ->
  (fill_evs = [] \/
   exists value r rest,
     fill_evs = Ev (Fill field value) r :: rest /\ Forall (fun e => is_scan e = true) rest) ->
  guarded (Ev (IsVisible field) (inr true) :: Ev (GetAttribute field "value") (inr old)
             :: label_evs ++ fill_evs).
Proof.
  intros Hold Hlabel [->|(value & r & rest & -> & Hrest)].
  { apply guarded_scan. rewrite app_nil_r. by repeat constructor. }
  set (reads := Ev (IsVisible field) (inr true) :: Ev (GetAttribute field "value") (inr old)
                  :: label_evs).
  assert (Hreads : Forall (fun e => is_scan e = true) reads) by by repeat constructor.
  split.
  - intros pre l value' r' post H.
    change (reads ++ Ev (Fill field value) r :: rest = pre ++ Ev (Fill l value') r' :: post) in H.
    apply first_write_split in H as (-> & Heq & _); [|done..].
    apply (f_equal action_of) in Heq. injection Heq as -> _.
    by exists [], old, label_evs.
  - intros pre l r' post H.
    change (reads ++ Ev (Fill field value) r :: rest = pre ++ Ev (Click l) r' :: post) in H.
    apply first_write_split in H as (_ & Heq & _); [|done..].
    by apply (f_equal action_of) in Heq.
Qed.

(** One text input. *)
Lemma guarded_field i :
  ext (let field := Nth text_inputs i in
       let* visible := perform World respond (IsVisible field) in
       if visible then
         let* value := perform World respond (GetAttribute field "value") in
         if negb (truthy value) then
           let* label := _get_label World respond field in
           let label := lower label in
           let* _ := for_break PROFILE (fun item =>
             if contains (fst item) label
             then perform World respond (Fill field (snd item));;
                  human_sleep World respond 0.5 1;; ret true
             else ret false) in
           ret tt
         else ret tt
       else ret tt)
      (fun evs _ => guarded evs).
Proof.
  cbn zeta. set (field := Nth text_inputs i).
  eapply ext_bind; [apply (guarded_call (IsVisible field))| |].
  { intros evs e ->. by apply guarded_scan; repeat constructor. }
  intros evs [] ->; [|by apply ext_ret, guarded_scan; repeat constructor].
  eapply ext_bind; [apply (guarded_call (GetAttribute field "value"))| |].
  { intros evs e ->. by apply guarded_scan; repeat constructor. }
  intros evs value ->.
  destruct (truthy value) eqn:Hvalue; cbn [negb];
    [by apply ext_ret, guarded_scan; repeat constructor|].
  eapply ext_bind with (Pm := fun evs _ => Forall (fun e => is_scan e = true) evs).
  { match goal with
    | |- ext ?m _ => change (emits (fun e => is_scan e = true) m)
    end.
    unfold _get_label. by repeat permitted_step. }
  { intros evs e Hevs. apply guarded_scan. by repeat constructor. }
  intros label_evs label Hlabel.
  eapply ext_bind; [apply (profile_loop_fills_once field (lower label) PROFILE)| |].
  - intros fill_evs e Hfill. by apply (guarded_one_fill field value label_evs fill_evs).
  - intros fill_evs b Hfill. apply ext_ret. rewrite app_nil_r.
    by apply (guarded_one_fill field value label_evs fill_evs).
Qed.

(** One answer of [ANSWERS] in one fieldset. *)
Lemma guarded_answer group text (item : string * string) :
  ext (if contains (fst item) text then
         let option := Within group ("label:has-text('" +:+ snd item +:+ "')") in
         let* visible := perform World respond (IsVisible option) in
         if visible then perform World respond (Click option);; human_sleep World respond 0.5 1
         else ret tt
       else ret tt)
      (fun evs _ => guarded evs).
Proof.
  destruct (contains _ text); [|apply ext_ret, guarded_nil].
  cbn zeta. set (option := Within group _).
  assert (Hclick : forall r rest,
            Forall (fun e => is_scan e = true) rest ->
            guarded (Ev (IsVisible option) (inr true) :: Ev (Click option) r :: rest)).
  { intros r rest Hrest. split.
    - intros pre l value r' post H.
      change ([Ev (IsVisible option) (inr true)] ++ Ev (Click option) r :: rest
              = pre ++ Ev (Fill l value) r' :: post) in H.
      apply first_write_split in H as (_ & Heq & _); [|by repeat constructor|done..].
      by apply (f_equal action_of) in Heq.
    - intros pre l r' post H.
      change ([Ev (IsVisible option) (inr true)] ++ Ev (Click option) r :: rest
              = pre ++ Ev (Click l) r' :: post) in H.
      apply first_write_split in H as (-> & Heq & _); [|by repeat constructor|done..].
      apply (f_equal action_of) in Heq. injection Heq as ->. by exists []. }
  eapply ext_bind; [apply (guarded_call (IsVisible option))| |].
  { intros evs e ->. by apply guarded_scan; repeat constructor. }
  intros evs [] ->; [|by apply ext_ret, guarded_scan; repeat constructor].
  eapply ext_bind; [apply (guarded_call (Click option))| |].
  - intros evs e ->. by apply Hclick.
  - intros evs u ->. eapply ext_mono; [apply (guarded_call (HumanSleep 0.5 1))|].
    intros evs r ->. apply Hclick. by repeat constructor.
Qed.

(** X19. [_fill_smart_fields] never raises, and it writes only behind its
    guards, in this order of calls: a text input is filled only after it
    was found visible and then its [value] attribute was read as empty,
    with neither a fill nor a click in between; an option of a
    fieldset is clicked only directly after it was found visible. *)
Theorem fill_guarded (s : BotState World) :
  let run := _fill_smart_fields World respond s in
  run.1 = inr tt /\
  exists evs, trace run.2 = trace s ++ evs /\ guarded evs.
Proof.
  cbn zeta. split; [apply fill_never_raises|].
  revert s. change (ext (_fill_smart_fields World respond) (fun evs _ => guarded evs)).
  unfold _fill_smart_fields.
  eapply ext_try with (Pm := fun evs _ => guarded evs); [|done|].
  - apply guarded_bind; [apply guarded_emits; by repeat permitted_step|]. intros count.
    apply guarded_bind; [apply guarded_for_do; intros i; apply guarded_field|]. intros _.
    apply guarded_bind; [apply guarded_emits; by repeat permitted_step|]. intros count'.
    apply guarded_for_do. intros i.
    apply guarded_bind; [apply guarded_emits; by repeat permitted_step|]. intros text.
    apply guarded_bind; [apply guarded_emits; by repeat permitted_step|]. intros text'.
    apply guarded_for_do. intros item. apply guarded_answer.
  - intros evs e Hevs. apply ext_ret. by rewrite app_nil_r.
Qed.

(** X20. [_handle_upload] never raises, and it uploads only the given
    résumé path, only into the file input, and only after that input was
    found visible and its [value] attribute was read as empty. *)
Theorem upload_guarded rp (s : BotState World) :
  let run := _handle_upload World respond rp s in
  run.1 = inr tt /\
  exists evs,
    trace run.2 = trace s ++ evs /\
    forall e l path, In e evs -> action_of e = SetInputFiles l path ->
      l = file_input /\ path = rp /\
      exists old, truthy old = false /\
        firstn 2 evs = [Ev (IsVisible file_input) (inr true);
                        Ev (GetAttribute file_input "value") (inr old)].
Proof.
  cbn zeta. split; [apply upload_never_raises|].
  unfold _handle_upload, try_except, bind, human_sleep, perform, ret. cbn [world trace].
  fold file_input.
  destruct (respond (IsVisible file_input) (world s)) as [[e|[]] w1]; cbn.
  1,3: eexists; split; [reflexivity|]; by intros e' l path [<-|[]].
  destruct (respond (GetAttribute file_input "value") w1) as [[e|old] w2]; cbn.
  { eexists. split; [by rewrite <- app_assoc|]. by intros e' l path [<-|[<-|[]]]. }
  destruct (truthy old) eqn:Hold; cbn.
  { eexists. split; [by rewrite <- app_assoc|]. by intros e' l path [<-|[<-|[]]]. }
  destruct (respond (SetInputFiles file_input rp) w2) as [[e|[]] w3]; cbn.
  { eexists. split; [by rewrite <- !app_assoc|].
    intros e' l path [<-|[<-|[<-|[]]]]; try done. intros [= <- <-]. eauto. }
  destruct (respond (HumanSleep 2 4) w3) as [[e|[]] w4]; cbn.
  all: eexists; (split; [by rewrite <- !app_assoc|]);
    intros e' l path [<-|[<-|[<-|[<-|[]]]]]; try done; intros [= <- <-]; eauto.
Qed.

(** X21. A fault of [start_browser] is not caught: when the page is not
    yet set and launching the browser raises, [apply_to_job] raises the
    same exception and makes no further call. *)
Theorem start_browser_fault_escapes DRY_RUN url rp (s : BotState World) e :
  page s = false -> (start_browser World respond s).1 = inl e ->
  apply_to_job World respond DRY_RUN url rp s = (inl e, (start_browser World respond s).2).
Proof.
  intros Hpage Hstart. unfold apply_to_job, bind at 1 2, get_page. rewrite Hpage.
  destruct (start_browser World respond s) as [[e'|[]] s']; cbn in Hstart |- *; congruence.
Qed.

(** X22. With the page set, [apply_to_job] does not launch the browser
    again: no call of [start_browser] is made. *)
Theorem started_never_relaunches DRY_RUN url rp (s : BotState World) :
  page s = true ->
  exists evs,
    trace (apply_to_job World respond DRY_RUN url rp s).2 = trace s ++ evs /\
    Forall (fun e => launches (action_of e) = false) evs.
Proof.
  intros Hpage. rewrite (apply_to_job_started respond DRY_RUN url rp s Hpage).
  match goal with
  | |- context [try_except ?b ?h s] =>
      assert (H : emits (fun e => launches (action_of e) = false) (try_except b h))
        by emits_all ltac:(by cbn)
  end.
  exact (H s).
Qed.

(** X23. [self.page] is set by [start_browser] exactly when the run
    reached [add_init_script]: a fault of an earlier call leaves it
    unset, a fault of [add_init_script] itself comes after the assignment. *)
Theorem start_browser_sets_page (s : BotState World) :
  page s = false ->
  let run := start_browser World respond s in
  page run.2 = true <-> exists evs r, trace run.2 = trace s ++ evs ++ [Ev AddInitScript r].
Proof.
  intros Hpage. cbn zeta.
  unfold start_browser, bind, perform, set_page, ret. cbn [world trace page].
  assert (Hlast : forall (pre : list Event) a ra evs r,
            a <> AddInitScript ->
            trace s ++ pre ++ [Ev a ra] = trace s ++ evs ++ [Ev AddInitScript r] -> False).
  { intros pre a ra evs r Ha Heq. apply app_inv_head, app_inj_tail in Heq as [_ Heq].
    by apply (f_equal action_of) in Heq. }
  destruct (respond PlaywrightStart (world s)) as [[e|[]] w1]; cbn.
  { rewrite Hpage. split; [done|]. intros (evs & r & Heq). by destruct (Hlast [] PlaywrightStart _ _ _ ltac:(done) Heq). }
  destruct (respond LaunchPersistentContext w1) as [[e|[]] w2]; cbn.
  { rewrite Hpage. split; [done|]. intros (evs & r & Heq).
    rewrite <- app_assoc in Heq. by destruct (Hlast [_] LaunchPersistentContext _ _ _ ltac:(done) Heq). }
  destruct (respond ContextPages w2) as [[e|pages] w3]; cbn.
  { rewrite Hpage. split; [done|]. intros (evs & r & Heq).
    rewrite <- !app_assoc in Heq. by destruct (Hlast [_; _] ContextPages _ _ _ ltac:(done) Heq). }
  destruct pages; cbn.
  - destruct (respond AddInitScript w3) as [r w4]; cbn.
    split; [|by destruct r]. intros _. eexists [_; _; _], r.
    rewrite <- !app_assoc. reflexivity.
  - destruct (respond NewPage w3) as [[e|[]] w4]; cbn.
    { rewrite Hpage. split; [done|]. intros (evs & r & Heq).
      rewrite <- !app_assoc in Heq. by destruct (Hlast [_; _; _] NewPage _ _ _ ltac:(done) Heq). }
    destruct (respond AddInitScript w4) as [r w5]; cbn.
    split; [|by destruct r]. intros _. eexists [_; _; _; _], r.
    rewrite <- !app_assoc. reflexivity.
Qed.

(** *** How a run ends *)

Lemma ends_with_prefix tail evs evs' : ends_with tail evs' -> ends_with tail (evs ++ evs').
Proof. intros [evs0 ->]. exists (evs ++ evs0). by rewrite app_assoc. Qed.

Lemma fault_last_prefix evs evs' e : fault_last evs' e -> fault_last (evs ++ evs') e.
Proof. intros (a & evs0 & ->). exists a, (evs ++ evs0). by rewrite app_assoc. Qed.

Lemma step_ends_prefix DRY_RUN evs evs' r :
  step_ends DRY_RUN evs' r -> step_ends DRY_RUN (evs ++ evs') r.
Proof.
  destruct r as [e|[str|]]; cbn; [apply fault_last_prefix| |done].
  intros (tail & o & Htail & Ho & ->). exists tail, o. split; [|done].
  by apply ends_with_prefix.
Qed.

(** The statements C and D of the form loop and the two that follow. *)
Lemma form_buttons_end DRY_RUN :
  ext ((let* visible := perform World respond (IsVisible (Locate submit_selector)) in
        if visible then
          (if negb DRY_RUN then
             try_except
               (human_click World respond submit_selector;;
                human_sleep World respond 3 5;; ret None)
               (fun e => ret (Some ("Failed (Submit error: " +:+ exn_msg e +:+ ")")))
           else ret None) ;;;
          ret (Some "Success")
        else ret None) ;;;
       (let* visible := perform World respond (IsVisible (Locate next_selector)) in
        if visible then human_click World respond next_selector;; ret None
        else
          let* visible := perform World respond (IsVisible (Locate review_selector)) in
          if visible then human_click World respond review_selector;; ret None
          else
            let* visible := perform World respond (IsVisible (Locate error_selector)) in
            if visible then ret (Some "Failed (Form Error)")
            else ret (Some "Failed (Stuck)")) ;;;
       (human_sleep World respond 2 3;; ret None) ;;;
       ret (Some "Failed (Too many steps)"))
      (step_ends DRY_RUN).
Proof.
  intros s.
  unfold seq_stmt, try_except, bind, human_click, human_sleep, perform, ret.
  cbn [world trace].
  repeat match goal with
         | |- context [respond ?a ?w] =>
             let r := fresh "r" in
             let w' := fresh "w" in
             destruct (respond a w) as [[?|r] w'];
             [|try destruct r]; cbn [negb fst snd world trace]
         | |- context [negb DRY_RUN] => destruct DRY_RUN; cbn [negb fst snd world trace]
         end.
  all: eexists; (split; [by rewrite <- ?app_assoc|]); cbn [app step_ends].
  all: try (by eexists _, []).
  all: try (by eexists _, [_]).
  all: try (by eexists _, [_; _]).
  all: try (by eexists _, [_; _; _]).
  all: try (by eexists _, [_; _; _; _]).
  all: eexists _, _; (split; [by exists []|]); split; [by constructor|reflexivity].
Qed.

Lemma form_step_ends DRY_RUN rp step :
  ext (form_step World respond DRY_RUN rp step) (step_ends DRY_RUN).
Proof.
  unfold form_step.
  eapply ext_bind with (Pm := fun _ r => r = inr None).
  { intros s. destruct (post_fill respond s) as (evs & Htrace & _).
    exists evs. unfold bind in *. pose proof (fill_never_raises respond s) as Hr.
    destruct (_fill_smart_fields World respond s) as [[e|[]] s']; by cbn in *. }
  { by intros evs e. }
  intros evs1 r1 [= ->].
  eapply ext_bind with (Pm := fun _ r => r = inr None).
  { intros s. destruct (post_upload respond rp s) as (evs & Htrace & _).
    exists evs. unfold bind in *. pose proof (upload_never_raises respond rp s) as Hr.
    destruct (_handle_upload World respond rp s) as [[e|[]] s']; by cbn in *. }
  { by intros evs e. }
  intros evs2 r2 [= ->].
  eapply ext_mono; [apply (form_buttons_end DRY_RUN)|].
  intros evs r Hr. by apply step_ends_prefix, step_ends_prefix.
Qed.

(** One candidate of the apply button. *)
Lemma apply_candidate_ends selector :
  ext (try_except
         (let loc := Locate selector in
          let* n := perform World respond (Count loc) in
          if 0 <? n then
            let* visible := perform World respond (IsVisible (First loc)) in
            if visible then human_click World respond selector;; ret true else ret false
          else ret false)
         (fun _ => human_sleep World respond 0.7 1.5;; ret false))
      (fun evs r =>
         match r with
         | inl e => fault_last evs e
         | inr clicked => clicked = false -> Forall (fun e => no_effect e = true) evs
         end).
Proof.
  intros s.
  unfold try_except, bind, human_click, human_sleep, perform, ret. cbn [world trace].
  destruct (respond (Count (Locate selector)) (world s)) as [[e|n] w1];
    cbn [fst snd world trace].
  2: destruct (0 <? n); cbn [fst snd world trace].
  2: destruct (respond (IsVisible (First (Locate selector))) w1) as [[e|[]] w2];
    cbn [fst snd world trace].
  3: destruct (respond (HumanClick selector) w2) as [[e|[]] w3]; cbn [fst snd world trace].
  all: repeat match goal with
         | |- context [respond (HumanSleep ?lo ?hi) ?w] =>
             destruct (respond (HumanSleep lo hi) w) as [[?|[]] ?]; cbn [fst snd world trace]
         end.
  all: eexists; (split; [by rewrite <- ?app_assoc|]); cbn [app].
  all: try (by intros; repeat constructor).
  all: try (by eexists _, []).
  all: try (by eexists _, [_]).
  all: try (by eexists _, [_; _]).
  all: try (by eexists _, [_; _; _]).
Qed.

Lemma apply_scan_ends (l : list string) :
  ext (for_break l (fun selector =>
         try_except
           (let loc := Locate selector in
            let* n := perform World respond (Count loc) in
            if 0 <? n then
              let* visible := perform World respond (IsVisible (First loc)) in
              if visible then human_click World respond selector;; ret true else ret false
            else ret false)
           (fun _ => human_sleep World respond 0.7 1.5;; ret false)))
      (fun evs r =>
         match r with
         | inl e => fault_last evs e
         | inr clicked => clicked = false -> Forall (fun e => no_effect e = true) evs
         end).
Proof.
  induction l as [|selector l IH]; cbn [for_break].
  - by apply ext_ret.
  - eapply ext_bind; [apply apply_candidate_ends|done|].
    intros evs [] Hevs.
    + apply ext_ret. done.
    + eapply ext_mono; [exact IH|]. intros evs' [e|clicked]; cbn.
      * apply fault_last_prefix.
      * intros H ->. apply Forall_app. split; [by apply Hevs|by apply H].
Qed.

Lemma body_ends_quiet DRY_RUN a (f : ret_type a -> PyM (BotState World) (option string)) :
  (forall r, no_effect (Ev a r) = true) ->
  (forall v, ext (f v) (body_ends DRY_RUN)) ->
  ext (bind (perform World respond a) f) (body_ends DRY_RUN).
Proof.
  intros Ha Hf. eapply ext_bind; [apply (guarded_call a)| |].
  - intros evs e ->. by exists a, [].
  - intros evs v ->. eapply ext_mono; [apply Hf|].
    intros evs' [e|[str|]]; [apply fault_last_prefix| |done].
    intros (o & -> & Ho & Hne). exists o. split; [done|]. split; [|done].
    destruct o; cbn [run_outcome] in Ho |- *;
      try (destruct Ho as (tail & Htail & Ho); exists tail; split; [|done];
           by apply (ends_with_prefix _ [_])).
    + constructor; [apply Ha|done].
    + by destruct (Hne detail).
Qed.

Lemma step_ends_body DRY_RUN evs r : step_ends DRY_RUN evs r -> body_ends DRY_RUN evs r.
Proof.
  destruct r as [e|[str|]]; cbn; try done.
  intros (tail & o & Htail & Ho & ->). exists o. split; [done|].
  split; [|by inversion Ho].
  destruct o; cbn [run_outcome]; try (by exists tail); by inversion Ho.
Qed.

Lemma apply_body_ends DRY_RUN url rp :
  ext (perform World respond (Goto url 60000);;
       human_sleep World respond 3 5;;
       perform World respond (SimulateReading "h1");;
       let* clicked := for_break apply_locators (fun selector =>
         try_except
           (let loc := Locate selector in
            let* n := perform World respond (Count loc) in
            if 0 <? n then
              let* visible := perform World respond (IsVisible (First loc)) in
              if visible then human_click World respond selector;; ret true else ret false
            else ret false)
           (fun _ => human_sleep World respond 0.7 1.5;; ret false)) in
       (if negb clicked then ret (Some "Skipped") else ret None) ;;;
       (human_sleep World respond 2 3;; ret None) ;;;
       for_each (range max_steps) (form_step World respond DRY_RUN rp))
      (body_ends DRY_RUN).
Proof.
  unfold human_sleep at 1.
  apply (body_ends_quiet DRY_RUN (Goto url 60000)); [done|]. intros _.
  apply (body_ends_quiet DRY_RUN (HumanSleep 3 5)); [done|]. intros _.
  apply (body_ends_quiet DRY_RUN (SimulateReading "h1")); [done|]. intros _.
  eapply ext_bind; [apply apply_scan_ends|done|].
  intros evs [] Hevs; cbn [negb]; unfold seq_stmt at 1.
  - apply (ext_mono _ (step_ends DRY_RUN));
      [|intros evs' r Hr; by apply step_ends_body, step_ends_prefix].
    unfold bind at 1, ret at 1. unfold seq_stmt at 1, human_sleep.
    eapply ext_bind with (Pm := fun evs r => r = inr None \/ exists e, r = inl e /\ fault_last evs e).
    { eapply ext_bind; [apply (guarded_call (HumanSleep 2 3))| |].
      - intros evs' e ->. right. exists e. split; [done|]. by exists (HumanSleep 2 3), [].
      - intros evs' v ->. apply ext_ret. by left. }
    { intros evs' e [|(e' & [= <-] & H)]; done. }
    intros evs' r [[= ->]|(e & ? & _)]; [|done].
    intros s. rewrite (form_loop_first_step respond DRY_RUN rp s).
    destruct (form_step_ends DRY_RUN rp 0 s) as (evs'' & Htrace & Hr).
    exists evs''. split; [done|]. by apply step_ends_prefix.
  - unfold bind at 1, ret at 1. apply ext_ret. exists Skipped.
    split; [done|]. split; [|done]. cbn. rewrite app_nil_r. by apply Hevs.
Qed.

(** With the page set, a run ends with the string of one outcome, and its
    events are those of that outcome. *)
Lemma apply_to_job_ends DRY_RUN url rp (s : BotState World) :
  page s = true ->
  let run := apply_to_job World respond DRY_RUN url rp s in
  exists evs o,
    trace run.2 = trace s ++ evs /\
    run.1 = inr (Some (outcome_string o)) /\
    run_outcome DRY_RUN evs o.
Proof.
  intros Hpage. cbn zeta. rewrite (apply_to_job_started respond DRY_RUN url rp s Hpage).
  match goal with
  | |- context [try_except ?b ?h s] =>
      assert (H : ext (try_except b h)
                    (fun evs r => exists o, r = inr (Some (outcome_string o)) /\
                                            run_outcome DRY_RUN evs o))
  end.
  { eapply ext_try; [apply (apply_body_ends DRY_RUN url rp)| |].
    - intros evs [str|]; cbn; [|done]. intros (o & -> & Ho & _). by exists o.
    - intros evs e He. apply ext_ret. exists (FailedException (exn_msg e)).
      split; [done|]. cbn. exists e. by rewrite app_nil_r. }
  destruct (H s) as (evs & Htrace & o & Hr & Ho). by exists evs, o.
Qed.

(** *** The shape of a run *)

Lemma early_fill : emits (fun ev => early ev = true) (_fill_smart_fields World respond).
Proof.
  unfold _fill_smart_fields, _get_label, human_sleep.
  repeat permitted_step;
    match goal with |- early (Ev _ ?r) = true => by destruct r end.
Qed.

Lemma early_upload rp : emits (fun ev => early ev = true) (_handle_upload World respond rp).
Proof.
  unfold _handle_upload, human_sleep.
  repeat permitted_step;
    match goal with |- early (Ev _ ?r) = true => by destruct r end.
Qed.

Lemma step_shape_prefix DRY_RUN pre evs r :
  Forall (fun ev => early ev = true) pre ->
  step_shape DRY_RUN evs r -> step_shape DRY_RUN (pre ++ evs) r.
Proof.
  intros Hpre. destruct r as [e|[str|]]; cbn [step_shape]; [| |done].
  - intros (evs0 & tail & -> & Hevs0 & Htail). exists (pre ++ evs0), tail.
    split; [by rewrite app_assoc|]. split; [by apply Forall_app|done].
  - intros (evs0 & tail & o & -> & Hevs0 & Htail). exists (pre ++ evs0), tail, o.
    split; [by rewrite app_assoc|]. split; [by apply Forall_app|done].
Qed.

(** The statements C and D of the form loop and the two that follow. *)
Lemma form_buttons_shape DRY_RUN :
  ext ((let* visible := perform World respond (IsVisible (Locate submit_selector)) in
        if visible then
          (if negb DRY_RUN then
             try_except
               (human_click World respond submit_selector;;
                human_sleep World respond 3 5;; ret None)
               (fun e => ret (Some ("Failed (Submit error: " +:+ exn_msg e +:+ ")")))
           else ret None) ;;;
          ret (Some "Success")
        else ret None) ;;;
       (let* visible := perform World respond (IsVisible (Locate next_selector)) in
        if visible then human_click World respond next_selector;; ret None
        else
          let* visible := perform World respond (IsVisible (Locate review_selector)) in
          if visible then human_click World respond review_selector;; ret None
          else
            let* visible := perform World respond (IsVisible (Locate error_selector)) in
            if visible then ret (Some "Failed (Form Error)")
            else ret (Some "Failed (Stuck)")) ;;;
       (human_sleep World respond 2 3;; ret None) ;;;
       ret (Some "Failed (Too many steps)"))
      (step_shape DRY_RUN).
Proof.
  intros s.
  unfold seq_stmt, try_except, bind, human_click, human_sleep, perform, ret.
  cbn [world trace].
  repeat match goal with
         | |- context [respond ?a ?w] =>
             let r := fresh "r" in
             let w' := fresh "w" in
             destruct (respond a w) as [[?|r] w'];
             [|try destruct r]; cbn [negb fst snd world trace]
         | |- context [negb DRY_RUN] => destruct DRY_RUN; cbn [negb fst snd world trace]
         end.
  all: eexists; (split; [by rewrite <- ?app_assoc|]); cbn [app step_shape].
  all: try (eexists [], _, _; (split; [reflexivity|]); (split; [constructor|]);
            split; [by constructor|reflexivity]).
  all: eexists [], _; (split; [reflexivity|]); (split; [constructor|]).
  all: first [ by eexists [], _; split; [reflexivity|]; repeat split; repeat constructor
             | by eexists [_], _; split; [reflexivity|]; repeat split; repeat constructor
             | by eexists [_; _], _; split; [reflexivity|]; repeat split; repeat constructor
             | by eexists [_; _; _], _; split; [reflexivity|]; repeat split; repeat constructor
             | by eexists [_; _; _; _], _; split; [reflexivity|]; repeat split;
                 repeat constructor ].
Qed.

Lemma form_step_shape DRY_RUN rp step :
  ext (form_step World respond DRY_RUN rp step) (step_shape DRY_RUN).
Proof.
  unfold form_step.
  eapply ext_bind with
    (Pm := fun evs r => r = inr None /\ Forall (fun ev => early ev = true) evs).
  { intros s. destruct (early_fill s) as (evs & Htrace & Hevs).
    exists evs. unfold bind in *. pose proof (fill_never_raises respond s) as Hr.
    destruct (_fill_smart_fields World respond s) as [[e|[]] s']; by cbn in *. }
  { by intros evs e []. }
  intros evs1 r1 [[= ->] Hevs1].
  eapply ext_bind with
    (Pm := fun evs r => r = inr None /\ Forall (fun ev => early ev = true) evs).
  { intros s. destruct (early_upload rp s) as (evs & Htrace & Hevs).
    exists evs. unfold bind in *. pose proof (upload_never_raises respond rp s) as Hr.
    destruct (_handle_upload World respond rp s) as [[e|[]] s']; by cbn in *. }
  { by intros evs e []. }
  intros evs2 r2 [[= ->] Hevs2].
  eapply ext_mono; [apply (form_buttons_shape DRY_RUN)|].
  intros evs r Hr. by apply step_shape_prefix, step_shape_prefix.
Qed.

Lemma calm_app evs1 evs2 : calm evs1 = true -> calm evs2 = true -> calm (evs1 ++ evs2) = true.
Proof.
  unfold calm. rewrite last_app. by destruct (last evs2).
Qed.

(** One candidate of the apply button: a fault of its probe or of its click is
    followed by the wait of the handler, and only a fault of that wait
    leaves the guard. *)
Lemma apply_candidate_shape selector :
  In selector apply_locators ->
  ext (try_except
         (let loc := Locate selector in
          let* n := perform World respond (Count loc) in
          if 0 <? n then
            let* visible := perform World respond (IsVisible (First loc)) in
            if visible then human_click World respond selector;; ret true else ret false
          else ret false)
         (fun _ => human_sleep World respond 0.7 1.5;; ret false))
      (fun evs r =>
         match r with
         | inl e =>
             exists evs0,
               evs = evs0 ++ [Ev (HumanSleep 0.7 1.5) (inl e)] /\
               Forall (fun ev => early ev = true) evs0
         | inr _ => Forall (fun ev => early ev = true) evs /\ calm evs = true
         end).
Proof.
  intros Hin s.
  assert (Hclick : forall r, early (Ev (HumanClick selector) r) = true).
  { intros r. unfold apply_locators in Hin. cbn in Hin.
    repeat (destruct Hin as [<-|Hin]; [by destruct r|]). done. }
  unfold try_except, bind, human_click, human_sleep, perform, ret. cbn [world trace].
  destruct (respond (Count (Locate selector)) (world s)) as [[e|n] w1];
    cbn [fst snd world trace].
  2: destruct (0 <? n); cbn [fst snd world trace].
  2: destruct (respond (IsVisible (First (Locate selector))) w1) as [[e|[]] w2];
    cbn [fst snd world trace].
  3: destruct (respond (HumanClick selector) w2) as [[e|[]] w3]; cbn [fst snd world trace].
  all: repeat match goal with
         | |- context [respond (HumanSleep ?lo ?hi) ?w] =>
             destruct (respond (HumanSleep lo hi) w) as [[?|[]] ?]; cbn [fst snd world trace]
         end.
  all: eexists; (split; [by rewrite <- ?app_assoc|]); cbn [app].
  all: try (split; [by repeat constructor|reflexivity]).
  all: first [ by eexists [_]; split; [reflexivity|]; repeat constructor
             | by eexists [_; _]; split; [reflexivity|]; repeat constructor
             | by eexists [_; _; _]; split; [reflexivity|]; repeat constructor ].
Qed.

Lemma apply_scan_shape (l : list string) :
  (forall selector, In selector l -> In selector apply_locators) ->
  ext (for_break l (fun selector =>
         try_except
           (let loc := Locate selector in
            let* n := perform World respond (Count loc) in
            if 0 <? n then
              let* visible := perform World respond (IsVisible (First loc)) in
              if visible then human_click World respond selector;; ret true else ret false
            else ret false)
           (fun _ => human_sleep World respond 0.7 1.5;; ret false)))
      (fun evs r =>
         match r with
         | inl e =>
             exists evs0,
               evs = evs0 ++ [Ev (HumanSleep 0.7 1.5) (inl e)] /\
               Forall (fun ev => early ev = true) evs0
         | inr _ => Forall (fun ev => early ev = true) evs /\ calm evs = true
         end).
Proof.
  intros Hl. induction l as [|selector l IH]; cbn [for_break].
  - by apply ext_ret.
  - eapply ext_bind; [apply apply_candidate_shape, Hl; by left|done|].
    intros evs [] [Hevs Hcalm].
    + apply ext_ret. by rewrite app_nil_r.
    + eapply ext_mono; [apply IH; intros; apply Hl; by right|].
      intros evs' [e|clicked].
      * intros (evs0 & -> & Hevs0). exists (evs ++ evs0).
        split; [by rewrite app_assoc|]. by apply Forall_app.
      * intros [Hevs' Hcalm']. split; [by apply Forall_app|by apply calm_app].
Qed.

(** A call outside the guards that went through, then the rest. *)
Lemma body_shape_call DRY_RUN a (f : ret_type a -> PyM (BotState World) (option string)) :
  is_form_call a = false -> absorbed a = false ->
  (forall v, ext (f v) (body_shape DRY_RUN)) ->
  ext (bind (perform World respond a) f) (body_shape DRY_RUN).
Proof.
  intros Hform Ha Hf.
  assert (Hsubmit : is_submit_click a = false).
  { destruct a; try done. cbn in Hform |- *. by destruct (String.eqb selector submit_selector). }
  assert (Hearly : forall v, early (Ev a (inr v)) = true).
  { intros v. unfold early. cbn [action_of]. by rewrite Hform. }
  eapply ext_bind; [apply (guarded_call a)| |].
  - intros evs e ->. exists [], [Ev a (inl e)]. split; [done|]. split; [constructor|].
    exists [], a. by repeat split.
  - intros evs v ->. eapply ext_mono; [apply Hf|].
    intros evs' [e|[str|]]; cbn [body_shape]; [| |done].
    + intros (evs0 & tail & -> & Hevs0 & Htail). exists (Ev a (inr v) :: evs0), tail.
      split; [done|]. split; [by constructor|done].
    + intros (o & -> & Ho & Hne). exists o. split; [done|]. split; [|done].
      destruct o; cbn [run_shape] in Ho |- *;
        try (destruct Ho as (evs0 & tail & -> & Hevs0 & Ho);
             exists (Ev a (inr v) :: evs0), tail;
             split; [done|]; split; [by constructor|done]).
      * destruct Ho as [Hevs' Hcalm]. split; [by constructor|].
        by apply (calm_app [_]).
      * by destruct (Hne detail).
Qed.

Lemma step_shape_body DRY_RUN evs r : step_shape DRY_RUN evs r -> body_shape DRY_RUN evs r.
Proof.
  destruct r as [e|[str|]]; cbn [step_shape body_shape]; try done.
  intros (evs0 & tail & o & -> & Hevs0 & Ho & ->). exists o. split; [done|].
  split; [|by inversion Ho].
  destruct o; cbn [run_shape]; try (by exists evs0, tail); by inversion Ho.
Qed.

Lemma apply_body_shape DRY_RUN url rp :
  ext (perform World respond (Goto url 60000);;
       human_sleep World respond 3 5;;
       perform World respond (SimulateReading "h1");;
       let* clicked := for_break apply_locators (fun selector =>
         try_except
           (let loc := Locate selector in
            let* n := perform World respond (Count loc) in
            if 0 <? n then
              let* visible := perform World respond (IsVisible (First loc)) in
              if visible then human_click World respond selector;; ret true else ret false
            else ret false)
           (fun _ => human_sleep World respond 0.7 1.5;; ret false)) in
       (if negb clicked then ret (Some "Skipped") else ret None) ;;;
       (human_sleep World respond 2 3;; ret None) ;;;
       for_each (range max_steps) (form_step World respond DRY_RUN rp))
      (body_shape DRY_RUN).
Proof.
  unfold human_sleep at 1.
  apply (body_shape_call DRY_RUN (Goto url 60000)); [done..|]. intros _.
  apply (body_shape_call DRY_RUN (HumanSleep 3 5)); [done..|]. intros _.
  apply (body_shape_call DRY_RUN (SimulateReading "h1")); [done..|]. intros _.
  eapply ext_bind; [by apply apply_scan_shape| |].
  { intros evs e (evs0 & -> & Hevs0). exists evs0, [Ev (HumanSleep 0.7 1.5) (inl e)].
    split; [done|]. split; [done|]. exists [], (HumanSleep 0.7 1.5). by repeat split. }
  intros evs [] [Hevs Hcalm]; cbn [negb]; unfold seq_stmt at 1.
  - apply (ext_mono _ (step_shape DRY_RUN));
      [|intros evs' r Hr; by apply step_shape_body, step_shape_prefix].
    unfold bind at 1, ret at 1. unfold seq_stmt at 1, human_sleep.
    eapply ext_bind with
      (Pm := fun evs r => (r = inr None /\ evs = [slept 2 3]) \/
                          exists e, r = inl e /\ evs = [Ev (HumanSleep 2 3) (inl e)]).
    { eapply ext_bind; [apply (guarded_call (HumanSleep 2 3))| |].
      - intros evs' e ->. right. by exists e.
      - intros evs' [] ->. apply ext_ret. by left. }
    { intros evs' e [[]|(e' & [= <-] & ->)]; [done|].
      exists [], [Ev (HumanSleep 2 3) (inl e)]. split; [done|]. split; [constructor|].
      exists [], (HumanSleep 2 3). by repeat split. }
    intros evs' r [[[= ->] ->]|(e & ? & _)]; [|done].
    intros s. rewrite (form_loop_first_step respond DRY_RUN rp s).
    destruct (form_step_shape DRY_RUN rp 0 s) as (evs'' & Htrace & Hr).
    exists evs''. split; [done|]. apply step_shape_prefix; [|done]. by repeat constructor.
  - unfold bind at 1, ret at 1. apply ext_ret. exists Skipped.
    split; [done|]. split; [|done]. cbn. by rewrite app_nil_r.
Qed.

(** With the page set, a run ends with the string of one outcome, and its
    events have the shape of that outcome. *)
Lemma apply_to_job_shape DRY_RUN url rp (s : BotState World) :
  page s = true ->
  let run := apply_to_job World respond DRY_RUN url rp s in
  exists evs o,
    trace run.2 = trace s ++ evs /\
    run.1 = inr (Some (outcome_string o)) /\
    run_shape DRY_RUN evs o.
Proof.
  intros Hpage. cbn zeta. rewrite (apply_to_job_started respond DRY_RUN url rp s Hpage).
  match goal with
  | |- context [try_except ?b ?h s] =>
      assert (H : ext (try_except b h)
                    (fun evs r => exists o, r = inr (Some (outcome_string o)) /\
                                            run_shape DRY_RUN evs o))
  end.
  { eapply ext_try; [apply (apply_body_shape DRY_RUN url rp)| |].
    - intros evs [str|]; cbn; [|done]. intros (o & -> & Ho & _). by exists o.
    - intros evs e (evs0 & tail & -> & Hevs0 & Htail). apply ext_ret.
      exists (FailedException (exn_msg e)). split; [done|]. cbn [run_shape].
      exists e, evs0, tail. by rewrite app_nil_r. }
  destruct (H s) as (evs & Htrace & o & Hr & Ho). by exists evs, o.
Qed.

(** *** Which faults end a run *)

Lemma early_fault ev :
  early ev = true -> faulted ev = true -> absorbed (action_of ev) = true.
Proof.
  unfold early. intros H Hf. rewrite Hf in H. cbn in H.
  by apply andb_true_iff in H as [_ H].
Qed.

Lemma early_not_form ev : early ev = true -> is_form_call (action_of ev) = false.
Proof.
  unfold early. intros H. apply andb_true_iff in H as [H _]. by apply negb_true_iff.
Qed.

Lemma form_outcome_tail DRY_RUN tail o :
  form_outcome DRY_RUN tail o ->
  exists init lastev,
    tail = init ++ [lastev] /\ Forall (fun ev => faulted ev = false) init /\
    absorbed (action_of lastev) = false.
Proof.
  intros H. inversion H; subst.
  - by eexists [], _.
  - eexists [_; _], _. split; [reflexivity|]. by repeat constructor.
  - eexists [_], _. split; [reflexivity|]. by repeat constructor.
  - eexists [_; _], _. split; [reflexivity|]. by repeat constructor.
  - eexists [_; _; _], _. split; [reflexivity|]. by repeat constructor.
  - eexists [_; _; _], _. split; [reflexivity|]. by repeat constructor.
  - eexists [_; _; _], _. split; [reflexivity|]. by repeat constructor.
  - eexists [_; _; _; _], _. split; [reflexivity|]. by repeat constructor.
Qed.

(** In a list of events whose faults were all swallowed, closed by a call
    outside the swallowing guards, a fault is last exactly when its call
    is not a swallowed one. *)
Lemma fault_position (events : list Event) lastev pre ev post :
  Forall (fun ev => faulted ev = true -> absorbed (action_of ev) = true) events ->
  absorbed (action_of lastev) = false ->
  events ++ [lastev] = pre ++ ev :: post -> faulted ev = true ->
  (post = [] <-> absorbed (action_of ev) = false).
Proof.
  intros Hevents Hlast Heq Hfault. destruct post as [|p post].
  - change (events ++ [lastev] = pre ++ [ev]) in Heq.
    apply app_inj_tail in Heq as [_ <-]. done.
  - destruct (app_cons_split _ _ _ _ _ Heq) as [(post1 & -> & _)|(pre2 & -> & H)].
    + apply Forall_app in Hevents as [_ Hevents].
      apply Forall_cons_1 in Hevents as [Hev _]. rewrite (Hev Hfault). done.
    + destruct pre2 as [|? [|? ?]]; done.
Qed.

Lemma run_fault_position DRY_RUN evs o pre ev post :
  run_shape DRY_RUN evs o ->
  evs = pre ++ ev :: post -> faulted ev = true ->
  (post = [] <-> absorbed (action_of ev) = false).
Proof.
  intros Hshape Heq Hfault.
  assert (Hearly : forall evs0, Forall (fun ev => early ev = true) evs0 ->
            Forall (fun ev => faulted ev = true -> absorbed (action_of ev) = true) evs0).
  { intros evs0 H. eapply Forall_impl; [exact H|]. intros ev'. apply early_fault. }
  assert (Hquiet : forall init, Forall (fun ev => faulted ev = false) init ->
            Forall (fun ev => faulted ev = true -> absorbed (action_of ev) = true) init).
  { intros init H. eapply Forall_impl; [exact H|]. intros ev' H1 H2. congruence. }
  assert (Hform : forall evs0 tail o',
            evs = evs0 ++ tail -> Forall (fun ev => early ev = true) evs0 ->
            form_outcome DRY_RUN tail o' ->
            (post = [] <-> absorbed (action_of ev) = false)).
  { intros evs0 tail o' -> Hevs0 Ho.
    destruct (form_outcome_tail _ _ _ Ho) as (init & lastev & -> & Hinit & Hlast).
    rewrite app_assoc in Heq.
    apply (fault_position (evs0 ++ init) lastev pre ev post); try done.
    apply Forall_app. split; [by apply Hearly|by apply Hquiet]. }
  destruct o; cbn [run_shape] in Hshape;
    try (destruct Hshape as (evs0 & tail & Hevs & Hevs0 & Ho); by eapply (Hform evs0 tail)).
  - destruct Hshape as [Hevs Hcalm]. subst evs.
    assert (Hev : absorbed (action_of ev) = true).
    { apply Forall_app in Hevs as [_ Hevs]. apply Forall_cons_1 in Hevs as [Hev _].
      by apply early_fault. }
    rewrite Hev. split; [|done]. intros ->.
    unfold calm in Hcalm. rewrite last_snoc, Hfault in Hcalm. done.
  - destruct Hshape as (e & evs0 & tail & -> & Hevs0 & (checks & a & -> & Hchecks & Ha & _) & _).
    rewrite app_assoc in Heq.
    apply (fault_position (evs0 ++ checks) (Ev a (inl e)) pre ev post); try done.
    apply Forall_app. split; [by apply Hearly|]. apply Hquiet.
    eapply Forall_impl; [exact Hchecks|]. by intros ev' [].
Qed.

(** A run whose last call raised reports that fault: as a submit error
    when the call is the submit click or the wait after it, as an
    exception otherwise. *)
Lemma run_fault_last DRY_RUN evs o e :
  run_shape DRY_RUN evs o -> fault_last evs e ->
  (o = FailedSubmit (exn_msg e) /\ submit_faulted evs e) \/
  (o = FailedException (exn_msg e) /\ ~ submit_faulted evs e).
Proof.
  intros Hshape (a & events & Heq).
  assert (Hform : forall evs0 tail,
            evs = evs0 ++ tail -> form_outcome DRY_RUN tail o ->
            o = FailedSubmit (exn_msg e) /\ submit_faulted evs e).
  { intros evs0 tail Hevs Ho. rewrite Hevs in Heq. inversion Ho; subst tail.
    - change (evs0 ++ [seen submit_selector true]) with (evs0 ++ [] ++ [seen submit_selector true]) in Heq.
      rewrite app_assoc in Heq. apply app_inj_tail in Heq as [_ Heq].
      by apply (f_equal faulted) in Heq.
    - change (evs0 ++ ?l) with (evs0 ++ [seen submit_selector true; clicked submit_selector] ++ [slept 3 5]) in Heq.
      rewrite app_assoc in Heq. apply app_inj_tail in Heq as [_ Heq].
      by apply (f_equal faulted) in Heq.
    - match type of Heq with
      | evs0 ++ [?x; ?y] = _ => change (evs0 ++ [x; y]) with (evs0 ++ [x] ++ [y]) in Heq
      end.
      rewrite app_assoc in Heq. apply app_inj_tail in Heq as [_ Heq].
      apply (f_equal fault_of) in Heq. injection Heq as ->. subst o evs.
      split; [done|]. left. exists (evs0 ++ [seen submit_selector true]).
      by rewrite <- app_assoc.
    - match type of Heq with
      | evs0 ++ [?x; ?y; ?z] = _ =>
          change (evs0 ++ [x; y; z]) with (evs0 ++ [x; y] ++ [z]) in Heq
      end.
      rewrite app_assoc in Heq. apply app_inj_tail in Heq as [_ Heq].
      apply (f_equal fault_of) in Heq. injection Heq as ->. subst o evs.
      split; [done|]. right. exists (evs0 ++ [seen submit_selector true]).
      by rewrite <- app_assoc.
    - match type of Heq with
      | evs0 ++ [?x; ?y; ?z; ?u] = _ =>
          change (evs0 ++ [x; y; z; u]) with (evs0 ++ [x; y; z] ++ [u]) in Heq
      end.
      rewrite app_assoc in Heq. apply app_inj_tail in Heq as [_ Heq].
      by apply (f_equal faulted) in Heq.
    - match type of Heq with
      | evs0 ++ [?x; ?y; ?z; ?u] = _ =>
          change (evs0 ++ [x; y; z; u]) with (evs0 ++ [x; y; z] ++ [u]) in Heq
      end.
      rewrite app_assoc in Heq. apply app_inj_tail in Heq as [_ Heq].
      by apply (f_equal faulted) in Heq.
    - match type of Heq with
      | evs0 ++ [?x; ?y; ?z; ?u] = _ =>
          change (evs0 ++ [x; y; z; u]) with (evs0 ++ [x; y; z] ++ [u]) in Heq
      end.
      rewrite app_assoc in Heq. apply app_inj_tail in Heq as [_ Heq].
      by apply (f_equal faulted) in Heq.
    - match type of Heq with
      | evs0 ++ [?x; ?y; ?z; ?u; ?v] = _ =>
          change (evs0 ++ [x; y; z; u; v]) with (evs0 ++ [x; y; z; u] ++ [v]) in Heq
      end.
      rewrite app_assoc in Heq. apply app_inj_tail in Heq as [_ Heq].
      by apply (f_equal faulted) in Heq. }
  destruct o; cbn [run_shape] in Hshape;
    try (destruct Hshape as (evs0 & tail & Hevs & _ & Ho); left; by apply (Hform evs0 tail)).
  - destruct Hshape as [_ Hcalm]. subst evs.
    unfold calm in Hcalm. by rewrite last_snoc in Hcalm.
  - destruct Hshape as (e0 & evs0 & tail & Hevs & Hevs0 &
                        (checks & a0 & -> & Hchecks & Ha0 & Hclick) & <-).
    rewrite Hevs, app_assoc in Heq. apply app_inj_tail in Heq as [Hevents Heq].
    pose proof (f_equal fault_of Heq) as He. injection He as ->.
    right. split; [done|]. intros [[before Hb]|[before Hb]].
    + rewrite Hevs, app_assoc in Hb. apply app_inj_tail in Hb as [_ Hb].
      apply (f_equal action_of) in Hb. cbn in Hb. subst a0. done.
    + rewrite Hevs, app_assoc in Hb.
      change (before ++ [clicked submit_selector; Ev (HumanSleep 3 5) (inl e)])
        with (before ++ [clicked submit_selector] ++ [Ev (HumanSleep 3 5) (inl e)]) in Hb.
      rewrite (app_assoc before) in Hb. apply app_inj_tail in Hb as [Hb _].
      assert (Hin : In (clicked submit_selector) (evs0 ++ checks)).
      { rewrite Hb. apply in_or_app. right. by left. }
      apply in_app_or in Hin as [Hin|Hin].
      * rewrite Forall_forall in Hevs0. apply list_elem_of_In, Hevs0 in Hin. done.
      * rewrite Forall_forall in Hchecks. apply list_elem_of_In, Hchecks in Hin.
        by destruct Hin.
Qed.

(** C2, as the code has it.  Once the browser page exists, [apply_to_job]
    returns the string of exactly one of the seven outcomes and does not
    raise.  Where a fault occurs decides what becomes of it.  A fault of
    a call inside the field scan, the upload or the probe of an apply
    candidate is swallowed by the guard around it and the run goes on:
    it is never the last call of the run, and [_fill_smart_fields] and
    [_handle_upload] never raise.  Every other fault is the last call of
    the run and is reported with its description: as [FailedSubmit] when
    it is the fault of the click on the submit button or of the wait
    after that click, as [FailedException] otherwise; and these two
    outcomes are returned for such a fault only.  A fault of the
    navigation gives [FailedException]. *)
Theorem apply_to_job_outcome DRY_RUN url rp (s : BotState World) :
  page s = true ->
  let run := apply_to_job World respond DRY_RUN url rp s in
  exists o evs,
    run.1 = inr (Some (outcome_string o)) /\
    (forall o', run.1 = inr (Some (outcome_string o')) -> o' = o) /\
    trace run.2 = trace s ++ evs /\
    (forall pre ev post, evs = pre ++ ev :: post -> faulted ev = true ->
       (post = [] <-> absorbed (action_of ev) = false)) /\
    (forall detail, o = FailedSubmit detail <->
       exists e, submit_faulted evs e /\ exn_msg e = detail) /\
    (forall detail, o = FailedException detail <->
       exists e, fault_last evs e /\ ~ submit_faulted evs e /\ exn_msg e = detail) /\
    (forall e w, respond (Goto url 60000) (world s) = (inl e, w) ->
       o = FailedException (exn_msg e)) /\
    (forall s', (_fill_smart_fields World respond s').1 = inr tt) /\
    (forall s', (_handle_upload World respond rp s').1 = inr tt).
Proof.
  intros Hpage. cbn zeta.
  destruct (apply_to_job_shape DRY_RUN url rp s Hpage) as (evs & o & Htrace & Hr & Hshape).
  cbn zeta in *. exists o, evs.
  assert (Hsubmit : forall e, submit_faulted evs e -> fault_last evs e).
  { intros e [[before ->]|[before ->]].
    - by exists (HumanClick submit_selector), before.
    - exists (HumanSleep 3 5), (before ++ [clicked submit_selector]).
      by rewrite <- app_assoc. }
  split_and!; [done| |done| | | | | |].
  - intros o' Hr'. rewrite Hr in Hr'. injection Hr' as Hr'. symmetry.
    by apply outcome_string_inj.
  - intros pre ev post. by apply (run_fault_position DRY_RUN evs o).
  - intros detail. split.
    + intros ->. destruct Hshape as (evs0 & tail & -> & _ & Ho).
      inversion Ho; subst; exists e; (split; [|done]); [left|right];
        exists (evs0 ++ [seen submit_selector true]); by rewrite <- app_assoc.
    + intros (e & He & <-).
      destruct (run_fault_last DRY_RUN evs o e Hshape (Hsubmit e He)) as [[-> _]|[_ Hno]]; done.
  - intros detail. split.
    + intros ->. pose proof Hshape as (e & evs0 & tail & -> & _ & (checks & a & -> & _) & <-).
      assert (Hlast : fault_last (evs0 ++ checks ++ [Ev a (inl e)]) e).
      { exists a, (evs0 ++ checks). by rewrite <- app_assoc. }
      exists e. split; [done|]. split; [|done].
      destruct (run_fault_last DRY_RUN _ _ e Hshape Hlast) as [[? _]|[_ Hno]]; done.
    + intros (e & He & Hno & <-).
      destruct (run_fault_last DRY_RUN evs o e Hshape He) as [[_ ?]|[-> _]]; done.
  - intros e w He. apply outcome_string_inj.
    assert (Hnav : (apply_to_job World respond DRY_RUN url rp s).1
                   = inr (Some (outcome_string (FailedException (exn_msg e))))).
    { rewrite (apply_to_job_started respond DRY_RUN url rp s Hpage).
      unfold try_except, bind, perform. by rewrite He. }
    rewrite Hr in Hnav. by injection Hnav.
  - intros s'. apply fill_never_raises.
  - intros s'. apply upload_never_raises.
Qed.

(** X24. With the page set, [apply_to_job] returns [Success] only when the
    submit button was found visible; unless [DRY_RUN] is set, only when
    moreover the click on it and the wait after it both went through,
    and these are the last calls of the run. *)
Theorem success_after_submit DRY_RUN url rp (s : BotState World) :
  page s = true ->
  let run := apply_to_job World respond DRY_RUN url rp s in
  run.1 = inr (Some (outcome_string Success)) ->
  ends_with
    (if DRY_RUN then [seen submit_selector true]
     else [seen submit_selector true; clicked submit_selector; slept 3 5])
    (trace run.2).
Proof.
  intros Hpage. cbn zeta. intros Hrun.
  destruct (apply_to_job_ends DRY_RUN url rp s Hpage) as (evs & o & Htrace & Hr & Ho).
  cbn zeta in *.
  assert (Heq : outcome_string o = outcome_string Success) by congruence.
  apply outcome_string_inj in Heq as ->. rewrite Htrace. apply ends_with_prefix.
  destruct Ho as (tail & Htail & Ho). by inversion Ho; subst.
Qed.

(** X25. [apply_to_job] reports a submit error only when [DRY_RUN] is not
    set, the submit button was found visible, and the click on it or the
    wait after the click raised; the message reported is that of the
    fault, and the faulting call is the last one of the run. *)
Theorem failed_submit_fault DRY_RUN url rp (s : BotState World) detail :
  page s = true ->
  let run := apply_to_job World respond DRY_RUN url rp s in
  run.1 = inr (Some (outcome_string (FailedSubmit detail))) ->
  DRY_RUN = false /\
  exists e,
    exn_msg e = detail /\
    (ends_with [seen submit_selector true; Ev (HumanClick submit_selector) (inl e)]
       (trace run.2) \/
     ends_with [seen submit_selector true; clicked submit_selector;
                Ev (HumanSleep 3 5) (inl e)] (trace run.2)).
Proof.
  intros Hpage. cbn zeta. intros Hrun.
  destruct (apply_to_job_ends DRY_RUN url rp s Hpage) as (evs & o & Htrace & Hr & Ho).
  cbn zeta in *.
  assert (Heq : outcome_string o = outcome_string (FailedSubmit detail)) by congruence.
  apply outcome_string_inj in Heq as ->. rewrite Htrace.
  destruct Ho as (tail & Htail & Ho).
  inversion Ho; subst; (split; [done|]); exists e; (split; [done|]);
    [left|right]; by apply ends_with_prefix.
Qed.

(** X26. [apply_to_job] reports a form error, or that it is stuck, only
    after it found the Submit, Next and Review buttons not visible, in
    that order; the check of the error message that follows decides
    between the two: visible gives the form error, not visible stuck. *)
Theorem stuck_or_form_error DRY_RUN url rp (s : BotState World) (flagged : bool) :
  page s = true ->
  let run := apply_to_job World respond DRY_RUN url rp s in
  run.1 = inr (Some (outcome_string (if flagged then FailedFormError else FailedStuck))) ->
  ends_with
    [seen submit_selector false; seen next_selector false; seen review_selector false;
     seen error_selector flagged] (trace run.2).
Proof.
  intros Hpage. cbn zeta. intros Hrun.
  destruct (apply_to_job_ends DRY_RUN url rp s Hpage) as (evs & o & Htrace & Hr & Ho).
  cbn zeta in *.
  assert (Heq : outcome_string o = outcome_string (if flagged then FailedFormError else FailedStuck)) by congruence.
  apply outcome_string_inj in Heq as ->. rewrite Htrace. apply ends_with_prefix.
  destruct flagged; destruct Ho as (tail & Htail & Ho); by inversion Ho; subst.
Qed.

(** X27. [apply_to_job] returns [Failed (Too many steps)] at the end of its
    first form step: the [return] sits in the body of the loop.  The run
    splits into calls none of which is on a button of the form (no check
    of Submit, Next, Review or of the error message, no click on a
    button), followed by exactly these last calls: Submit found not
    visible, Next found visible and one click on it that went through
    (or Next found not visible, Review found visible and one click on
    it), and the wait of 2 to 3 seconds.  So the buttons were examined
    once and one advance was made. *)
Theorem too_many_steps_after_one_advance DRY_RUN url rp (s : BotState World) :
  page s = true ->
  let run := apply_to_job World respond DRY_RUN url rp s in
  run.1 = inr (Some (outcome_string FailedTooManySteps)) ->
  exists evs0 tail,
    trace run.2 = trace s ++ evs0 ++ tail /\
    Forall (fun ev => is_form_call (action_of ev) = false) evs0 /\
    (tail = [seen submit_selector false; seen next_selector true; clicked next_selector;
             slept 2 3] \/
     tail = [seen submit_selector false; seen next_selector false;
             seen review_selector true; clicked review_selector; slept 2 3]).
Proof.
  intros Hpage. cbn zeta. intros Hrun.
  destruct (apply_to_job_shape DRY_RUN url rp s Hpage) as (evs & o & Htrace & Hr & Ho).
  cbn zeta in *.
  assert (Heq : outcome_string o = outcome_string FailedTooManySteps) by congruence.
  apply outcome_string_inj in Heq as ->.
  destruct Ho as (evs0 & tail & -> & Hevs0 & Ho).
  exists evs0, tail. split; [done|]. split.
  - eapply Forall_impl; [exact Hevs0|]. intros ev. apply early_not_form.
  - inversion Ho; subst; [by left|by right].
Qed.

(** X28. A run that returns [Skipped] changed nothing on the page: it
    filled no field, uploaded nothing, and no click of its went through. *)
Theorem skipped_changes_nothing DRY_RUN url rp (s : BotState World) :
  page s = true ->
  let run := apply_to_job World respond DRY_RUN url rp s in
  run.1 = inr (Some (outcome_string Skipped)) ->
  exists evs,
    trace run.2 = trace s ++ evs /\ Forall (fun e => no_effect e = true) evs.
Proof.
  intros Hpage. cbn zeta. intros Hrun.
  destruct (apply_to_job_ends DRY_RUN url rp s Hpage) as (evs & o & Htrace & Hr & Ho).
  cbn zeta in *.
  assert (Heq : outcome_string o = outcome_string Skipped) by congruence.
  apply outcome_string_inj in Heq as ->. by exists evs.
Qed.

End Run.

End ApplicatorMore.

(** ** Scenarios of the Applicator, continued *)

Module ApplicatorMoreExamples.

Import Py Applicator ApplicatorSpec ApplicatorFacts OutcomeSpec ApplicatorScenario MoreScenario
  ApplicatorMore.

(** Counting the text inputs raises during the field scan: the call still
    returns an outcome, and the fault is not the last call of the run. *)
Lemma apply_to_job_outcome_witness :
  let run := apply_to_job unit (static_page submit_page scan_fault) true job_url resume
               started in
  exists o evs,
    run.1 = inr (Some (outcome_string o)) /\
    trace run.2 = trace started ++ evs /\
    (forall pre ev post, evs = pre ++ ev :: post -> faulted ev = true ->
       (post = [] <-> absorbed (action_of ev) = false)).
Proof.
  destruct (apply_to_job_outcome (static_page submit_page scan_fault) true job_url resume
              started) as (o & evs & Ho & _ & Htrace & Hpos & _); [reflexivity|].
  by exists o, evs.
Defined.

(** The browser cannot be launched: the fault reaches the caller. *)
Lemma start_browser_fault_escapes_witness :
  (apply_to_job unit (static_page submit_page launch_fault) false job_url resume not_started).1
  = inl (mkExn PlaywrightError "Chromium distribution 'chrome' is not found").
Proof.
  rewrite (start_browser_fault_escapes (static_page submit_page launch_fault) false
             job_url resume not_started
             (mkExn PlaywrightError "Chromium distribution 'chrome' is not found"));
    reflexivity.
Defined.

Lemma started_never_relaunches_witness :
  exists evs,
    trace (apply_to_job unit (static_page next_page no_fault) false job_url resume started).2
      = evs /\
    Forall (fun e => launches (action_of e) = false) evs.
Proof.
  destruct (started_never_relaunches (static_page next_page no_fault) false job_url resume
              started) as (evs & Htrace & Hevs); [reflexivity|].
  by exists evs.
Defined.

(** A launch that goes through sets the page. *)
Lemma start_browser_sets_page_witness :
  page (start_browser unit (static_page submit_page no_fault) not_started).2 = true.
Proof.
  apply (start_browser_sets_page (static_page submit_page no_fault) not_started);
    [reflexivity|].
  by exists [Ev PlaywrightStart (inr tt); Ev LaunchPersistentContext (inr tt);
             Ev ContextPages (inr true)], (inr tt).
Defined.

(** The page with the Submit button, for real. *)
Lemma success_after_submit_witness :
  ends_with [seen submit_selector true; clicked submit_selector; slept 3 5]
    (trace (apply_to_job unit (static_page submit_page no_fault) false job_url resume
              started).2).
Proof.
  apply (success_after_submit (static_page submit_page no_fault) false job_url resume started);
    reflexivity.
Defined.

(** The click on the Submit button times out. *)
Lemma failed_submit_fault_witness :
  let run := apply_to_job unit (static_page submit_page submit_fault) false job_url resume
               started in
  exists e,
    exn_msg e = "Timeout 30000ms exceeded" /\
    (ends_with [seen submit_selector true; Ev (HumanClick submit_selector) (inl e)]
       (trace run.2) \/
     ends_with [seen submit_selector true; clicked submit_selector;
                Ev (HumanSleep 3 5) (inl e)] (trace run.2)).
Proof.
  destruct (failed_submit_fault (static_page submit_page submit_fault) false job_url resume
              started "Timeout 30000ms exceeded") as [_ H]; [reflexivity..|].
  exact H.
Defined.

(** Only the apply button shows: the form is stuck. *)
Lemma stuck_or_form_error_witness :
  ends_with
    [seen submit_selector false; seen next_selector false; seen review_selector false;
     seen error_selector false]
    (trace (apply_to_job unit (static_page apply_only_page no_fault) false job_url resume
              started).2).
Proof.
  apply (stuck_or_form_error (static_page apply_only_page no_fault) false job_url resume
           started false); reflexivity.
Defined.

(** The page with a Next button. *)
Lemma too_many_steps_after_one_advance_witness :
  let run := apply_to_job unit (static_page next_page no_fault) false job_url resume started in
  exists evs0 tail,
    trace run.2 = trace started ++ evs0 ++ tail /\
    Forall (fun ev => is_form_call (action_of ev) = false) evs0 /\
    (tail = [seen submit_selector false; seen next_selector true; clicked next_selector;
             slept 2 3] \/
     tail = [seen submit_selector false; seen next_selector false;
             seen review_selector true; clicked review_selector; slept 2 3]).
Proof.
  apply (too_many_steps_after_one_advance (static_page next_page no_fault) false job_url
           resume started); reflexivity.
Defined.

(** No apply button shows. *)
Lemma skipped_changes_nothing_witness :
  Forall (fun e => no_effect e = true)
    (trace (apply_to_job unit (static_page blank_page no_fault) false job_url resume
              started).2).
Proof.
  destruct (skipped_changes_nothing (static_page blank_page no_fault) false job_url resume
              started) as (evs & Htrace & Hevs); [reflexivity..|].
  by rewrite Htrace.
Defined.

End ApplicatorMoreExamples.
